(** * note-organizer: the SQLite export engine ([export_to_sqlite.py])

    A shallow embedding of the import engine of [export_to_sqlite.py]
    ([parse_macos_date], [NotesDatabase.import_note],
    [NotesDatabase.generate_statistics], the schema of
    [NotesDatabase.create_schema]) and the properties of it that the
    specification states; then further properties of the engine, of
    [NotesDatabase.populate_lookup_tables], of the breakdowns of the report
    and of [main], and of the records that the earlier stages of the
    pipeline ([analyze_note.py], [ai_analyze_note.py],
    [split_individual.py]) hand to the import.

    Conventions of the embedding.
    - A Python [str] is a [string]; a character is identified with its code
      point, for code points below 256.  On that range [\d] is [0-9], [\s] is
      the set [is_space] below and case folding only touches ASCII letters.
    - The note record ([note_data], a [dict] read from JSON) is a record of
      optional fields; [None] is an absent key, so [d.get(k, default)] is
      [get_or].  The string-or-object entries are tagged unions.  A value
      has the type the earlier pipeline stages give it (a string, a list of
      strings, a dict of lists); a JSON null or a value of another type is
      outside the model.
    - A table is the list of its rows in insertion (rowid) order.  The
      surrogate keys ([AUTOINCREMENT]) and the [created_at] stamps that
      SQLite fills in by itself are not part of a row.
    - [self] is the pair of the connection's store and the [stats] dict;
      every method is a function from [self] to [self]. *)

From Stdlib Require Import List String Ascii ZArith NArith Bool Lia.
From Stdlib Require Import OrderedTypeEx Permutation.
Import ListNotations.

Open Scope string_scope.
Open Scope Z_scope.

(** ** Characters and strings *)

Definition code (c : ascii) : N := N_of_ascii c.

Definition in_range (lo hi : ascii) (c : ascii) : bool :=
  (code lo <=? code c)%N && (code c <=? code hi)%N.

Definition is_char (x : ascii) (c : ascii) : bool := Ascii.eqb x c.

Definition is_digit (c : ascii) : bool := in_range "0" "9" c.

(** [[A-Za-z]] *)
Definition is_alpha (c : ascii) : bool :=
  in_range "A" "Z" c || in_range "a" "z" c.

(** [\s] of a [str] pattern, on code points below 256. *)
Definition is_space (c : ascii) : bool :=
  let n := code c in
  ((9 <=? n) && (n <=? 13) || (28 <=? n) && (n <=? 32)
   || (n =? 133) || (n =? 160))%N.

Definition lower (c : ascii) : ascii :=
  if in_range "A" "Z" c then ascii_of_N (code c + 32) else c.

Definition chars (s : string) : list ascii := list_ascii_of_string s.
Definition str (l : list ascii) : string := string_of_list_ascii l.

(** [d.get(k, default)] on an optional field. *)
Definition get_or {A : Type} (field : option A) (default : A) : A :=
  match field with
  | Some v => v
  | None => default
  end.

(** [prefix_ci p s]: [s] starts with [p], compared case-insensitively;
    the rest of [s] when it does. *)
Fixpoint prefix_ci (p s : list ascii) : option (list ascii) :=
  match p, s with
  | [], _ => Some s
  | _ :: _, [] => None
  | x :: p', c :: s' =>
      if Ascii.eqb (lower x) (lower c) then prefix_ci p' s' else None
  end.

(** [starts_with p s]: exact prefix test. *)
Fixpoint starts_with (p s : list ascii) : bool :=
  match p, s with
  | [], _ => true
  | _ :: _, [] => false
  | x :: p', c :: s' => Ascii.eqb x c && starts_with p' s'
  end.

(** [sep in s] *)
Fixpoint contains (sep s : list ascii) : bool :=
  match s with
  | [] => starts_with sep []
  | _ :: s' => starts_with sep s || contains sep s'
  end.

(** [s.split(sep)] for a non-empty [sep]: the pieces between the
    non-overlapping occurrences of [sep], scanned from the left.  [skip]
    counts the characters of a separator still to be dropped, [cur] is the
    current piece, reversed. *)
Fixpoint split_go (sep : list ascii) (skip : nat) (cur : list ascii)
    (s : list ascii) : list (list ascii) :=
  match s with
  | [] => [rev cur]
  | c :: s' =>
      match skip with
      | S k => split_go sep k cur s'
      | O =>
          if starts_with sep s
          then rev cur :: split_go sep (pred (List.length sep)) [] s'
          else split_go sep O (c :: cur) s'
      end
  end.

Definition split (sep s : list ascii) : list (list ascii) :=
  split_go sep O [] s.

(** ** [datetime.strptime], as far as [parse_macos_date] uses it

    [_strptime] compiles the format into a regular expression (a directive
    becomes a group of alternatives, a run of white space becomes [\s+],
    any other character stands for itself), matches it at the start of the
    data with [re.IGNORECASE], and raises [ValueError] when there is no
    match or when the match leaves data unconverted.  A backtracking matcher
    returns the first match in depth-first order: a matcher here returns all
    matches in that order, and [strptime] looks at the first. *)

Module Strptime.

Definition found_dict := list (ascii * Z).
Definition matcher := list ascii -> list (found_dict * list ascii).

Fixpoint lookup (k : ascii) (d : found_dict) : option Z :=
  match d with
  | [] => None
  | (k', v) :: d' => if Ascii.eqb k k' then Some v else lookup k d'
  end.

Definition digit_val (c : ascii) : Z :=
  if is_digit c then Z.of_N (code c) - 48 else 0.

(** [int(s)] of a matched group: decimal digits, a leading blank ignored. *)
Definition int_of (l : list ascii) : Z :=
  fold_left (fun acc c => if is_digit c then acc * 10 + digit_val c else acc)
            l 0.

(** One alternative of a group: consecutive characters, one per class. *)
Fixpoint classes (cs : list (ascii -> bool)) (s : list ascii)
    : option (list ascii * list ascii) :=
  match cs with
  | [] => Some ([], s)
  | p :: cs' =>
      match s with
      | [] => None
      | c :: s' =>
          if p c
          then match classes cs' s' with
               | Some (m, r) => Some (c :: m, r)
               | None => None
               end
          else None
      end
  end.

(** A numeric group [(?P<k>a1|a2|...)], the alternatives tried in order. *)
Definition number (k : ascii) (alts : list (list (ascii -> bool)))
    (d : found_dict) : matcher :=
  fun s =>
    flat_map (fun cs => match classes cs s with
                        | Some (m, r) => [((k, int_of m) :: d, r)]
                        | None => []
                        end) alts.

(** A group of names; the value is the 1-based index of the name. *)
Fixpoint names_from (k : ascii) (i : Z) (ns : list string) (d : found_dict)
    : matcher :=
  fun s =>
    match ns with
    | [] => []
    | n :: ns' =>
        match prefix_ci (chars n) s with
        | Some r => ((k, i) :: d, r) :: names_from k (i + 1) ns' d s
        | None => names_from k (i + 1) ns' d s
        end
    end.

Definition f_month : list string :=
  ["january"; "february"; "march"; "april"; "may"; "june"; "july";
   "august"; "september"; "october"; "november"; "december"].

Definition a_month : list string :=
  ["jan"; "feb"; "mar"; "apr"; "may"; "jun"; "jul";
   "aug"; "sep"; "oct"; "nov"; "dec"].

Definition am_pm : list string := ["am"; "pm"].

Definition d09 := in_range "0" "9".
Definition d19 := in_range "1" "9".

(** The groups of [TimeRE] for the directives in use.  A directive outside
    the table is a [ValueError] in Python, as a failed match is: it matches
    nothing here. *)
Definition directive (k : ascii) (d : found_dict) : matcher :=
  if is_char "d" k then
    number k [[is_char "3"; in_range "0" "1"];
              [in_range "1" "2"; d09];
              [is_char "0"; d19];
              [d19];
              [is_char " "; d19]] d
  else if is_char "m" k then
    number k [[is_char "1"; in_range "0" "2"];
              [is_char "0"; d19];
              [d19]] d
  else if is_char "Y" k then
    number k [[d09; d09; d09; d09]] d
  else if is_char "H" k then
    number k [[is_char "2"; in_range "0" "3"];
              [in_range "0" "1"; d09];
              [d09]] d
  else if is_char "I" k then
    number k [[is_char "1"; in_range "0" "2"];
              [is_char "0"; d19];
              [d19]] d
  else if is_char "M" k then
    number k [[in_range "0" "5"; d09]; [d09]] d
  else if is_char "S" k then
    number k [[is_char "6"; in_range "0" "1"];
              [in_range "0" "5"; d09];
              [d09]] d
  else if is_char "B" k then names_from k 1 f_month d
  else if is_char "b" k then names_from k 1 a_month d
  else if is_char "p" k then names_from k 1 am_pm d
  else fun _ => [].

Inductive token : Type :=
| Dir (k : ascii)
| Ws
| Lit (c : ascii)
| Stray.

(** The format, read as [_strptime] reads it: [%k] is a directive, a run
    of white space is one [\s+], a [%] at the very end is an error. *)
Fixpoint tokens (f : list ascii) : list token :=
  match f with
  | [] => []
  | c :: f' =>
      if is_char "%" c then
        match f' with
        | k :: f'' => Dir k :: tokens f''
        | [] => [Stray]
        end
      else if is_space c then
        match tokens f' with
        | Ws :: _ as t => t
        | t => Ws :: t
        end
      else Lit c :: tokens f'
  end.

(** [\s+], greedy: the longest run first, then shorter ones, never empty.
    [k] continues the match on what is left. *)
Fixpoint spaces {A : Type} (k : list ascii -> list A) (s : list ascii)
    : list A :=
  match s with
  | [] => []
  | c :: s' => if is_space c then spaces k s' ++ k s' else []
  end.

(** All matches of the compiled format at the start of [s], first match
    first, each with the groups found and the data left over. *)
Fixpoint run (ts : list token) (d : found_dict) (s : list ascii)
    : list (found_dict * list ascii) :=
  match ts with
  | [] => [(d, s)]
  | Dir k :: ts' => flat_map (fun m => run ts' (fst m) (snd m)) (directive k d s)
  | Ws :: ts' => spaces (run ts' d) s
  | Lit c :: ts' =>
      match s with
      | x :: s' => if Ascii.eqb (lower c) (lower x) then run ts' d s' else []
      | [] => []
      end
  | Stray :: _ => []
  end.

(** [datetime] objects: naive, microsecond 0. *)
Record datetime : Type := mk_datetime
  { year : Z; month : Z; day : Z; hour : Z; minute : Z; second : Z }.

Definition is_leap (y : Z) : bool :=
  (y mod 4 =? 0) && (negb (y mod 100 =? 0) || (y mod 400 =? 0)).

Definition days_in_month (y m : Z) : Z :=
  if m =? 2 then (if is_leap y then 29 else 28)
  else if (m =? 4) || (m =? 6) || (m =? 9) || (m =? 11) then 30
  else 31.

(** The constructor's range checks ([ValueError] otherwise). *)
Definition valid_datetime (t : datetime) : bool :=
  (1 <=? year t) && (year t <=? 9999)
  && (1 <=? month t) && (month t <=? 12)
  && (1 <=? day t) && (day t <=? days_in_month (year t) (month t))
  && (0 <=? hour t) && (hour t <=? 23)
  && (0 <=? minute t) && (minute t <=? 59)
  && (0 <=? second t) && (second t <=? 59).

(** The hour of a match: [%H] as it is; [%I] corrected by [%p]
    (1 = am, 2 = pm; no [%p] counts as am). *)
Definition hour_of (d : found_dict) : Z :=
  match lookup "H" d, lookup "I" d with
  | Some h, _ => h
  | None, Some i =>
      if get_or (lookup "p" d) 1 =? 2
      then (if i =? 12 then 12 else i + 12)
      else (if i =? 12 then 0 else i)
  | None, None => 0
  end.

Definition month_of (d : found_dict) : Z :=
  match lookup "m" d, lookup "B" d, lookup "b" d with
  | Some m, _, _ => m
  | None, Some m, _ => m
  | None, None, Some m => m
  | None, None, None => 1
  end.

(** The fields of a match, with [_strptime]'s defaults (1900-01-01
    00:00:00) for the groups the format does not have. *)
Definition of_found (d : found_dict) : datetime :=
  {| year := get_or (lookup "Y" d) 1900;
     month := month_of d;
     day := get_or (lookup "d" d) 1;
     hour := hour_of d;
     minute := get_or (lookup "M" d) 0;
     second := get_or (lookup "S" d) 0 |}.

(** [datetime.strptime(data, format)]; [None] is a [ValueError]. *)
Definition strptime (data format : string) : option datetime :=
  match run (tokens (chars format)) [] (chars data) with
  | (d, []) :: _ =>
      let t := of_found d in
      if valid_datetime t then Some t else None
  | (_, _ :: _) :: _ => None     (* unconverted data remains *)
  | [] => None                   (* does not match format *)
  end.

(** [datetime.combine(d.date(), t.time())] *)
Definition combine (d t : datetime) : datetime :=
  {| year := year d; month := month d; day := day d;
     hour := hour t; minute := minute t; second := second t |}.

Definition digit_char (n : Z) : ascii := ascii_of_N (Z.to_N (48 + n mod 10)).

Definition pad2 (n : Z) : list ascii := [digit_char (n / 10); digit_char n].

Definition pad4 (n : Z) : list ascii :=
  [digit_char (n / 1000); digit_char (n / 100); digit_char (n / 10);
   digit_char n].

(** [t.isoformat(" ")], the text [sqlite3]'s default adapter binds for a
    [datetime] parameter. *)
Definition isoformat (t : datetime) : string :=
  str (pad4 (year t) ++ chars "-" ++ pad2 (month t) ++ chars "-"
       ++ pad2 (day t) ++ chars " " ++ pad2 (hour t) ++ chars ":"
       ++ pad2 (minute t) ++ chars ":" ++ pad2 (second t)).

End Strptime.

Export Strptime(datetime, mk_datetime, strptime, isoformat).

(** ** [parse_macos_date] *)

(** [re.sub(r'^[A-Za-z]+,\s+', '', s)]: a leading word, a comma and the
    white space after it are dropped; anything else is left as it is. *)
Fixpoint drop_while (p : ascii -> bool) (s : list ascii) : list ascii :=
  match s with
  | [] => []
  | c :: s' => if p c then drop_while p s' else s
  end.

Definition strip_weekday (s : list ascii) : list ascii :=
  match s with
  | c :: _ =>
      if is_alpha c then
        match drop_while is_alpha s with
        | comma :: sp :: r =>
            if is_char "," comma && is_space sp
            then drop_while is_space r
            else s
        | _ => s
        end
      else s
  | [] => s
  end.

(** [for fmt in formats: try: return strptime(data, fmt)
     except ValueError: continue] *)
Fixpoint first_format (data : string) (formats : list string)
    : option datetime :=
  match formats with
  | [] => None
  | fmt :: formats' =>
      match strptime data fmt with
      | Some t => Some t
      | None => first_format data formats'
      end
  end.

Definition date_formats : list string := ["%B %d, %Y"; "%b %d, %Y"].
Definition time_formats : list string := ["%H:%M:%S"; "%I:%M:%S %p"].
Definition fallback_formats : list string := ["%Y-%m-%d %H:%M:%S"; "%Y-%m-%d"].

(** How the [if ' at ' in ...] block ends: with a [return], or by falling
    through to the fallback formats. *)
Inductive at_block : Type :=
| Return (r : option datetime)
| FallThrough.

Definition parse_at_block (date_str_clean : list ascii) : at_block :=
  if contains (chars " at ") date_str_clean then
    match split (chars " at ") date_str_clean with
    | [date_part; time_part] =>
        match first_format (str date_part) date_formats with
        | None => Return None
        | Some parsed_date =>
            match first_format (str time_part) time_formats with
            | Some time_obj => Return (Some (Strptime.combine parsed_date time_obj))
            | None => FallThrough
            end
        end
    | _ => Return None   (* the unpacking raises; the outer [except] returns None *)
    end
  else FallThrough.

Definition parse_macos_date (date_str : string) : option datetime :=
  match date_str with
  | EmptyString => None
  | _ =>
      match parse_at_block (strip_weekday (chars date_str)) with
      | Return r => r
      | FallThrough => first_format date_str fallback_formats
      end
  end.

(** ** The input: one note record *)

(** An entry of [extracted_data.images]: a bare file name, or an object
    with the keys [filename], [path], [format], [size]. *)
Inductive image_entry : Type :=
| ImageName (filename : string)
| ImageObject (filename path format : option string) (size : option Z).

(** An entry of [analysis.tasks], [.ideas] or [.projects]: a bare string, or
    an object, given by its string fields. *)
Inductive text_entry : Type :=
| Bare (text : string)
| Object (fields : list (string * string)).

Record extracted_data_t : Type := mk_extracted_data
  { ed_images : option (list image_entry);
    ed_links : option (list string) }.

Record analysis_t : Type := mk_analysis
  { an_summary : option string;
    an_plain_text : option string;
    an_tasks : option (list text_entry);
    an_ideas : option (list text_entry);
    an_projects : option (list text_entry);
    an_links_categorized : option (list (string * list string));
    an_other_keys : list string }.

Record note_data_t : Type := mk_note_data
  { nd_note_id : option string;
    nd_original_index : option Z;
    nd_title : option string;
    nd_content : option string;
    nd_content_cleaned : option string;
    nd_folder : option string;
    nd_account : option string;
    nd_id : option string;
    nd_created : option string;
    nd_modified : option string;
    nd_status : option string;
    nd_processed : option bool;
    nd_primary_category : option string;
    nd_categories : option (list string);
    nd_extracted_data : option extracted_data_t;
    nd_analysis : option analysis_t }.

(** The empty dicts that [.get('extracted_data', {})] and
    [.get('analysis', {})] default to. *)
Definition no_extracted_data : extracted_data_t := mk_extracted_data None None.
Definition no_analysis : analysis_t :=
  mk_analysis None None None None None None [].

Definition is_some {A : Type} (o : option A) : bool :=
  match o with Some _ => true | None => false end.

(** [if analysis:] a dict is true when it has a key. *)
Definition analysis_truthy (a : analysis_t) : bool :=
  is_some (an_summary a) || is_some (an_plain_text a) || is_some (an_tasks a)
  || is_some (an_ideas a) || is_some (an_projects a)
  || is_some (an_links_categorized a)
  || negb (Nat.eqb (List.length (an_other_keys a)) 0).

(** [if s:] a string is true when it is not empty. *)
Definition str_truthy (s : string) : bool :=
  match s with EmptyString => false | String _ _ => true end.

Fixpoint assoc (k : string) (fields : list (string * string)) : option string :=
  match fields with
  | [] => None
  | (k', v) :: fields' => if String.eqb k k' then Some v else assoc k fields'
  end.

(** [e if isinstance(e, str) else e.get(key, '')] *)
Definition entry_text (key : string) (e : text_entry) : string :=
  match e with
  | Bare text => text
  | Object fields => get_or (assoc key fields) ""
  end.

(** [enumerate(l, start)] *)
Fixpoint enumerate {A : Type} (start : Z) (l : list A) : list (Z * A) :=
  match l with
  | [] => []
  | x :: l' => (start, x) :: enumerate (start + 1) l'
  end.

(** ** The store

    The tables of [create_schema] that [import_note] writes, with the
    columns its statements name. *)

Record note_row : Type := mk_note_row
  { n_note_id : string;
    n_original_index : Z;
    n_title : string;
    n_content : string;
    n_content_cleaned : string;
    n_plain_text : string;
    n_folder : string;
    n_account : string;
    n_coredata_id : option string;
    n_created_raw : string;
    n_created_datetime : option string;
    n_modified_raw : string;
    n_modified_datetime : option string;
    n_status : string;
    n_processed : Z;
    n_primary_category : option string;
    n_content_length : Z }.

Record link_row : Type := mk_link_row
  { l_note_id : string; l_url : string; l_link_type : option string }.

Record image_row : Type := mk_image_row
  { i_note_id : string;
    i_filename : string;
    i_relative_path : string;
    i_image_format : string;
    i_size_bytes : Z;
    i_extraction_order : Z }.

Record analysis_row : Type := mk_analysis_row
  { a_note_id : string; a_summary : string; a_plain_text_sample : string }.

Record task_row : Type := mk_task_row
  { t_note_id : string; t_task_text : string }.

Record idea_row : Type := mk_idea_row
  { d_note_id : string; d_idea_text : string }.

Record project_row : Type := mk_project_row
  { p_note_id : string; p_project_name : string }.

Record category_row : Type := mk_category_row
  { c_note_id : string; c_category : string }.

Record store : Type := mk_store
  { foreign_keys : bool;        (* PRAGMA foreign_keys, per connection *)
    notes : list note_row;
    extracted_links : list link_row;
    extracted_images : list image_row;
    analysis : list analysis_row;
    extracted_tasks : list task_row;
    extracted_ideas : list idea_row;
    extracted_projects : list project_row;
    note_categories : list category_row }.

(** A database file that [create_schema] has just created. *)
Definition empty_store : store := mk_store false [] [] [] [] [] [] [] [].

(** *** The schema, as [create_schema] declares it *)

Inductive table : Type :=
| Notes | ExtractedLinks | ExtractedImages | Analysis | ExtractedTasks
| ExtractedIdeas | ExtractedProjects | NoteCategories | Accounts | Folders.

Inductive fk_action : Type := NoAction | Cascade.

(** [FOREIGN KEY (note_id) REFERENCES notes(note_id) ON DELETE ...] *)
Record foreign_key : Type := mk_fk
  { fk_parent : table; fk_on_delete : fk_action }.

Definition schema_foreign_key (t : table) : option foreign_key :=
  match t with
  | ExtractedLinks => Some (mk_fk Notes Cascade)
  | ExtractedImages => Some (mk_fk Notes Cascade)
  | Analysis => Some (mk_fk Notes Cascade)
  | ExtractedTasks => Some (mk_fk Notes Cascade)
  | ExtractedIdeas => Some (mk_fk Notes Cascade)
  | ExtractedProjects => Some (mk_fk Notes Cascade)
  | NoteCategories => Some (mk_fk Notes Cascade)
  | Notes | Accounts | Folders => None
  end.

(** The tables with a [note_id] column that refers to [notes]. *)
Definition child_tables : list table :=
  [ExtractedLinks; ExtractedImages; Analysis; ExtractedTasks;
   ExtractedIdeas; ExtractedProjects; NoteCategories].

(** [sqlite3.IntegrityError], and the [OverflowError] of an [int] parameter
    that SQLite cannot hold; [str(e)] is the message. *)
Inductive exn : Type :=
| IntegrityError (message : string)
| OverflowError (message : string).

Definition exn_str (e : exn) : string :=
  match e with
  | IntegrityError message => message
  | OverflowError message => message
  end.

Definition result (A : Type) : Type := (exn + A)%type.

Definition has_note (note_id : string) (db : store) : bool :=
  existsb (fun r => String.eqb (n_note_id r) note_id) (notes db).

(** The check of a child row's foreign key, made when the pragma is on. *)
Definition parent_ok (note_id : string) (db : store) : bool :=
  negb (foreign_keys db) || has_note note_id db.

Definition fk_failed {A : Type} : result A :=
  inl (IntegrityError "FOREIGN KEY constraint failed").

(** An [int] parameter is bound as a 64-bit signed integer: [execute]
    raises on one that does not fit, before the statement runs, whatever
    the statement would have met.  The [int] parameters of [import_note]
    that a record chooses are [original_index] and the [size] of an image;
    the others are 0 or 1, the length of a string or a position in a list,
    which always fit. *)
Definition sqlite_int (z : Z) : bool := (- 2 ^ 63 <=? z) && (z <? 2 ^ 63).

Definition too_large {A : Type} : result A :=
  inl (OverflowError "Python int too large to convert to SQLite INTEGER").

(** [UNIQUE] on a nullable column: NULL conflicts with nothing. *)
Definition same_non_null (x y : option string) : bool :=
  match x, y with
  | Some a, Some b => String.eqb a b
  | _, _ => false
  end.

Definition set_notes (db : store) (l : list note_row) : store :=
  mk_store (foreign_keys db) l (extracted_links db) (extracted_images db)
    (analysis db) (extracted_tasks db) (extracted_ideas db)
    (extracted_projects db) (note_categories db).

(** [INSERT INTO notes (...) VALUES (...)]: [note_id] is the primary key and
    [coredata_id] is [UNIQUE].  When a row breaks both, SQLite names the
    index it checks first, the one declared last. *)
Definition insert_note (r : note_row) (db : store) : result store :=
  if negb (sqlite_int (n_original_index r)) then too_large
  else if existsb (fun x => same_non_null (n_coredata_id x) (n_coredata_id r))
                  (notes db)
  then inl (IntegrityError "UNIQUE constraint failed: notes.coredata_id")
  else if has_note (n_note_id r) db
  then inl (IntegrityError "UNIQUE constraint failed: notes.note_id")
  else inr (set_notes db (notes db ++ [r])).

Definition set_links (db : store) (l : list link_row) : store :=
  mk_store (foreign_keys db) (notes db) l (extracted_images db) (analysis db)
    (extracted_tasks db) (extracted_ideas db) (extracted_projects db)
    (note_categories db).

Definition set_images (db : store) (l : list image_row) : store :=
  mk_store (foreign_keys db) (notes db) (extracted_links db) l (analysis db)
    (extracted_tasks db) (extracted_ideas db) (extracted_projects db)
    (note_categories db).

Definition set_analysis (db : store) (l : list analysis_row) : store :=
  mk_store (foreign_keys db) (notes db) (extracted_links db)
    (extracted_images db) l (extracted_tasks db) (extracted_ideas db)
    (extracted_projects db) (note_categories db).

Definition set_tasks (db : store) (l : list task_row) : store :=
  mk_store (foreign_keys db) (notes db) (extracted_links db)
    (extracted_images db) (analysis db) l (extracted_ideas db)
    (extracted_projects db) (note_categories db).

Definition set_ideas (db : store) (l : list idea_row) : store :=
  mk_store (foreign_keys db) (notes db) (extracted_links db)
    (extracted_images db) (analysis db) (extracted_tasks db) l
    (extracted_projects db) (note_categories db).

Definition set_projects (db : store) (l : list project_row) : store :=
  mk_store (foreign_keys db) (notes db) (extracted_links db)
    (extracted_images db) (analysis db) (extracted_tasks db)
    (extracted_ideas db) l (note_categories db).

Definition set_categories (db : store) (l : list category_row) : store :=
  mk_store (foreign_keys db) (notes db) (extracted_links db)
    (extracted_images db) (analysis db) (extracted_tasks db)
    (extracted_ideas db) (extracted_projects db) l.

(** [INSERT OR IGNORE INTO extracted_links]: [UNIQUE(note_id, url)].  A row
    that breaks the uniqueness is skipped; a missing parent is an error all
    the same. *)
Definition link_conflict (r x : link_row) : bool :=
  String.eqb (l_note_id x) (l_note_id r) && String.eqb (l_url x) (l_url r).

Definition insert_or_ignore_link (r : link_row) (db : store) : result store :=
  if existsb (link_conflict r) (extracted_links db) then inr db
  else if parent_ok (l_note_id r) db
  then inr (set_links db (extracted_links db ++ [r]))
  else fk_failed.

(** [INSERT OR IGNORE INTO extracted_images]: [UNIQUE(note_id, filename)]. *)
Definition image_conflict (r x : image_row) : bool :=
  String.eqb (i_note_id x) (i_note_id r)
  && String.eqb (i_filename x) (i_filename r).

Definition insert_or_ignore_image (r : image_row) (db : store) : result store :=
  if negb (sqlite_int (i_size_bytes r)) then too_large
  else if existsb (image_conflict r) (extracted_images db) then inr db
  else if parent_ok (i_note_id r) db
  then inr (set_images db (extracted_images db ++ [r]))
  else fk_failed.

(** [INSERT OR IGNORE INTO note_categories]: [UNIQUE(note_id, category)]. *)
Definition category_conflict (r x : category_row) : bool :=
  String.eqb (c_note_id x) (c_note_id r)
  && String.eqb (c_category x) (c_category r).

Definition insert_or_ignore_category (r : category_row) (db : store)
    : result store :=
  if existsb (category_conflict r) (note_categories db) then inr db
  else if parent_ok (c_note_id r) db
  then inr (set_categories db (note_categories db ++ [r]))
  else fk_failed.

(** [INSERT OR IGNORE INTO analysis]: [note_id] is [UNIQUE]. *)
Definition analysis_conflict (r x : analysis_row) : bool :=
  String.eqb (a_note_id x) (a_note_id r).

Definition insert_or_ignore_analysis (r : analysis_row) (db : store)
    : result store :=
  if existsb (analysis_conflict r) (analysis db) then inr db
  else if parent_ok (a_note_id r) db
  then inr (set_analysis db (analysis db ++ [r]))
  else fk_failed.

(** [INSERT INTO extracted_tasks], [extracted_ideas], [extracted_projects]:
    no uniqueness beyond the surrogate key. *)
Definition insert_task (r : task_row) (db : store) : result store :=
  if parent_ok (t_note_id r) db
  then inr (set_tasks db (extracted_tasks db ++ [r]))
  else fk_failed.

Definition insert_idea (r : idea_row) (db : store) : result store :=
  if parent_ok (d_note_id r) db
  then inr (set_ideas db (extracted_ideas db ++ [r]))
  else fk_failed.

Definition insert_project (r : project_row) (db : store) : result store :=
  if parent_ok (p_note_id r) db
  then inr (set_projects db (extracted_projects db ++ [r]))
  else fk_failed.

(** [DELETE FROM notes WHERE note_id = ?], on one child table: what the
    table's foreign key, as declared, makes of the rows that refer to the
    deleted note.  [None] is the statement failing. *)
Definition delete_in_child {R : Type} (note_id_of : R -> string) (t : table)
    (enabled : bool) (note_id : string) (rows : list R) : option (list R) :=
  match schema_foreign_key t with
  | None => Some rows
  | Some fk =>
      if enabled then
        match fk_on_delete fk with
        | Cascade =>
            Some (filter (fun r => negb (String.eqb (note_id_of r) note_id))
                         rows)
        | NoAction =>
            if existsb (fun r => String.eqb (note_id_of r) note_id) rows
            then None else Some rows
        end
      else Some rows
  end.

Definition delete_note (note_id : string) (db : store) : result store :=
  if has_note note_id db then
    let on := foreign_keys db in
    match delete_in_child l_note_id ExtractedLinks on note_id (extracted_links db),
          delete_in_child i_note_id ExtractedImages on note_id (extracted_images db),
          delete_in_child a_note_id Analysis on note_id (analysis db),
          delete_in_child t_note_id ExtractedTasks on note_id (extracted_tasks db),
          delete_in_child d_note_id ExtractedIdeas on note_id (extracted_ideas db),
          delete_in_child p_note_id ExtractedProjects on note_id (extracted_projects db),
          delete_in_child c_note_id NoteCategories on note_id (note_categories db)
    with
    | Some lk, Some im, Some an, Some tk, Some idr, Some pj, Some ct =>
        inr (mk_store on
               (filter (fun r => negb (String.eqb (n_note_id r) note_id))
                       (notes db))
               lk im an tk idr pj ct)
    | _, _, _, _, _, _, _ => fk_failed
    end
  else inr db.

(** ** [NotesDatabase] *)

Record stats_t : Type := mk_stats
  { notes_imported : Z;
    links_imported : Z;
    images_imported : Z;
    categories_imported : Z;
    tasks_imported : Z;
    ideas_imported : Z;
    projects_imported : Z;
    errors : list string }.

Definition new_stats : stats_t := mk_stats 0 0 0 0 0 0 0 [].

Record self_t : Type := mk_self { conn : store; stats : stats_t }.

(** [connect]: open the database file and turn the pragma on. *)
Definition connect (file : store) : self_t :=
  mk_self (mk_store true (notes file) (extracted_links file)
             (extracted_images file) (analysis file) (extracted_tasks file)
             (extracted_ideas file) (extracted_projects file)
             (note_categories file))
          new_stats.

(** [self.stats['errors'].append(msg)] *)
Definition add_error (msg : string) (self : self_t) : self_t :=
  let s := stats self in
  mk_self (conn self)
    (mk_stats (notes_imported s) (links_imported s) (images_imported s)
       (categories_imported s) (tasks_imported s) (ideas_imported s)
       (projects_imported s) (errors s ++ [msg])).

(** [self.stats[k] += 1], one function per key. *)
Definition count_note (s : stats_t) : stats_t :=
  mk_stats (notes_imported s + 1) (links_imported s) (images_imported s)
    (categories_imported s) (tasks_imported s) (ideas_imported s)
    (projects_imported s) (errors s).

Definition count_link (s : stats_t) : stats_t :=
  mk_stats (notes_imported s) (links_imported s + 1) (images_imported s)
    (categories_imported s) (tasks_imported s) (ideas_imported s)
    (projects_imported s) (errors s).

Definition count_image (s : stats_t) : stats_t :=
  mk_stats (notes_imported s) (links_imported s) (images_imported s + 1)
    (categories_imported s) (tasks_imported s) (ideas_imported s)
    (projects_imported s) (errors s).

Definition count_category (s : stats_t) : stats_t :=
  mk_stats (notes_imported s) (links_imported s) (images_imported s)
    (categories_imported s + 1) (tasks_imported s) (ideas_imported s)
    (projects_imported s) (errors s).

Definition count_task (s : stats_t) : stats_t :=
  mk_stats (notes_imported s) (links_imported s) (images_imported s)
    (categories_imported s) (tasks_imported s + 1) (ideas_imported s)
    (projects_imported s) (errors s).

Definition count_idea (s : stats_t) : stats_t :=
  mk_stats (notes_imported s) (links_imported s) (images_imported s)
    (categories_imported s) (tasks_imported s) (ideas_imported s + 1)
    (projects_imported s) (errors s).

Definition count_project (s : stats_t) : stats_t :=
  mk_stats (notes_imported s) (links_imported s) (images_imported s)
    (categories_imported s) (tasks_imported s) (ideas_imported s)
    (projects_imported s + 1) (errors s).

(** [try: execute(...); stats[k] += 1  except Exception as e: <handler>]:
    the statement's outcome, the counter on success, the handler's message
    (or [None] for [pass]) on failure. *)
Definition try_insert (outcome : result store) (count : stats_t -> stats_t)
    (handler : exn -> option string) (self : self_t) : self_t :=
  match outcome with
  | inr db' => mk_self db' (count (stats self))
  | inl e =>
      match handler e with
      | Some msg => add_error msg self
      | None => self
      end
  end.

Definition report (what note_id : string) (e : exn) : option string :=
  Some (what ++ " import error for " ++ note_id ++ ": " ++ exn_str e).

Definition pass (e : exn) : option string := None.

(** The bodies of the loops of [import_note]. *)
Definition import_link (note_id : string) (self : self_t) (link : string)
    : self_t :=
  try_insert (insert_or_ignore_link (mk_link_row note_id link None) (conn self))
    count_link (report "Link" note_id) self.

Definition import_typed_link (note_id link_type : string) (self : self_t)
    (link : string) : self_t :=
  try_insert
    (insert_or_ignore_link (mk_link_row note_id link (Some link_type))
       (conn self))
    count_link pass self.

Definition import_typed_links (note_id : string) (self : self_t)
    (item : string * list string) : self_t :=
  fold_left (import_typed_link note_id (fst item)) (snd item) self.

Definition image_row_of (note_id : string) (idx : Z) (image : image_entry)
    : image_row :=
  match image with
  | ImageObject filename path format size =>
      let filename := get_or filename "" in
      mk_image_row note_id filename (get_or path ("images/" ++ filename))
        (get_or format "") (get_or size 0) idx
  | ImageName filename =>
      mk_image_row note_id filename ("images/" ++ filename) "" 0 idx
  end.

Definition import_image (note_id : string) (self : self_t)
    (item : Z * image_entry) : self_t :=
  try_insert
    (insert_or_ignore_image (image_row_of note_id (fst item) (snd item))
       (conn self))
    count_image (report "Image" note_id) self.

Definition import_category (note_id : string) (self : self_t)
    (category : string) : self_t :=
  try_insert
    (insert_or_ignore_category (mk_category_row note_id category) (conn self))
    count_category pass self.

Definition import_task (note_id : string) (self : self_t) (task : text_entry)
    : self_t :=
  try_insert
    (insert_task (mk_task_row note_id (entry_text "text" task)) (conn self))
    count_task (report "Task" note_id) self.

Definition import_idea (note_id : string) (self : self_t) (idea : text_entry)
    : self_t :=
  try_insert
    (insert_idea (mk_idea_row note_id (entry_text "text" idea)) (conn self))
    count_idea (report "Idea" note_id) self.

Definition import_project (note_id : string) (self : self_t)
    (project : text_entry) : self_t :=
  try_insert
    (insert_project (mk_project_row note_id (entry_text "name" project))
       (conn self))
    count_project (report "Project" note_id) self.

(** The [if analysis:] block. *)
Definition import_analysis (note_id : string) (a : analysis_t)
    (self : self_t) : self_t :=
  if analysis_truthy a then
    let summary := get_or (an_summary a) "" in
    let plain_text_sample := substring 0 1000 (get_or (an_plain_text a) "") in
    let self :=
      if str_truthy summary || str_truthy plain_text_sample then
        try_insert
          (insert_or_ignore_analysis
             (mk_analysis_row note_id summary plain_text_sample) (conn self))
          (fun s => s) (report "Analysis" note_id) self
      else self in
    let self := fold_left (import_task note_id) (get_or (an_tasks a) []) self in
    let self := fold_left (import_idea note_id) (get_or (an_ideas a) []) self in
    fold_left (import_project note_id) (get_or (an_projects a) []) self
  else self.

(** Everything of [import_note] after the Note row is in. *)
Definition import_children (note_id : string) (note_data : note_data_t)
    (self : self_t) : self_t :=
  let extracted_data := get_or (nd_extracted_data note_data) no_extracted_data in
  let links := get_or (ed_links extracted_data) [] in
  let analysis := get_or (nd_analysis note_data) no_analysis in
  let links_categorized := get_or (an_links_categorized analysis) [] in
  let self := fold_left (import_link note_id) links self in
  let self := fold_left (import_typed_links note_id) links_categorized self in
  let images := get_or (ed_images extracted_data) [] in
  let self := fold_left (import_image note_id) (enumerate 1 images) self in
  let categories := get_or (nd_categories note_data) [] in
  let self := fold_left (import_category note_id) categories self in
  import_analysis note_id analysis self.

Section Engine.

(** What [html_to_text] returns for a non-empty content: the text that the
    standard library's HTML parser collects ([HTMLToText], or the
    tag-stripping fallback of the [except]), taken as given. *)
Variable html_parser_text : string -> string.

Definition html_to_text (html_content : string) : string :=
  if str_truthy html_content then html_parser_text html_content else "".

(** The parameters of the [INSERT INTO notes] statement. *)
Definition note_row_of (note_id : string) (note_data : note_data_t)
    : note_row :=
  let created_datetime := parse_macos_date (get_or (nd_created note_data) "") in
  let modified_datetime := parse_macos_date (get_or (nd_modified note_data) "") in
  let content := get_or (nd_content note_data) "" in
  let plain_text := html_to_text content in
  {| n_note_id := note_id;
     n_original_index := get_or (nd_original_index note_data) 0;
     n_title := get_or (nd_title note_data) "Untitled";
     n_content := content;
     n_content_cleaned := get_or (nd_content_cleaned note_data) content;
     n_plain_text := plain_text;
     n_folder := get_or (nd_folder note_data) "Notes";
     n_account := get_or (nd_account note_data) "Unknown";
     n_coredata_id := Some (get_or (nd_id note_data) "");
     n_created_raw := get_or (nd_created note_data) "";
     n_created_datetime := option_map isoformat created_datetime;
     n_modified_raw := get_or (nd_modified note_data) "";
     n_modified_datetime := option_map isoformat modified_datetime;
     n_status := get_or (nd_status note_data) "pending";
     n_processed := if get_or (nd_processed note_data) false then 1 else 0;
     n_primary_category := nd_primary_category note_data;
     n_content_length := Z.of_nat (String.length plain_text) |}.

Definition import_note (note_data : note_data_t) (self : self_t) : self_t :=
  let note_id := get_or (nd_note_id note_data) "" in
  if negb (str_truthy note_id) then
    add_error "Missing note_id in note data" self
  else
    match insert_note (note_row_of note_id note_data) (conn self) with
    | inl e =>
        add_error ("Failed to import note " ++ note_id ++ ": " ++ exn_str e)
                  self
    | inr db' =>
        import_children note_id note_data
          (mk_self db' (count_note (stats self)))
    end.

(** The loop of [main] over the records read. *)
Definition import_all (records : list note_data_t) (self : self_t) : self_t :=
  fold_left (fun self note_data => import_note note_data self) records self.

(** ** [generate_statistics]: the date ranges *)

(** [MIN(col)]: the least non-NULL value, NULL when there is none.  The
    column holds ISO texts, compared as texts. *)
Definition min_text (x y : string) : string := if String.leb x y then x else y.
Definition max_text (x y : string) : string := if String.leb x y then y else x.

Fixpoint aggregate (pick : string -> string -> string)
    (col : list (option string)) : option string :=
  match col with
  | [] => None
  | None :: col' => aggregate pick col'
  | Some v :: col' =>
      match aggregate pick col' with
      | None => Some v
      | Some w => Some (pick v w)
      end
  end.

Definition sql_min := aggregate min_text.
Definition sql_max := aggregate max_text.

Record date_ranges_t : Type := mk_date_ranges
  { earliest_created : option string;
    latest_created : option string;
    earliest_modified : option string;
    latest_modified : option string }.

(** [SELECT MIN(created_datetime), MAX(created_datetime),
            MIN(modified_datetime), MAX(modified_datetime)
     FROM notes WHERE created_datetime IS NOT NULL] *)
Definition date_ranges (db : store) : date_ranges_t :=
  let rows := filter (fun r => is_some (n_created_datetime r)) (notes db) in
  {| earliest_created := sql_min (map n_created_datetime rows);
     latest_created := sql_max (map n_created_datetime rows);
     earliest_modified := sql_min (map n_modified_datetime rows);
     latest_modified := sql_max (map n_modified_datetime rows) |}.

(** The [SELECT COUNT( * )] of each table. *)
Record totals_t : Type := mk_totals
  { total_notes : Z; total_links : Z; total_images : Z; total_categories : Z;
    total_tasks : Z; total_ideas : Z; total_projects : Z }.

(** [len(l)], and the count of a table's rows. *)
Definition len {A : Type} (l : list A) : Z := Z.of_nat (List.length l).

Definition totals (db : store) : totals_t :=
  {| total_notes := len (notes db);
     total_links := len (extracted_links db);
     total_images := len (extracted_images db);
     total_categories := len (note_categories db);
     total_tasks := len (extracted_tasks db);
     total_ideas := len (extracted_ideas db);
     total_projects := len (extracted_projects db) |}.

(** ** What one import adds, table by table

    The rows that the statements of [import_note] carry, in the order the
    statements run, and what ignore-on-duplicate makes of them.  The lemmas
    below show that [import_note] computes exactly this. *)

(** One [INSERT OR IGNORE] on a table. *)
Definition put {R : Type} (conflict : R -> R -> bool) (t : list R) (r : R)
    : list R :=
  if existsb (conflict r) t then t else t ++ [r].

Definition add_unique {R : Type} (conflict : R -> R -> bool) (rows t : list R)
    : list R :=
  fold_left (put conflict) rows t.

Definition typed_link_rows (note_id : string) (item : string * list string)
    : list link_row :=
  map (fun link => mk_link_row note_id link (Some (fst item))) (snd item).

Definition link_rows (note_id : string) (note_data : note_data_t)
    : list link_row :=
  let extracted_data := get_or (nd_extracted_data note_data) no_extracted_data in
  let analysis := get_or (nd_analysis note_data) no_analysis in
  map (fun link => mk_link_row note_id link None)
      (get_or (ed_links extracted_data) [])
  ++ flat_map (typed_link_rows note_id)
       (get_or (an_links_categorized analysis) []).

(** The image statements of a record, one per entry, with the rows they
    carry. *)
Definition image_statements (note_id : string) (note_data : note_data_t)
    : list image_row :=
  let extracted_data := get_or (nd_extracted_data note_data) no_extracted_data in
  map (fun item => image_row_of note_id (fst item) (snd item))
      (enumerate 1 (get_or (ed_images extracted_data) [])).

(** The rows of the statements that bind: those with a size that fits. *)
Definition fits (r : image_row) : bool := sqlite_int (i_size_bytes r).

Definition image_rows (note_id : string) (note_data : note_data_t)
    : list image_row :=
  filter fits (image_statements note_id note_data).

(** The line that one of the others leaves in the error log. *)
Definition image_error (note_id : string) (r : image_row) : string :=
  "Image import error for " ++ note_id
  ++ ": Python int too large to convert to SQLite INTEGER".

Definition image_errors (note_id : string) (note_data : note_data_t)
    : list string :=
  map (image_error note_id)
      (filter (fun r => negb (fits r)) (image_statements note_id note_data)).

Definition category_rows (note_id : string) (note_data : note_data_t)
    : list category_row :=
  map (mk_category_row note_id) (get_or (nd_categories note_data) []).

(** The guard of the Analysis insert: a payload with a non-empty summary or
    a non-empty plain text. *)
Definition has_analysis_text (a : analysis_t) : bool :=
  analysis_truthy a
  && (str_truthy (get_or (an_summary a) "")
      || str_truthy (substring 0 1000 (get_or (an_plain_text a) ""))).

Definition analysis_rows (note_id : string) (note_data : note_data_t)
    : list analysis_row :=
  let a := get_or (nd_analysis note_data) no_analysis in
  if has_analysis_text a
  then [mk_analysis_row note_id (get_or (an_summary a) "")
          (substring 0 1000 (get_or (an_plain_text a) ""))]
  else [].

Definition task_rows (note_id : string) (note_data : note_data_t)
    : list task_row :=
  let a := get_or (nd_analysis note_data) no_analysis in
  if analysis_truthy a
  then map (fun e => mk_task_row note_id (entry_text "text" e))
           (get_or (an_tasks a) [])
  else [].

Definition idea_rows (note_id : string) (note_data : note_data_t)
    : list idea_row :=
  let a := get_or (nd_analysis note_data) no_analysis in
  if analysis_truthy a
  then map (fun e => mk_idea_row note_id (entry_text "text" e))
           (get_or (an_ideas a) [])
  else [].

Definition project_rows (note_id : string) (note_data : note_data_t)
    : list project_row :=
  let a := get_or (nd_analysis note_data) no_analysis in
  if analysis_truthy a
  then map (fun e => mk_project_row note_id (entry_text "name" e))
           (get_or (an_projects a) [])
  else [].

(** The store after the children of a note are in. *)
Definition with_children (note_id : string) (note_data : note_data_t)
    (db : store) : store :=
  mk_store (foreign_keys db) (notes db)
    (add_unique link_conflict (link_rows note_id note_data) (extracted_links db))
    (add_unique image_conflict (image_rows note_id note_data)
       (extracted_images db))
    (add_unique analysis_conflict (analysis_rows note_id note_data)
       (analysis db))
    (extracted_tasks db ++ task_rows note_id note_data)
    (extracted_ideas db ++ idea_rows note_id note_data)
    (extracted_projects db ++ project_rows note_id note_data)
    (add_unique category_conflict (category_rows note_id note_data)
       (note_categories db)).

(** [stats] with each counter raised. *)
Definition add_counts (n l i c t d p : Z) (s : stats_t) : stats_t :=
  mk_stats (notes_imported s + n) (links_imported s + l)
    (images_imported s + i) (categories_imported s + c)
    (tasks_imported s + t) (ideas_imported s + d) (projects_imported s + p)
    (errors s).

(** [stats] with lines added to the error log. *)
Definition log_errors (msgs : list string) (s : stats_t) : stats_t :=
  mk_stats (notes_imported s) (links_imported s) (images_imported s)
    (categories_imported s) (tasks_imported s) (ideas_imported s)
    (projects_imported s) (errors s ++ msgs).

(** The statements of each kind that one record carries and that run
    without raising, and the lines of those that raise. *)
Definition counts_children (note_id : string) (note_data : note_data_t)
    (s : stats_t) : stats_t :=
  log_errors (image_errors note_id note_data)
    (add_counts 0 (len (link_rows note_id note_data))
       (len (image_rows note_id note_data))
       (len (category_rows note_id note_data))
       (len (task_rows note_id note_data))
       (len (idea_rows note_id note_data))
       (len (project_rows note_id note_data)) s).

(** ** Properties of the store *)

(** Referential integrity: every child row refers to a stored note. *)
Definition refers_ok {R : Type} (note_id_of : R -> string) (db : store)
    (rows : list R) : bool :=
  forallb (fun r => has_note (note_id_of r) db) rows.

Definition integrity (db : store) : bool :=
  refers_ok l_note_id db (extracted_links db)
  && refers_ok i_note_id db (extracted_images db)
  && refers_ok a_note_id db (analysis db)
  && refers_ok t_note_id db (extracted_tasks db)
  && refers_ok d_note_id db (extracted_ideas db)
  && refers_ok p_note_id db (extracted_projects db)
  && refers_ok c_note_id db (note_categories db).

(** The rows of a table that belong to a note. *)
Definition rows_of {R : Type} (note_id_of : R -> string) (note_id : string)
    (rows : list R) : list R :=
  filter (fun r => String.eqb (note_id_of r) note_id) rows.

(** A note without any child row. *)
Definition childless (note_id : string) (db : store) : Prop :=
  rows_of l_note_id note_id (extracted_links db) = []
  /\ rows_of i_note_id note_id (extracted_images db) = []
  /\ rows_of a_note_id note_id (analysis db) = []
  /\ rows_of t_note_id note_id (extracted_tasks db) = []
  /\ rows_of d_note_id note_id (extracted_ideas db) = []
  /\ rows_of p_note_id note_id (extracted_projects db) = []
  /\ rows_of c_note_id note_id (note_categories db) = [].

(** A stored note has this external id. *)
Definition has_coredata_id (coredata_id : string) (db : store) : bool :=
  existsb (fun x => same_non_null (n_coredata_id x) (Some coredata_id))
          (notes db).

(** The Note row of a record goes in: the record has a [note_id], its
    [original_index] fits a 64-bit integer and the insert meets no
    conflict. *)
Definition note_inserts (r : note_row) (db : store) : bool :=
  str_truthy (n_note_id r)
  && sqlite_int (n_original_index r)
  && negb (existsb (fun x => same_non_null (n_coredata_id x) (n_coredata_id r))
                   (notes db))
  && negb (has_note (n_note_id r) db).

(** The least and the greatest of a list of texts. *)
Definition least (vals : list string) (o : option string) : Prop :=
  match o with
  | Some v => In v vals /\ forall w, In w vals -> String.leb v w = true
  | None => vals = []
  end.

Definition greatest (vals : list string) (o : option string) : Prop :=
  match o with
  | Some v => In v vals /\ forall w, In w vals -> String.leb w v = true
  | None => vals = []
  end.

(** The non-NULL values of a column. *)
Fixpoint present (col : list (option string)) : list string :=
  match col with
  | [] => []
  | Some v :: col' => v :: present col'
  | None :: col' => present col'
  end.

(** * Proofs *)

(** ** Records are determined by their fields *)

Lemma store_eta (db : store) :
  mk_store (foreign_keys db) (notes db) (extracted_links db)
    (extracted_images db) (analysis db) (extracted_tasks db)
    (extracted_ideas db) (extracted_projects db) (note_categories db) = db.
Proof. destruct db; reflexivity. Qed.

Lemma self_eta (self : self_t) : mk_self (conn self) (stats self) = self.
Proof. destruct self; reflexivity. Qed.

Lemma stats_ext (s s' : stats_t) :
  notes_imported s = notes_imported s' ->
  links_imported s = links_imported s' ->
  images_imported s = images_imported s' ->
  categories_imported s = categories_imported s' ->
  tasks_imported s = tasks_imported s' ->
  ideas_imported s = ideas_imported s' ->
  projects_imported s = projects_imported s' ->
  errors s = errors s' ->
  s = s'.
Proof. destruct s, s'; simpl; intros; subst; reflexivity. Qed.

Ltac stats_eq :=
  apply stats_ext; cbn [notes_imported links_imported images_imported
    categories_imported tasks_imported ideas_imported projects_imported
    errors add_counts log_errors count_note count_link count_image
    count_category count_task count_idea count_project];
  unfold len; cbn [List.length];
  try reflexivity; try lia; try (now rewrite ?app_nil_r, <- ?app_assoc).

Lemma add_counts_0 (s : stats_t) : add_counts 0 0 0 0 0 0 0 s = s.
Proof. stats_eq. Qed.

Lemma add_counts_add (n l i c t d p n' l' i' c' t' d' p' : Z) (s : stats_t) :
  add_counts n' l' i' c' t' d' p' (add_counts n l i c t d p s)
  = add_counts (n + n') (l + l') (i + i') (c + c') (t + t') (d + d') (p + p') s.
Proof. stats_eq. Qed.

(** ** Ignore-on-duplicate on a table *)

Section AddUnique.

Context {R : Type} (conflict : R -> R -> bool).

Lemma add_unique_cons (r : R) (rows t : list R) :
  add_unique conflict (r :: rows) t = add_unique conflict rows (put conflict t r).
Proof. reflexivity. Qed.

Lemma add_unique_app (rows rows' t : list R) :
  add_unique conflict (rows ++ rows') t
  = add_unique conflict rows' (add_unique conflict rows t).
Proof. unfold add_unique. apply fold_left_app. Qed.

(** A table only grows, and by no more than the rows offered. *)
Lemma put_length (t : list R) (r : R) :
  (List.length t <= List.length (put conflict t r) <= S (List.length t))%nat.
Proof.
  unfold put. destruct (existsb (conflict r) t).
  - lia.
  - rewrite length_app. simpl. lia.
Qed.

Lemma add_unique_length (rows : list R) :
  forall t,
    (List.length t <= List.length (add_unique conflict rows t)
     <= List.length t + List.length rows)%nat.
Proof.
  induction rows as [|r rows IH]; intro t.
  - simpl. lia.
  - rewrite add_unique_cons. specialize (IH (put conflict t r)).
    pose proof (put_length t r). simpl. lia.
Qed.

(** Every row of the result was in the table or among the rows offered. *)
Lemma add_unique_from (rows : list R) :
  forall t x, In x (add_unique conflict rows t) -> In x t \/ In x rows.
Proof.
  induction rows as [|r rows IH]; intros t x H; auto.
  rewrite add_unique_cons in H. apply IH in H. destruct H as [H|H].
  - unfold put in H. destruct (existsb (conflict r) t); auto.
    apply in_app_or in H. destruct H as [H|[H|[]]]; auto.
    right. left. exact H.
  - right. now right.
Qed.

(** A property of rows that the table and the offered rows have. *)
Lemma add_unique_forallb (p : R -> bool) (rows : list R) :
  forall t, forallb p t = true -> forallb p rows = true ->
            forallb p (add_unique conflict rows t) = true.
Proof.
  intros t Ht Hr. rewrite forallb_forall in *. intros x Hx.
  apply add_unique_from in Hx. destruct Hx; auto.
Qed.

(** When the conflict is "same key", for a key with a decidable equality:
    the rows with a given key are those the table had, or, when it had
    none, the first offered row with that key. *)
Context {K : Type} (key : R -> K) (eqb : K -> K -> bool).
Hypothesis eqb_spec : forall a b, eqb a b = true <-> a = b.
Hypothesis conflict_key : forall r x, conflict r x = eqb (key x) (key r).

Definition first_with (k : K) (rows : list R) : list R :=
  match find (fun x => eqb (key x) k) rows with
  | Some r => [r]
  | None => []
  end.

Lemma eqb_same (a : K) : eqb a a = true.
Proof. now apply eqb_spec. Qed.

Lemma existsb_conflict (r : R) (t : list R) :
  existsb (conflict r) t = existsb (fun x => eqb (key x) (key r)) t.
Proof.
  induction t as [|x t IH]; simpl; auto.
  now rewrite conflict_key, IH.
Qed.

Lemma add_unique_key (k : K) (rows : list R) :
  forall t,
    filter (fun x => eqb (key x) k) (add_unique conflict rows t)
    = (filter (fun x => eqb (key x) k) t
       ++ (if existsb (fun x => eqb (key x) k) t then []
           else first_with k rows))%list.
Proof.
  induction rows as [|r rows IH]; intro t.
  - simpl. unfold first_with. simpl.
    destruct (existsb _ t); now rewrite app_nil_r.
  - rewrite add_unique_cons, IH. unfold put, first_with. simpl.
    rewrite existsb_conflict.
    destruct (eqb (key r) k) eqn:Hk.
    + apply eqb_spec in Hk. subst k.
      destruct (existsb (fun x => eqb (key x) (key r)) t) eqn:He.
      * now rewrite He.
      * rewrite filter_app, existsb_app. simpl.
        rewrite eqb_same. simpl. rewrite orb_true_r.
        now rewrite <- app_assoc.
    + destruct (existsb (fun x => eqb (key x) (key r)) t); auto.
      rewrite filter_app, existsb_app. simpl. rewrite Hk. simpl.
      now rewrite app_nil_r, orb_false_r.
Qed.

(** Keys that are unique in the table stay unique. *)
Lemma put_nodup (t : list R) (r : R) :
  NoDup (map key t) -> NoDup (map key (put conflict t r)).
Proof.
  intro H. unfold put. rewrite existsb_conflict.
  destruct (existsb _ t) eqn:He; auto.
  rewrite map_app. simpl.
  apply NoDup_app; auto.
  - constructor; [intros []|constructor].
  - intros a Ha Hr. destruct Hr as [Hr|[]]. subst a.
    apply in_map_iff in Ha. destruct Ha as [x [Hx Hin]].
    assert (existsb (fun x => eqb (key x) (key r)) t = true) as Hc.
    { apply existsb_exists. exists x. split; auto. now apply eqb_spec. }
    congruence.
Qed.

Lemma add_unique_nodup (rows : list R) :
  forall t, NoDup (map key t) -> NoDup (map key (add_unique conflict rows t)).
Proof.
  induction rows as [|r rows IH]; intros t H; auto.
  rewrite add_unique_cons. apply IH. now apply put_nodup.
Qed.

End AddUnique.

(** ** The statements on a store that has the parent note *)

Lemma parent_ok_has_note (note_id : string) (db : store) :
  has_note note_id db = true -> parent_ok note_id db = true.
Proof. intro H. unfold parent_ok. rewrite H. apply orb_true_r. Qed.

Lemma set_links_same (db : store) : set_links db (extracted_links db) = db.
Proof. apply store_eta. Qed.

Lemma set_images_same (db : store) : set_images db (extracted_images db) = db.
Proof. apply store_eta. Qed.

Lemma set_categories_same (db : store) :
  set_categories db (note_categories db) = db.
Proof. apply store_eta. Qed.

Lemma set_analysis_same (db : store) : set_analysis db (analysis db) = db.
Proof. apply store_eta. Qed.

Lemma set_tasks_same (db : store) : set_tasks db (extracted_tasks db) = db.
Proof. apply store_eta. Qed.

Lemma set_ideas_same (db : store) : set_ideas db (extracted_ideas db) = db.
Proof. apply store_eta. Qed.

Lemma set_projects_same (db : store) :
  set_projects db (extracted_projects db) = db.
Proof. apply store_eta. Qed.

Lemma insert_or_ignore_link_ok (r : link_row) (db : store) :
  has_note (l_note_id r) db = true ->
  insert_or_ignore_link r db
  = inr (set_links db (put link_conflict (extracted_links db) r)).
Proof.
  intro H. unfold insert_or_ignore_link, put.
  destruct (existsb (link_conflict r) (extracted_links db)).
  - now rewrite set_links_same.
  - now rewrite parent_ok_has_note.
Qed.

Lemma insert_or_ignore_image_ok (r : image_row) (db : store) :
  has_note (i_note_id r) db = true ->
  fits r = true ->
  insert_or_ignore_image r db
  = inr (set_images db (put image_conflict (extracted_images db) r)).
Proof.
  intros H Hf. unfold insert_or_ignore_image, put. unfold fits in Hf.
  rewrite Hf. cbn [negb].
  destruct (existsb (image_conflict r) (extracted_images db)).
  - now rewrite set_images_same.
  - now rewrite parent_ok_has_note.
Qed.

Lemma insert_or_ignore_category_ok (r : category_row) (db : store) :
  has_note (c_note_id r) db = true ->
  insert_or_ignore_category r db
  = inr (set_categories db (put category_conflict (note_categories db) r)).
Proof.
  intro H. unfold insert_or_ignore_category, put.
  destruct (existsb (category_conflict r) (note_categories db)).
  - now rewrite set_categories_same.
  - now rewrite parent_ok_has_note.
Qed.

Lemma insert_or_ignore_analysis_ok (r : analysis_row) (db : store) :
  has_note (a_note_id r) db = true ->
  insert_or_ignore_analysis r db
  = inr (set_analysis db (put analysis_conflict (analysis db) r)).
Proof.
  intro H. unfold insert_or_ignore_analysis, put.
  destruct (existsb (analysis_conflict r) (analysis db)).
  - now rewrite set_analysis_same.
  - now rewrite parent_ok_has_note.
Qed.

Lemma insert_task_ok (r : task_row) (db : store) :
  has_note (t_note_id r) db = true ->
  insert_task r db = inr (set_tasks db (extracted_tasks db ++ [r])).
Proof. intro H. unfold insert_task. now rewrite parent_ok_has_note. Qed.

Lemma insert_idea_ok (r : idea_row) (db : store) :
  has_note (d_note_id r) db = true ->
  insert_idea r db = inr (set_ideas db (extracted_ideas db ++ [r])).
Proof. intro H. unfold insert_idea. now rewrite parent_ok_has_note. Qed.

Lemma insert_project_ok (r : project_row) (db : store) :
  has_note (p_note_id r) db = true ->
  insert_project r db = inr (set_projects db (extracted_projects db ++ [r])).
Proof. intro H. unfold insert_project. now rewrite parent_ok_has_note. Qed.

(** ** The loops of [import_note] *)

(** One step of a loop, then the induction hypothesis on the rest. *)
Ltac loop_step ok IH :=
  rewrite ok by assumption; cbn [try_insert];
  rewrite IH by assumption; cbn [conn stats];
  f_equal; first [reflexivity | stats_eq].

Lemma import_link_loop (note_id : string) (links : list string) :
  forall self,
    has_note note_id (conn self) = true ->
    fold_left (import_link note_id) links self
    = mk_self
        (set_links (conn self)
           (add_unique link_conflict
              (map (fun link => mk_link_row note_id link None) links)
              (extracted_links (conn self))))
        (add_counts 0 (len links) 0 0 0 0 0 (stats self)).
Proof.
  induction links as [|link links IH]; intros self H.
  - cbn. now rewrite set_links_same, add_counts_0, self_eta.
  - cbn [fold_left map]. unfold import_link at 2.
    loop_step insert_or_ignore_link_ok IH.
Qed.

Lemma import_typed_link_loop (note_id link_type : string)
    (links : list string) :
  forall self,
    has_note note_id (conn self) = true ->
    fold_left (import_typed_link note_id link_type) links self
    = mk_self
        (set_links (conn self)
           (add_unique link_conflict
              (map (fun link => mk_link_row note_id link (Some link_type))
                   links)
              (extracted_links (conn self))))
        (add_counts 0 (len links) 0 0 0 0 0 (stats self)).
Proof.
  induction links as [|link links IH]; intros self H.
  - cbn. now rewrite set_links_same, add_counts_0, self_eta.
  - cbn [fold_left map]. unfold import_typed_link at 2.
    loop_step insert_or_ignore_link_ok IH.
Qed.

Lemma import_typed_links_loop (note_id : string)
    (items : list (string * list string)) :
  forall self,
    has_note note_id (conn self) = true ->
    fold_left (import_typed_links note_id) items self
    = mk_self
        (set_links (conn self)
           (add_unique link_conflict
              (flat_map (typed_link_rows note_id) items)
              (extracted_links (conn self))))
        (add_counts 0 (len (flat_map (typed_link_rows note_id) items))
           0 0 0 0 0 (stats self)).
Proof.
  induction items as [|item items IH]; intros self H.
  - cbn. now rewrite set_links_same, add_counts_0, self_eta.
  - cbn [fold_left flat_map]. unfold import_typed_links at 2.
    rewrite import_typed_link_loop by assumption.
    rewrite IH by assumption. cbn [conn stats].
    rewrite add_unique_app. f_equal.
    rewrite add_counts_add. unfold len, typed_link_rows.
    rewrite length_app, length_map. stats_eq.
Qed.

Lemma import_image_loop (note_id : string) (items : list (Z * image_entry)) :
  forall self,
    has_note note_id (conn self) = true ->
    let offered :=
      map (fun item => image_row_of note_id (fst item) (snd item)) items in
    fold_left (import_image note_id) items self
    = mk_self
        (set_images (conn self)
           (add_unique image_conflict (filter fits offered)
              (extracted_images (conn self))))
        (log_errors
           (map (image_error note_id)
                (filter (fun r => negb (fits r)) offered))
           (add_counts 0 0 (len (filter fits offered)) 0 0 0 0 (stats self))).
Proof.
  assert (forall idx image, i_note_id (image_row_of note_id idx image) = note_id)
    as Hid by (intros idx [f|f p fm sz]; reflexivity).
  induction items as [|item items IH]; intros self H.
  - cbn zeta. cbn [fold_left map filter]. rewrite set_images_same.
    rewrite <- (self_eta self) at 1. f_equal. stats_eq.
  - cbn zeta. cbn [fold_left map filter]. unfold import_image at 2.
    destruct (fits (image_row_of note_id (fst item) (snd item))) eqn:F.
    + rewrite insert_or_ignore_image_ok by (rewrite ?Hid; assumption).
      cbn [try_insert negb]. rewrite IH by assumption. cbn [conn stats].
      f_equal; first [reflexivity | stats_eq].
    + unfold insert_or_ignore_image. unfold fits in F. rewrite F.
      cbn [negb too_large try_insert report exn_str]. unfold add_error.
      rewrite IH by assumption. cbn [conn stats map negb].
      f_equal. stats_eq.
Qed.

Lemma import_category_loop (note_id : string) (categories : list string) :
  forall self,
    has_note note_id (conn self) = true ->
    fold_left (import_category note_id) categories self
    = mk_self
        (set_categories (conn self)
           (add_unique category_conflict
              (map (mk_category_row note_id) categories)
              (note_categories (conn self))))
        (add_counts 0 0 0 (len categories) 0 0 0 (stats self)).
Proof.
  induction categories as [|category categories IH]; intros self H.
  - cbn. now rewrite set_categories_same, add_counts_0, self_eta.
  - cbn [fold_left map]. unfold import_category at 2.
    loop_step insert_or_ignore_category_ok IH.
Qed.

(** The append-only tables. *)
Ltac append_step ok IH :=
  rewrite ok by assumption; cbn [try_insert];
  rewrite IH by assumption; cbn [conn stats];
  cbn [set_tasks set_ideas set_projects foreign_keys notes extracted_links
       extracted_images analysis extracted_tasks extracted_ideas
       extracted_projects note_categories];
  rewrite <- app_assoc; cbn [app];
  f_equal; first [reflexivity | stats_eq].

Lemma import_task_loop (note_id : string) (tasks : list text_entry) :
  forall self,
    has_note note_id (conn self) = true ->
    fold_left (import_task note_id) tasks self
    = mk_self
        (set_tasks (conn self)
           (extracted_tasks (conn self)
            ++ map (fun e => mk_task_row note_id (entry_text "text" e)) tasks))
        (add_counts 0 0 0 0 (len tasks) 0 0 (stats self)).
Proof.
  induction tasks as [|task tasks IH]; intros self H.
  - cbn. now rewrite app_nil_r, set_tasks_same, add_counts_0, self_eta.
  - cbn [fold_left map]. unfold import_task at 2.
    append_step insert_task_ok IH.
Qed.

Lemma import_idea_loop (note_id : string) (ideas : list text_entry) :
  forall self,
    has_note note_id (conn self) = true ->
    fold_left (import_idea note_id) ideas self
    = mk_self
        (set_ideas (conn self)
           (extracted_ideas (conn self)
            ++ map (fun e => mk_idea_row note_id (entry_text "text" e)) ideas))
        (add_counts 0 0 0 0 0 (len ideas) 0 (stats self)).
Proof.
  induction ideas as [|idea ideas IH]; intros self H.
  - cbn. now rewrite app_nil_r, set_ideas_same, add_counts_0, self_eta.
  - cbn [fold_left map]. unfold import_idea at 2.
    append_step insert_idea_ok IH.
Qed.

Lemma import_project_loop (note_id : string) (projects : list text_entry) :
  forall self,
    has_note note_id (conn self) = true ->
    fold_left (import_project note_id) projects self
    = mk_self
        (set_projects (conn self)
           (extracted_projects (conn self)
            ++ map (fun e => mk_project_row note_id (entry_text "name" e))
                   projects))
        (add_counts 0 0 0 0 0 0 (len projects) (stats self)).
Proof.
  induction projects as [|project projects IH]; intros self H.
  - cbn. now rewrite app_nil_r, set_projects_same, add_counts_0, self_eta.
  - cbn [fold_left map]. unfold import_project at 2.
    append_step insert_project_ok IH.
Qed.

(** The [if analysis:] block, in closed form. *)
Lemma import_analysis_eq (note_id : string) (note_data : note_data_t)
    (self : self_t) :
  has_note note_id (conn self) = true ->
  let a := get_or (nd_analysis note_data) no_analysis in
  import_analysis note_id a self
  = mk_self
      (mk_store (foreign_keys (conn self)) (notes (conn self))
         (extracted_links (conn self)) (extracted_images (conn self))
         (add_unique analysis_conflict (analysis_rows note_id note_data)
            (analysis (conn self)))
         (extracted_tasks (conn self) ++ task_rows note_id note_data)
         (extracted_ideas (conn self) ++ idea_rows note_id note_data)
         (extracted_projects (conn self) ++ project_rows note_id note_data)
         (note_categories (conn self)))
      (add_counts 0 0 0 0 (len (task_rows note_id note_data))
         (len (idea_rows note_id note_data))
         (len (project_rows note_id note_data)) (stats self)).
Proof.
  intros H a.
  unfold import_analysis, analysis_rows, task_rows, idea_rows, project_rows,
    has_analysis_text.
  fold a. destruct (analysis_truthy a) eqn:Ht; cbn [andb].
  - destruct (str_truthy (get_or (an_summary a) "")
              || str_truthy (substring 0 1000 (get_or (an_plain_text a) "")))
      eqn:Hs.
    + rewrite insert_or_ignore_analysis_ok by assumption. cbn [try_insert].
      rewrite import_task_loop by assumption.
      rewrite import_idea_loop by assumption.
      rewrite import_project_loop by assumption.
      cbn. f_equal. unfold len. rewrite !length_map. stats_eq.
    + rewrite import_task_loop by assumption.
      rewrite import_idea_loop by assumption.
      rewrite import_project_loop by assumption.
      cbn. f_equal. unfold len. rewrite !length_map. stats_eq.
  - cbn. rewrite !app_nil_r, store_eta, add_counts_0. now rewrite self_eta.
Qed.

(** [import_note], after the Note row: the code computes [with_children]
    and counts one per statement. *)
Lemma import_children_eq (note_id : string) (note_data : note_data_t)
    (self : self_t) :
  has_note note_id (conn self) = true ->
  import_children note_id note_data self
  = mk_self (with_children note_id note_data (conn self))
            (counts_children note_id note_data (stats self)).
Proof.
  intro H. unfold import_children.
  rewrite import_link_loop by assumption.
  rewrite import_typed_links_loop by assumption.
  rewrite import_image_loop by assumption. cbv zeta.
  rewrite import_category_loop by assumption.
  rewrite import_analysis_eq by assumption.
  unfold with_children, counts_children, link_rows, image_rows, image_errors,
    image_statements, category_rows.
  cbn [conn stats set_links set_images set_categories foreign_keys notes
       extracted_links extracted_images analysis extracted_tasks
       extracted_ideas extracted_projects note_categories].
  rewrite add_unique_app. f_equal.
  unfold len. rewrite !length_app, !length_map. stats_eq.
Qed.

(** ** [import_note], case by case *)

(** The store and the counters after a record whose Note row goes in. *)
Definition imported (note_id : string) (note_data : note_data_t)
    (self : self_t) : self_t :=
  mk_self
    (with_children note_id note_data
       (set_notes (conn self)
          (notes (conn self) ++ [note_row_of note_id note_data])))
    (counts_children note_id note_data (count_note (stats self))).

Lemma has_note_app (note_id : string) (db : store) (r : note_row) :
  has_note note_id (set_notes db (notes db ++ [r]))
  = has_note note_id db || String.eqb (n_note_id r) note_id.
Proof.
  unfold has_note. cbn [set_notes notes]. rewrite existsb_app. simpl.
  now rewrite orb_false_r.
Qed.

Lemma insert_note_inserts (r : note_row) (db : store) :
  note_inserts r db = true ->
  insert_note r db = inr (set_notes db (notes db ++ [r])).
Proof.
  unfold note_inserts, insert_note. intro H.
  apply andb_prop in H. destruct H as [H Hn].
  apply andb_prop in H. destruct H as [H Hc].
  apply andb_prop in H. destruct H as [_ Hi].
  apply negb_true_iff in Hn, Hc. now rewrite Hi, Hc, Hn.
Qed.

Lemma insert_note_rejects (r : note_row) (db : store) :
  str_truthy (n_note_id r) = true ->
  note_inserts r db = false ->
  exists e, insert_note r db = inl e.
Proof.
  unfold note_inserts, insert_note, too_large. intros Ht H. rewrite Ht in H.
  destruct (sqlite_int (n_original_index r)); [|cbn; eauto]. cbn [negb].
  destruct (existsb _ (notes db)); [eauto|].
  destruct (has_note (n_note_id r) db); [eauto|discriminate].
Qed.

Lemma import_note_missing (note_data : note_data_t) (self : self_t) :
  str_truthy (get_or (nd_note_id note_data) "") = false ->
  import_note note_data self = add_error "Missing note_id in note data" self.
Proof. intro H. unfold import_note. now rewrite H. Qed.

Lemma import_note_inserted (note_data : note_data_t) (self : self_t) :
  let note_id := get_or (nd_note_id note_data) "" in
  note_inserts (note_row_of note_id note_data) (conn self) = true ->
  import_note note_data self = imported note_id note_data self.
Proof.
  intros note_id H. unfold import_note. fold note_id.
  assert (str_truthy note_id = true) as Ht.
  { unfold note_inserts in H. apply andb_prop in H. destruct H as [H _].
    apply andb_prop in H. destruct H as [H _].
    apply andb_prop in H. now destruct H. }
  rewrite Ht. cbn [negb].
  rewrite insert_note_inserts by assumption.
  rewrite import_children_eq.
  - reflexivity.
  - cbn [conn]. rewrite has_note_app. cbn [note_row_of n_note_id].
    rewrite String.eqb_refl. apply orb_true_r.
Qed.

Lemma import_note_rejected (note_data : note_data_t) (self : self_t) :
  let note_id := get_or (nd_note_id note_data) "" in
  str_truthy note_id = true ->
  note_inserts (note_row_of note_id note_data) (conn self) = false ->
  exists detail,
    import_note note_data self
    = add_error ("Failed to import note " ++ note_id ++ ": " ++ detail) self.
Proof.
  intros note_id Ht H. unfold import_note. fold note_id.
  rewrite Ht. cbn [negb].
  destruct (insert_note_rejects (note_row_of note_id note_data) (conn self))
    as [e Hd]; auto.
  rewrite Hd. exists (exn_str e). reflexivity.
Qed.

Lemma imported_notes (note_id : string) (note_data : note_data_t)
    (self : self_t) :
  notes (conn (imported note_id note_data self))
  = (notes (conn self) ++ [note_row_of note_id note_data])%list.
Proof. reflexivity. Qed.

(** ** Keys of the ignore-on-duplicate tables *)

Definition pair_eqb (a b : string * string) : bool :=
  String.eqb (fst a) (fst b) && String.eqb (snd a) (snd b).

Lemma pair_eqb_spec (a b : string * string) : pair_eqb a b = true <-> a = b.
Proof.
  destruct a as [a1 a2], b as [b1 b2]. unfold pair_eqb. cbn [fst snd].
  rewrite andb_true_iff, !String.eqb_eq. split.
  - intros [-> ->]. reflexivity.
  - intro H. injection H. auto.
Qed.

Definition link_key (r : link_row) : string * string := (l_note_id r, l_url r).
Definition image_key (r : image_row) : string * string :=
  (i_note_id r, i_filename r).

(** The rows of a table with a given key. *)
Definition links_for (note_id url : string) (rows : list link_row)
    : list link_row :=
  filter (fun r => pair_eqb (link_key r) (note_id, url)) rows.

Definition images_for (note_id filename : string) (rows : list image_row)
    : list image_row :=
  filter (fun r => pair_eqb (image_key r) (note_id, filename)) rows.

(** The file name an entry of [extracted_data.images] is stored under. *)
Definition image_filename (image : image_entry) : string :=
  match image with
  | ImageName filename => filename
  | ImageObject filename _ _ _ => get_or filename ""
  end.

Lemma refers_ok_rows_of {R : Type} (note_id_of : R -> string)
    (note_id : string) (db : store) (rows : list R) :
  refers_ok note_id_of db rows = true ->
  has_note note_id db = false ->
  rows_of note_id_of note_id rows = [].
Proof.
  intros H Hn. induction rows as [|r rows IH]; auto.
  cbn in H. apply andb_prop in H. destruct H as [Hr H].
  cbn. destruct (String.eqb (note_id_of r) note_id) eqn:E; auto.
  apply String.eqb_eq in E. congruence.
Qed.

(** In a store with referential integrity, a note that is not stored has
    no child row. *)
Lemma integrity_childless (note_id : string) (db : store) :
  integrity db = true -> has_note note_id db = false -> childless note_id db.
Proof.
  unfold integrity, childless. intros H Hn.
  repeat (apply andb_prop in H; destruct H as [H ?]).
  repeat split; eapply refers_ok_rows_of; eauto.
Qed.

Lemma note_inserts_absent (r : note_row) (db : store) :
  note_inserts r db = true -> has_note (n_note_id r) db = false.
Proof.
  unfold note_inserts. intro H. apply andb_prop in H. destruct H as [_ H].
  now apply negb_true_iff in H.
Qed.

Lemma filter_nil_existsb {A : Type} (p : A -> bool) (l : list A) :
  filter p l = [] -> existsb p l = false.
Proof.
  induction l as [|x l IH]; auto. cbn. destruct (p x); [discriminate|auto].
Qed.

Lemma find_app {A : Type} (p : A -> bool) (l l' : list A) :
  find p (l ++ l') = match find p l with Some x => Some x | None => find p l' end.
Proof.
  induction l as [|x l IH]; auto. cbn. destruct (p x); auto.
Qed.

Lemma links_for_other (note_id url : string) (rows : list link_row) :
  rows_of l_note_id note_id rows = [] -> links_for note_id url rows = [].
Proof.
  unfold rows_of, links_for, pair_eqb, link_key. cbn [fst snd].
  induction rows as [|r rows IH]; auto. cbn.
  destruct (String.eqb (l_note_id r) note_id); [discriminate|auto].
Qed.

Lemma images_for_other (note_id filename : string) (rows : list image_row) :
  rows_of i_note_id note_id rows = [] -> images_for note_id filename rows = [].
Proof.
  unfold rows_of, images_for, pair_eqb, image_key. cbn [fst snd].
  induction rows as [|r rows IH]; auto. cbn.
  destruct (String.eqb (i_note_id r) note_id); [discriminate|auto].
Qed.

(** The first flat link with a given URL is found before any typed one. *)
Lemma find_flat_link (note_id url : string) (links : list string) :
  In url links ->
  find (fun r => pair_eqb (link_key r) (note_id, url))
       (map (fun link => mk_link_row note_id link None) links)
  = Some (mk_link_row note_id url None).
Proof.
  induction links as [|link links IH]; intros H; [destruct H|].
  cbn. unfold pair_eqb, link_key. cbn [fst snd l_note_id l_url].
  rewrite String.eqb_refl. cbn [andb].
  destruct (String.eqb link url) eqn:E.
  - apply String.eqb_eq in E. now subst.
  - destruct H as [H|H]; [subst; now rewrite String.eqb_refl in E|].
    now apply IH.
Qed.

Lemma image_row_of_key (note_id : string) (idx : Z) (image : image_entry) :
  image_key (image_row_of note_id idx image) = (note_id, image_filename image).
Proof. destruct image; reflexivity. Qed.

(** The first entry with a given file name gives the row that is found. *)
Lemma find_image_row (note_id filename : string) (images : list image_entry) :
  forall (start : Z) (k : nat) (image : image_entry),
    nth_error images k = Some image ->
    image_filename image = filename ->
    (forall j other, (j < k)%nat -> nth_error images j = Some other ->
                     image_filename other <> filename) ->
    find (fun r => pair_eqb (image_key r) (note_id, filename))
         (map (fun item => image_row_of note_id (fst item) (snd item))
              (enumerate start images))
    = Some (image_row_of note_id (start + Z.of_nat k) image).
Proof.
  induction images as [|first images IH]; intros start k image Hk Hf Hbefore.
  - destruct k; discriminate.
  - cbn [enumerate map find fst snd]. rewrite image_row_of_key.
    destruct k as [|k].
    + cbn in Hk. injection Hk as ->.
      replace (pair_eqb _ _) with true
        by (symmetry; apply pair_eqb_spec; now rewrite Hf).
      now rewrite Z.add_0_r.
    + replace (pair_eqb _ _) with false.
      * rewrite (IH (start + 1) k image Hk Hf).
        -- do 2 f_equal. lia.
        -- intros j other Hj Hn. apply (Hbefore (S j) other); [lia|exact Hn].
      * symmetry. apply not_true_is_false. intro E.
        apply pair_eqb_spec in E. injection E as E.
        apply (Hbefore 0%nat first); [lia|reflexivity|exact E].
Qed.

(** The first row of a kind, when it is one that a filter keeps. *)
Lemma find_kept {A : Type} (p keep : A -> bool) (l : list A) (x : A) :
  find p l = Some x -> keep x = true -> find p (filter keep l) = Some x.
Proof.
  induction l as [|a l IH]; [discriminate|]. cbn [find filter]. intros H Hk.
  destruct (p a) eqn:Hp.
  - injection H as ->. rewrite Hk. cbn [find]. now rewrite Hp.
  - destruct (keep a); [cbn [find]; rewrite Hp|]; now apply IH.
Qed.

Lemma rows_of_In {R : Type} (note_id_of : R -> string) (note_id : string)
    (rows : list R) (r : R) :
  In r (rows_of note_id_of note_id rows) <-> In r rows /\ note_id_of r = note_id.
Proof. unfold rows_of. now rewrite filter_In, String.eqb_eq. Qed.

(** ** Counting the statements of a run *)

(** The Note row of a record goes in. *)
Definition goes_in (note_data : note_data_t) (self : self_t) : bool :=
  note_inserts (note_row_of (get_or (nd_note_id note_data) "") note_data)
               (conn self).

(** The insert statements of one kind that [import_note] runs for a record:
    one per row the record carries, when its Note row goes in. *)
Definition attempted {R : Type} (rows : string -> note_data_t -> list R)
    (note_data : note_data_t) (self : self_t) : Z :=
  if goes_in note_data self
  then len (rows (get_or (nd_note_id note_data) "") note_data)
  else 0.

(** The same over a run. *)
Fixpoint statements {R : Type} (rows : string -> note_data_t -> list R)
    (records : list note_data_t) (self : self_t) : Z :=
  match records with
  | [] => 0
  | note_data :: rest =>
      attempted rows note_data self
      + statements rows rest (import_note note_data self)
  end.

Lemma import_note_cases (note_data : note_data_t) (self : self_t) :
  (goes_in note_data self = true
   /\ import_note note_data self
      = imported (get_or (nd_note_id note_data) "") note_data self)
  \/ (goes_in note_data self = false
      /\ exists msg, import_note note_data self = add_error msg self).
Proof.
  destruct (goes_in note_data self) eqn:G.
  - left. split; [reflexivity|]. now apply import_note_inserted.
  - right. split; [reflexivity|].
    destruct (str_truthy (get_or (nd_note_id note_data) "")) eqn:T.
    + destruct (import_note_rejected note_data self T G) as [detail E].
      eauto.
    + rewrite import_note_missing by assumption. eauto.
Qed.

(** What one record adds to the counters and to the tables. *)
Lemma import_note_counts (note_data : note_data_t) (self : self_t) :
  let self' := import_note note_data self in
  let s := stats self in
  let s' := stats self' in
  let db := conn self in
  let db' := conn self' in
  links_imported s' = links_imported s + attempted link_rows note_data self
  /\ images_imported s' = images_imported s + attempted image_rows note_data self
  /\ categories_imported s'
     = categories_imported s + attempted category_rows note_data self
  /\ tasks_imported s' = tasks_imported s + attempted task_rows note_data self
  /\ ideas_imported s' = ideas_imported s + attempted idea_rows note_data self
  /\ projects_imported s'
     = projects_imported s + attempted project_rows note_data self
  /\ len (extracted_tasks db')
     = len (extracted_tasks db) + attempted task_rows note_data self
  /\ len (extracted_ideas db')
     = len (extracted_ideas db) + attempted idea_rows note_data self
  /\ len (extracted_projects db')
     = len (extracted_projects db) + attempted project_rows note_data self
  /\ len (extracted_links db) <= len (extracted_links db')
     <= len (extracted_links db) + attempted link_rows note_data self
  /\ len (extracted_images db) <= len (extracted_images db')
     <= len (extracted_images db) + attempted image_rows note_data self
  /\ len (note_categories db) <= len (note_categories db')
     <= len (note_categories db) + attempted category_rows note_data self.
Proof.
  intros self' s s' db db'. subst self' s s' db db'. unfold attempted.
  destruct (import_note_cases note_data self) as [[G E]|[G [msg E]]];
    rewrite E, G.
  - unfold imported, with_children, counts_children.
    cbn [conn stats add_counts count_note links_imported images_imported
         categories_imported tasks_imported ideas_imported projects_imported
         extracted_links extracted_images extracted_tasks extracted_ideas
         extracted_projects note_categories set_notes].
    pose proof (add_unique_length link_conflict
                  (link_rows (get_or (nd_note_id note_data) "") note_data)
                  (extracted_links (conn self))).
    pose proof (add_unique_length image_conflict
                  (image_rows (get_or (nd_note_id note_data) "") note_data)
                  (extracted_images (conn self))).
    pose proof (add_unique_length category_conflict
                  (category_rows (get_or (nd_note_id note_data) "") note_data)
                  (note_categories (conn self))).
    unfold len. rewrite !length_app. repeat split; lia.
  - cbn [conn stats add_error links_imported images_imported
         categories_imported tasks_imported ideas_imported projects_imported].
    repeat split; lia.
Qed.

(** ** A second pass *)

Lemma existsb_incl {A : Type} (p : A -> bool) (l l' : list A) :
  incl l l' -> existsb p l = true -> existsb p l' = true.
Proof.
  intros Hi H. apply existsb_exists in H. destruct H as [x [Hx Hp]].
  apply existsb_exists. exists x. split; auto.
Qed.

(** A Note row that does not go in does not go in later either: the rows
    in its way stay. *)
Lemma note_inserts_blocked (r : note_row) (db db' : store) :
  incl (notes db) (notes db') ->
  note_inserts r db = false -> note_inserts r db' = false.
Proof.
  unfold note_inserts, has_note. intros Hi H.
  destruct (str_truthy (n_note_id r)); [|reflexivity]. cbn [andb] in *.
  destruct (sqlite_int (n_original_index r)); [|reflexivity]. cbn [andb] in *.
  destruct (existsb _ (notes db)) eqn:E1.
  - now rewrite (existsb_incl _ _ _ Hi E1).
  - cbn [negb andb] in H. apply negb_false_iff in H.
    rewrite (existsb_incl _ _ _ Hi H). apply andb_false_r.
Qed.

Lemma import_note_notes (note_data : note_data_t) (self : self_t) :
  incl (notes (conn self)) (notes (conn (import_note note_data self))).
Proof.
  destruct (import_note_cases note_data self) as [[_ E]|[_ [msg E]]];
    rewrite E.
  - rewrite imported_notes. apply incl_appl, incl_refl.
  - apply incl_refl.
Qed.

Lemma import_all_notes (records : list note_data_t) :
  forall self,
    incl (notes (conn self)) (notes (conn (import_all records self))).
Proof.
  induction records as [|note_data rest IH]; intro self.
  - apply incl_refl.
  - cbn [import_all fold_left].
    eapply incl_tran; [apply import_note_notes|apply IH].
Qed.

Lemma goes_in_after (note_data : note_data_t) (self : self_t) :
  goes_in note_data (import_note note_data self) = false.
Proof.
  destruct (import_note_cases note_data self) as [[_ E]|[G [msg E]]];
    rewrite E.
  - unfold goes_in, note_inserts, has_note. rewrite imported_notes.
    rewrite existsb_app. cbn [existsb note_row_of n_coredata_id same_non_null].
    rewrite String.eqb_refl. cbn [orb]. rewrite orb_true_r. cbn [negb].
    now rewrite andb_false_r.
  - exact G.
Qed.

Lemma import_note_blocked (note_data : note_data_t) (self : self_t) :
  goes_in note_data self = false ->
  conn (import_note note_data self) = conn self.
Proof.
  intro G.
  destruct (import_note_cases note_data self) as [[G' _]|[_ [msg E]]].
  - congruence.
  - now rewrite E.
Qed.

Lemma import_all_blocked (records : list note_data_t) :
  forall self,
    Forall (fun note_data =>
              note_inserts
                (note_row_of (get_or (nd_note_id note_data) "") note_data)
                (conn self) = false) records ->
    conn (import_all records self) = conn self.
Proof.
  induction records as [|note_data rest IH]; intros self H.
  - reflexivity.
  - inversion H as [|x l Hx Hl]; subst. cbn [import_all fold_left].
    pose proof (import_note_blocked note_data self Hx) as E.
    unfold import_all in IH. rewrite IH; [exact E|]. now rewrite E.
Qed.

(** After a pass, every one of its records is blocked. *)
Lemma import_all_blocks (records : list note_data_t) :
  forall self,
    Forall (fun note_data => goes_in note_data (import_all records self) = false)
           records.
Proof.
  induction records as [|note_data rest IH]; intro self; constructor.
  - cbn [import_all fold_left].
    eapply note_inserts_blocked;
      [apply (import_all_notes rest)|apply goes_in_after].
  - apply IH.
Qed.

Lemma second_pass (records : list note_data_t) (self again : self_t) :
  incl (notes (conn (import_all records self))) (notes (conn again)) ->
  conn (import_all records again) = conn again.
Proof.
  intro Hi. apply import_all_blocked.
  eapply Forall_impl; [|apply (import_all_blocks records self)].
  intros note_data H. eapply note_inserts_blocked; [exact Hi|exact H].
Qed.

(** ** The order of texts, and the aggregates *)

Lemma leb_iff (a b : string) :
  String.leb a b = true <-> a = b \/ String_as_OT.lt a b.
Proof.
  unfold String.leb.
  pose proof (String_as_OT.cmp_eq a b) as He.
  pose proof (String_as_OT.cmp_lt a b) as Hl.
  pose proof (String_as_OT.cmp_antisym a b) as Ha.
  pose proof (String_as_OT.cmp_lt b a) as Hg.
  unfold String_as_OT.cmp in *.
  destruct (String.compare a b); split; intro H; auto.
  - left. now apply He.
  - right. now apply Hl.
  - discriminate.
  - exfalso. destruct H as [H|H].
    + apply He in H. discriminate.
    + apply Hl in H. discriminate.
Qed.

Lemma leb_refl (a : string) : String.leb a a = true.
Proof. apply leb_iff. now left. Qed.

Lemma leb_trans (a b c : string) :
  String.leb a b = true -> String.leb b c = true -> String.leb a c = true.
Proof.
  rewrite !leb_iff. intros [->|H1] [->|H2]; auto.
  right. eapply String_as_OT.lt_trans; eauto.
Qed.

Lemma aggregate_none (pick : string -> string -> string)
    (col : list (option string)) :
  aggregate pick col = None -> present col = [].
Proof.
  induction col as [|[v|] col IH]; cbn; auto.
  destruct (aggregate pick col); discriminate.
Qed.

Lemma sql_min_least (col : list (option string)) :
  least (present col) (sql_min col).
Proof.
  unfold sql_min. induction col as [|[v|] col IH]; cbn; auto.
  destruct (aggregate min_text col) as [w|] eqn:E.
  - cbn in IH. destruct IH as [Hin Hle]. unfold min_text.
    destruct (String.leb v w) eqn:L; cbn.
    + split; [now left|]. intros x [<-|Hx]; [apply leb_refl|].
      eapply leb_trans; eauto.
    + split; [now right|]. intros x [<-|Hx]; auto.
      destruct (String.leb_total v w) as [T|T]; congruence.
  - rewrite (aggregate_none _ _ E). cbn. split; [now left|].
    intros x [<-|[]]. apply leb_refl.
Qed.

Lemma sql_max_greatest (col : list (option string)) :
  greatest (present col) (sql_max col).
Proof.
  unfold sql_max. induction col as [|[v|] col IH]; cbn; auto.
  destruct (aggregate max_text col) as [w|] eqn:E.
  - cbn in IH. destruct IH as [Hin Hle]. unfold max_text.
    destruct (String.leb v w) eqn:L; cbn.
    + split; [now right|]. intros x [<-|Hx]; auto.
    + split; [now left|]. intros x [<-|Hx]; [apply leb_refl|].
      destruct (String.leb_total v w) as [T|T]; [congruence|].
      eapply leb_trans; eauto.
  - rewrite (aggregate_none _ _ E). cbn. split; [now left|].
    intros x [<-|[]]. apply leb_refl.
Qed.

(** The filter of the query drops no created timestamp. *)
Lemma present_created (rows : list note_row) :
  present (map n_created_datetime
             (filter (fun r => is_some (n_created_datetime r)) rows))
  = present (map n_created_datetime rows).
Proof.
  induction rows as [|r rows IH]; auto. cbn.
  destruct (n_created_datetime r) eqn:E; cbn; rewrite ?E; now rewrite IH.
Qed.

(** ** Referential integrity *)

(** The stores a connection can be in: a new database, connected, and then
    any sequence of imports, of deletions of notes, and of runs that open the
    database again. *)
Inductive reachable : store -> Prop :=
| reach_connect : reachable (conn (connect empty_store))
| reach_reopen (db : store) : reachable db -> reachable (conn (connect db))
| reach_import (note_data : note_data_t) (self : self_t) :
    reachable (conn self) -> reachable (conn (import_note note_data self))
| reach_delete (note_id : string) (db db' : store) :
    reachable db -> delete_note note_id db = inr db' -> reachable db'.

Lemma refers_ok_grow {R : Type} (note_id_of : R -> string) (db db' : store)
    (rows : list R) :
  incl (notes db) (notes db') ->
  refers_ok note_id_of db rows = true -> refers_ok note_id_of db' rows = true.
Proof.
  unfold refers_ok, has_note. intros Hi H. rewrite forallb_forall in *.
  intros r Hr. eapply existsb_incl; eauto.
Qed.

Lemma refers_ok_own {R : Type} (note_id_of : R -> string) (db : store)
    (note_id : string) (rows : list R) :
  has_note note_id db = true ->
  (forall r, In r rows -> note_id_of r = note_id) ->
  refers_ok note_id_of db rows = true.
Proof.
  intros Hn H. unfold refers_ok. apply forallb_forall. intros r Hr.
  now rewrite (H r Hr).
Qed.

Lemma link_rows_own (note_id : string) (note_data : note_data_t) (r : link_row) :
  In r (link_rows note_id note_data) -> l_note_id r = note_id.
Proof.
  unfold link_rows. intro H. apply in_app_or in H. destruct H as [H|H].
  - apply in_map_iff in H. destruct H as [x [<- _]]. reflexivity.
  - apply in_flat_map in H. destruct H as [item [_ H]].
    apply in_map_iff in H. destruct H as [x [<- _]]. reflexivity.
Qed.

Lemma image_rows_own (note_id : string) (note_data : note_data_t)
    (r : image_row) :
  In r (image_rows note_id note_data) -> i_note_id r = note_id.
Proof.
  unfold image_rows, image_statements. intro H.
  apply filter_In in H. destruct H as [H _]. apply in_map_iff in H.
  destruct H as [[idx image] [<- _]]. now destruct image.
Qed.

Lemma category_rows_own (note_id : string) (note_data : note_data_t)
    (r : category_row) :
  In r (category_rows note_id note_data) -> c_note_id r = note_id.
Proof.
  unfold category_rows. intro H. apply in_map_iff in H.
  destruct H as [x [<- _]]. reflexivity.
Qed.

Lemma analysis_rows_own (note_id : string) (note_data : note_data_t)
    (r : analysis_row) :
  In r (analysis_rows note_id note_data) -> a_note_id r = note_id.
Proof.
  unfold analysis_rows. destruct (has_analysis_text _); intro H.
  - destruct H as [<-|[]]. reflexivity.
  - destruct H.
Qed.

Lemma task_rows_own (note_id : string) (note_data : note_data_t) (r : task_row) :
  In r (task_rows note_id note_data) -> t_note_id r = note_id.
Proof.
  unfold task_rows. destruct (analysis_truthy _); intro H; [|destruct H].
  apply in_map_iff in H. destruct H as [x [<- _]]. reflexivity.
Qed.

Lemma idea_rows_own (note_id : string) (note_data : note_data_t) (r : idea_row) :
  In r (idea_rows note_id note_data) -> d_note_id r = note_id.
Proof.
  unfold idea_rows. destruct (analysis_truthy _); intro H; [|destruct H].
  apply in_map_iff in H. destruct H as [x [<- _]]. reflexivity.
Qed.

Lemma project_rows_own (note_id : string) (note_data : note_data_t)
    (r : project_row) :
  In r (project_rows note_id note_data) -> p_note_id r = note_id.
Proof.
  unfold project_rows. destruct (analysis_truthy _); intro H; [|destruct H].
  apply in_map_iff in H. destruct H as [x [<- _]]. reflexivity.
Qed.

Lemma refers_ok_add {R : Type} (conflict : R -> R -> bool)
    (note_id_of : R -> string) (db : store) (rows t : list R) :
  refers_ok note_id_of db t = true ->
  refers_ok note_id_of db rows = true ->
  refers_ok note_id_of db (add_unique conflict rows t) = true.
Proof. apply add_unique_forallb. Qed.

Lemma refers_ok_app {R : Type} (note_id_of : R -> string) (db : store)
    (rows t : list R) :
  refers_ok note_id_of db t = true ->
  refers_ok note_id_of db rows = true ->
  refers_ok note_id_of db (t ++ rows) = true.
Proof. unfold refers_ok. intros H1 H2. now rewrite forallb_app, H1, H2. Qed.

Lemma imported_integrity (note_id : string) (note_data : note_data_t)
    (self : self_t) :
  integrity (conn self) = true ->
  integrity (conn (imported note_id note_data self)) = true.
Proof.
  unfold integrity. intro H.
  repeat (apply andb_prop in H; destruct H as [H ?]).
  set (db' := conn (imported note_id note_data self)).
  assert (incl (notes (conn self)) (notes db')) as Hi
    by (unfold db'; rewrite imported_notes; apply incl_appl, incl_refl).
  assert (has_note note_id db' = true) as Hn.
  { unfold has_note, db'. rewrite imported_notes, existsb_app.
    cbn [existsb note_row_of n_note_id]. rewrite String.eqb_refl.
    cbn [orb]. apply orb_true_r. }
  unfold db' at 2 4 6 8 10 12 14, imported, with_children.
  cbn [conn extracted_links extracted_images analysis extracted_tasks
       extracted_ideas extracted_projects note_categories set_notes].
  repeat (apply andb_true_intro; split);
    first [apply refers_ok_add | apply refers_ok_app];
    try (eapply refers_ok_grow; [exact Hi|assumption]);
    apply (refers_ok_own _ db' note_id); try exact Hn.
  - apply link_rows_own.
  - apply image_rows_own.
  - apply analysis_rows_own.
  - apply task_rows_own.
  - apply idea_rows_own.
  - apply project_rows_own.
  - apply category_rows_own.
Qed.

Lemma import_note_integrity (note_data : note_data_t) (self : self_t) :
  integrity (conn self) = true ->
  integrity (conn (import_note note_data self)) = true.
Proof.
  intro H.
  destruct (import_note_cases note_data self) as [[_ E]|[_ [msg E]]];
    rewrite E.
  - now apply imported_integrity.
  - exact H.
Qed.

Lemma import_note_foreign_keys (note_data : note_data_t) (self : self_t) :
  foreign_keys (conn (import_note note_data self)) = foreign_keys (conn self).
Proof.
  destruct (import_note_cases note_data self) as [[_ E]|[_ [msg E]]];
    now rewrite E.
Qed.

(** What [DELETE] leaves of a table. *)
Definition without {R : Type} (note_id_of : R -> string) (note_id : string)
    (rows : list R) : list R :=
  filter (fun r => negb (String.eqb (note_id_of r) note_id)) rows.

Lemma rows_of_without {R : Type} (note_id_of : R -> string)
    (note_id : string) (rows : list R) :
  rows_of note_id_of note_id (without note_id_of note_id rows) = [].
Proof.
  unfold rows_of, without. induction rows as [|r rows IH]; auto. cbn.
  destruct (String.eqb (note_id_of r) note_id) eqn:E; cbn; auto.
  now rewrite E.
Qed.

(** With the pragma on, the deletion goes through and cascades. *)
Lemma delete_note_cascades (note_id : string) (db : store) :
  foreign_keys db = true ->
  has_note note_id db = true ->
  delete_note note_id db
  = inr (mk_store true (without n_note_id note_id (notes db))
           (without l_note_id note_id (extracted_links db))
           (without i_note_id note_id (extracted_images db))
           (without a_note_id note_id (analysis db))
           (without t_note_id note_id (extracted_tasks db))
           (without d_note_id note_id (extracted_ideas db))
           (without p_note_id note_id (extracted_projects db))
           (without c_note_id note_id (note_categories db))).
Proof.
  intros Hfk Hn. unfold delete_note. rewrite Hn, Hfk. reflexivity.
Qed.

Lemma has_note_without (note_id other : string) (rows : list note_row) :
  existsb (fun r => String.eqb (n_note_id r) other)
          (without n_note_id note_id rows)
  = negb (String.eqb other note_id)
    && existsb (fun r => String.eqb (n_note_id r) other) rows.
Proof.
  unfold without. induction rows as [|r rows IH].
  - cbn. now rewrite andb_false_r.
  - cbn. destruct (String.eqb (n_note_id r) note_id) eqn:E; cbn.
    + rewrite IH. apply String.eqb_eq in E.
      destruct (String.eqb (n_note_id r) other) eqn:E'; cbn; auto.
      apply String.eqb_eq in E'. subst.
      rewrite String.eqb_refl. reflexivity.
    + rewrite IH.
      destruct (String.eqb (n_note_id r) other) eqn:E'; cbn.
      * apply String.eqb_eq in E'. subst. rewrite E. reflexivity.
      * reflexivity.
Qed.

Lemma refers_ok_without {R : Type} (note_id_of : R -> string)
    (note_id : string) (db db' : store) (rows : list R) :
  notes db' = without n_note_id note_id (notes db) ->
  refers_ok note_id_of db rows = true ->
  refers_ok note_id_of db' (without note_id_of note_id rows) = true.
Proof.
  unfold refers_ok, has_note, without at 2. intros E H.
  rewrite forallb_forall in *. intros r Hr.
  apply filter_In in Hr. destruct Hr as [Hr Hne].
  rewrite E, has_note_without, Hne. now apply H.
Qed.

Lemma delete_note_integrity (note_id : string) (db db' : store) :
  foreign_keys db = true ->
  integrity db = true ->
  delete_note note_id db = inr db' ->
  foreign_keys db' = true /\ integrity db' = true
  /\ has_note note_id db' = false /\ childless note_id db'.
Proof.
  intros Hfk Hint Hd. destruct (has_note note_id db) eqn:Hn.
  - rewrite (delete_note_cascades note_id db Hfk Hn) in Hd.
    injection Hd as <-. split; [reflexivity|]. split; [|split].
    + unfold integrity in *.
      repeat (apply andb_prop in Hint; destruct Hint as [Hint ?]).
      cbn [extracted_links extracted_images analysis extracted_tasks
           extracted_ideas extracted_projects note_categories].
      repeat (apply andb_true_intro; split);
        (eapply refers_ok_without; [reflexivity|assumption]).
    + unfold has_note. cbn [notes]. rewrite has_note_without.
      now rewrite String.eqb_refl.
    + unfold childless.
      cbn [extracted_links extracted_images analysis extracted_tasks
           extracted_ideas extracted_projects note_categories].
      repeat split; apply rows_of_without.
  - unfold delete_note in Hd. rewrite Hn in Hd. injection Hd as <-.
    split; [exact Hfk|]. split; [exact Hint|]. split; [exact Hn|].
    now apply integrity_childless.
Qed.

Lemma delete_note_succeeds (note_id : string) (db : store) :
  foreign_keys db = true -> exists db', delete_note note_id db = inr db'.
Proof.
  intro Hfk. destruct (has_note note_id db) eqn:Hn.
  - rewrite delete_note_cascades by assumption. eauto.
  - unfold delete_note. rewrite Hn. eauto.
Qed.

Lemma reachable_invariant (db : store) :
  reachable db ->
  foreign_keys db = true /\ integrity db = true.
Proof.
  induction 1 as [|db _ [IHfk IHint]|note_data self _ [IHfk IHint]
                  |note_id db db' _ [IHfk IHint] Hd].
  - split; reflexivity.
  - split; [reflexivity|exact IHint].
  - split.
    + now rewrite import_note_foreign_keys.
    + now apply import_note_integrity.
  - destruct (delete_note_integrity note_id db db' IHfk IHint Hd)
      as [? [? _]]. now split.
Qed.

(** * The properties of the specification *)

(** C8: the date parser maps "Saturday, November 8, 2025 at 21:59:06" to
    2025-11-08 21:59:06 and an unparseable string such as "whenever" to no
    timestamp, as a value and not an exception; and for every note record
    whose Note row is inserted (it has a note_id, an original_index that
    fits a 64-bit integer and meets no conflict), the stored row keeps the
    two raw date strings
    verbatim, whatever the parse gives, next to the parsed timestamps (NULL
    when the parse fails). *)
Theorem C8_parsed_dates_and_raw_strings (note_data : note_data_t)
    (self : self_t) :
  let note_id := get_or (nd_note_id note_data) "" in
  let created := get_or (nd_created note_data) "" in
  let modified := get_or (nd_modified note_data) "" in
  note_inserts (note_row_of note_id note_data) (conn self) = true ->
  parse_macos_date "Saturday, November 8, 2025 at 21:59:06"
  = Some (mk_datetime 2025 11 8 21 59 6)
  /\ isoformat (mk_datetime 2025 11 8 21 59 6) = "2025-11-08 21:59:06"
  /\ parse_macos_date "whenever" = None
  /\ exists r,
       In r (notes (conn (import_note note_data self)))
       /\ n_note_id r = note_id
       /\ n_created_raw r = created
       /\ n_modified_raw r = modified
       /\ n_created_datetime r
          = option_map isoformat (parse_macos_date created)
       /\ n_modified_datetime r
          = option_map isoformat (parse_macos_date modified)
       /\ (created = "Saturday, November 8, 2025 at 21:59:06" ->
           n_created_datetime r = Some "2025-11-08 21:59:06")
       /\ (created = "whenever" ->
           n_created_datetime r = None /\ n_created_raw r = "whenever").
Proof.
  intros note_id created modified H.
  assert (parse_macos_date "Saturday, November 8, 2025 at 21:59:06"
          = Some (mk_datetime 2025 11 8 21 59 6)) as Hp
    by (vm_compute; reflexivity).
  assert (parse_macos_date "whenever" = None) as Hw
    by (vm_compute; reflexivity).
  split; [exact Hp|]. split; [vm_compute; reflexivity|]. split; [exact Hw|].
  exists (note_row_of note_id note_data).
  split.
  - rewrite import_note_inserted by assumption. fold note_id.
    rewrite imported_notes. apply in_or_app. right. now left.
  - cbn [note_row_of n_note_id n_created_raw n_modified_raw
         n_created_datetime n_modified_datetime].
    fold created modified.
    do 5 (split; [reflexivity|]). split.
    + intro E. now rewrite E, Hp.
    + intro E. rewrite E, Hw. now split.
Qed.

(** C5: a note record whose note_id is the primary key of a stored Note row
    leaves the store as it was (the row is not overwritten, nothing else is
    written), appends to the error log one entry that names that note_id
    and the uniqueness that failed (or, for a record whose original_index
    does not fit a 64-bit integer, the overflow that the statement met
    first), counts nothing, and the run goes on with the records that
    follow. *)
Theorem C5_duplicate_note_id_is_logged (note_data : note_data_t)
    (self : self_t) :
  let note_id := get_or (nd_note_id note_data) "" in
  str_truthy note_id = true ->
  has_note note_id (conn self) = true ->
  let self' := import_note note_data self in
  conn self' = conn self
  /\ (exists detail,
        (if sqlite_int (get_or (nd_original_index note_data) 0)
         then exists column,
                (column = "note_id" \/ column = "coredata_id")
                /\ detail = "UNIQUE constraint failed: notes." ++ column
         else detail = "Python int too large to convert to SQLite INTEGER")
        /\ stats self'
           = mk_stats (notes_imported (stats self))
               (links_imported (stats self)) (images_imported (stats self))
               (categories_imported (stats self)) (tasks_imported (stats self))
               (ideas_imported (stats self)) (projects_imported (stats self))
               (errors (stats self)
                ++ ["Failed to import note " ++ note_id ++ ": " ++ detail]))
  /\ forall rest,
       import_all (note_data :: rest) self = import_all rest self'.
Proof.
  intros note_id Ht Hn self'.
  assert (exists detail,
             (if sqlite_int (get_or (nd_original_index note_data) 0)
              then exists column,
                     (column = "note_id" \/ column = "coredata_id")
                     /\ detail = "UNIQUE constraint failed: notes." ++ column
              else detail = "Python int too large to convert to SQLite INTEGER")
             /\ self'
                = add_error ("Failed to import note " ++ note_id ++ ": "
                             ++ detail) self) as [detail [Hd E]].
  { unfold self', import_note. fold note_id. rewrite Ht. cbn [negb].
    unfold insert_note. cbn [note_row_of n_note_id n_original_index].
    destruct (sqlite_int (get_or (nd_original_index note_data) 0)).
    - cbn [negb]. destruct (existsb _ (notes (conn self))).
      + eexists. split; [exists "coredata_id"; split; [now right|]|];
          reflexivity.
      + rewrite Hn. eexists.
        split; [exists "note_id"; split; [now left|]|]; reflexivity.
    - cbn [negb too_large]. eexists. split; reflexivity. }
  rewrite E. split; [reflexivity|].
  split; [exists detail; split; [exact Hd|reflexivity]|].
  intro rest. cbn [import_all fold_left]. fold self'. now rewrite E.
Qed.

(** C10, as amended: two note records that both lack the external [id] and
    whose [original_index] fits a 64-bit integer, the first new to a store
    that holds no note with the empty string as coredata_id: the first is
    imported, and its Note row stores the empty string, not NULL, as
    coredata_id; the second then fails on the uniqueness of coredata_id,
    which is logged against its note_id, and none of its rows is
    written. *)
Theorem C10_missing_id_collides (first second : note_data_t) (self : self_t) :
  let id1 := get_or (nd_note_id first) "" in
  let id2 := get_or (nd_note_id second) "" in
  str_truthy id1 = true ->
  str_truthy id2 = true ->
  nd_id first = None ->
  nd_id second = None ->
  sqlite_int (get_or (nd_original_index first) 0) = true ->
  sqlite_int (get_or (nd_original_index second) 0) = true ->
  has_note id1 (conn self) = false ->
  has_coredata_id "" (conn self) = false ->
  let self1 := import_note first self in
  let self2 := import_note second self1 in
  In (note_row_of id1 first) (notes (conn self1))
  /\ n_coredata_id (note_row_of id1 first) = Some ""
  /\ notes_imported (stats self1) = notes_imported (stats self) + 1
  /\ errors (stats self1) = (errors (stats self) ++ image_errors id1 first)%list
  /\ conn self2 = conn self1
  /\ stats self2
     = mk_stats (notes_imported (stats self1)) (links_imported (stats self1))
         (images_imported (stats self1)) (categories_imported (stats self1))
         (tasks_imported (stats self1)) (ideas_imported (stats self1))
         (projects_imported (stats self1))
         (errors (stats self1)
          ++ ["Failed to import note " ++ id2
              ++ ": UNIQUE constraint failed: notes.coredata_id"]).
Proof.
  intros id1 id2 Ht1 Ht2 Hf Hs Hi1 Hi2 Habs1 Hcd self1 self2.
  assert (note_inserts (note_row_of id1 first) (conn self) = true) as Hins.
  { unfold note_inserts.
    cbn [note_row_of n_note_id n_coredata_id n_original_index].
    rewrite Ht1, Hi1, Habs1, Hf. cbn [get_or].
    unfold has_coredata_id in Hcd. now rewrite Hcd. }
  assert (self1 = imported id1 first self) as E1
    by (apply import_note_inserted; assumption).
  assert (In (note_row_of id1 first) (notes (conn self1))) as Hin.
  { rewrite E1, imported_notes. apply in_or_app. right. now left. }
  split; [exact Hin|].
  split; [cbn; now rewrite Hf|].
  split; [rewrite E1; cbn; lia|].
  split; [rewrite E1; reflexivity|].
  assert (existsb
            (fun x => same_non_null (n_coredata_id x)
                        (n_coredata_id (note_row_of id2 second)))
            (notes (conn self1)) = true) as Hc.
  { apply existsb_exists. exists (note_row_of id1 first). split; [exact Hin|].
    cbn. now rewrite Hf, Hs. }
  assert (insert_note (note_row_of id2 second) (conn self1)
          = inl (IntegrityError "UNIQUE constraint failed: notes.coredata_id"))
    as Hrej.
  { unfold insert_note. rewrite Hc.
    cbn [note_row_of n_original_index]. now rewrite Hi2. }
  unfold self2, import_note. fold id2. rewrite Ht2. cbn [negb].
  rewrite Hrej. split; reflexivity.
Qed.

(** C1, as amended: when a note record has the same URL in the flat
    [extracted_data.links] list and under a category of
    [analysis.links_categorized], and its Note row is inserted into a store
    with referential integrity, the store holds exactly one link row for
    that note and URL, the untyped one: the typed insert is ignored as a
    duplicate of (note_id, url). *)
Theorem C1_same_url_keeps_the_untyped_row (note_data : note_data_t)
    (self : self_t) (url link_type : string) (urls : list string) :
  let note_id := get_or (nd_note_id note_data) "" in
  let extracted_data := get_or (nd_extracted_data note_data) no_extracted_data in
  let analysis := get_or (nd_analysis note_data) no_analysis in
  note_inserts (note_row_of note_id note_data) (conn self) = true ->
  integrity (conn self) = true ->
  In url (get_or (ed_links extracted_data) []) ->
  In (link_type, urls) (get_or (an_links_categorized analysis) []) ->
  In url urls ->
  links_for note_id url (extracted_links (conn (import_note note_data self)))
  = [mk_link_row note_id url None].
Proof.
  intros note_id extracted_data analysis Hins Hint Hflat _ _.
  rewrite import_note_inserted by assumption. fold note_id.
  unfold imported, with_children. cbn [conn extracted_links set_notes].
  pose proof (note_inserts_absent _ _ Hins) as Habs.
  cbn [note_row_of n_note_id] in Habs.
  destruct (integrity_childless note_id (conn self) Hint Habs) as [Hl _].
  unfold links_for.
  rewrite (add_unique_key link_conflict link_key pair_eqb pair_eqb_spec)
    by reflexivity.
  pose proof (links_for_other note_id url _ Hl) as Hnone.
  unfold links_for in Hnone.
  rewrite (filter_nil_existsb _ _ Hnone), Hnone. cbn [app].
  unfold first_with, link_rows. fold extracted_data. rewrite find_app.
  now rewrite find_flat_link.
Qed.

(** C9, as amended: when the Note row of a record is inserted into a store
    with referential integrity, a bare-string entry of
    [extracted_data.images] that no earlier entry of the sequence shares its
    file name with gives the one Image row of that note and file name: the
    string as filename, relative path "images/<filename>", empty format,
    size 0, and the entry's 1-based position as extraction order. *)
Theorem C9_bare_image_entry (note_data : note_data_t) (self : self_t)
    (k : nat) (filename : string) :
  let note_id := get_or (nd_note_id note_data) "" in
  let extracted_data := get_or (nd_extracted_data note_data) no_extracted_data in
  let images := get_or (ed_images extracted_data) [] in
  note_inserts (note_row_of note_id note_data) (conn self) = true ->
  integrity (conn self) = true ->
  nth_error images k = Some (ImageName filename) ->
  (forall j other, (j < k)%nat -> nth_error images j = Some other ->
                   image_filename other <> filename) ->
  images_for note_id filename
    (extracted_images (conn (import_note note_data self)))
  = [mk_image_row note_id filename ("images/" ++ filename) "" 0
       (Z.of_nat k + 1)].
Proof.
  intros note_id extracted_data images Hins Hint Hk Hbefore.
  rewrite import_note_inserted by assumption. fold note_id.
  unfold imported, with_children. cbn [conn extracted_images set_notes].
  pose proof (note_inserts_absent _ _ Hins) as Habs.
  cbn [note_row_of n_note_id] in Habs.
  destruct (integrity_childless note_id (conn self) Hint Habs) as [_ [Hi _]].
  pose proof (images_for_other note_id filename _ Hi) as Hnone.
  unfold images_for in *.
  rewrite (add_unique_key image_conflict image_key pair_eqb pair_eqb_spec)
    by reflexivity.
  rewrite (filter_nil_existsb _ _ Hnone), Hnone. cbn [app].
  unfold first_with, image_rows, image_statements.
  fold extracted_data images.
  rewrite (find_kept _ fits _
             (image_row_of note_id (1 + Z.of_nat k) (ImageName filename))).
  - cbn [image_row_of]. do 2 f_equal. lia.
  - now apply find_image_row.
  - reflexivity.
Qed.

(** C4, as amended: when the Note row of a record is inserted into a store
    with referential integrity, an Analysis row exists for that note if and
    only if the record's analysis payload has a non-empty summary or a
    non-empty plain text (a payload without either gives no row); the row
    holds the summary and the first 1000 characters of the plain text; and
    a store with at most one Analysis row per note keeps at most one. *)
Theorem C4_analysis_row_iff_text (note_data : note_data_t) (self : self_t) :
  let note_id := get_or (nd_note_id note_data) "" in
  let a := get_or (nd_analysis note_data) no_analysis in
  note_inserts (note_row_of note_id note_data) (conn self) = true ->
  integrity (conn self) = true ->
  NoDup (map a_note_id (analysis (conn self))) ->
  let db' := conn (import_note note_data self) in
  ((exists r, In r (analysis db') /\ a_note_id r = note_id)
   <-> has_analysis_text a = true)
  /\ rows_of a_note_id note_id (analysis db')
     = (if has_analysis_text a
        then [mk_analysis_row note_id (get_or (an_summary a) "")
                (substring 0 1000 (get_or (an_plain_text a) ""))]
        else [])
  /\ NoDup (map a_note_id (analysis db')).
Proof.
  intros note_id a Hins Hint Hnd db'.
  assert (analysis db'
          = add_unique analysis_conflict (analysis_rows note_id note_data)
              (analysis (conn self))) as Ea.
  { unfold db'. rewrite import_note_inserted by assumption. reflexivity. }
  pose proof (note_inserts_absent _ _ Hins) as Habs.
  cbn [note_row_of n_note_id] in Habs.
  destruct (integrity_childless note_id (conn self) Hint Habs)
    as [_ [_ [Ha _]]].
  assert (rows_of a_note_id note_id (analysis db')
          = (if has_analysis_text a
             then [mk_analysis_row note_id (get_or (an_summary a) "")
                     (substring 0 1000 (get_or (an_plain_text a) ""))]
             else [])) as Erows.
  { rewrite Ea. unfold rows_of in *.
    rewrite (add_unique_key analysis_conflict a_note_id String.eqb
               String.eqb_eq) by reflexivity.
    rewrite (filter_nil_existsb _ _ Ha), Ha. cbn [app].
    unfold first_with, analysis_rows. fold a.
    destruct (has_analysis_text a); [|reflexivity].
    cbn [find a_note_id]. now rewrite String.eqb_refl. }
  split; [|split; [exact Erows|]].
  - split.
    + intros [r [Hin Hr]].
      assert (In r (rows_of a_note_id note_id (analysis db'))) as Hr'
        by (apply rows_of_In; now split).
      rewrite Erows in Hr'. destruct (has_analysis_text a); [reflexivity|].
      destruct Hr'.
    + intro Ht. rewrite Ht in Erows.
      eexists. apply (rows_of_In a_note_id note_id (analysis db')).
      rewrite Erows. now left.
  - rewrite Ea.
    apply (add_unique_nodup analysis_conflict a_note_id String.eqb
             String.eqb_eq); [reflexivity|exact Hnd].
Qed.

(** C3, what the code does: over an import run, each per-kind counter
    grows by the number of insert statements of that kind that ran without
    raising, one per link, category, task, idea and project entry, and one
    per image entry with a size that fits a 64-bit integer, of every record
    whose Note row went in.  For tasks, ideas and projects that is the
    number of rows inserted during the run.  For links, images and
    categories an insert absorbed as a duplicate is counted too: the
    counter is at least the number of rows inserted, and can exceed it. *)
Theorem C3_counters_count_statements (records : list note_data_t) :
  forall self : self_t,
  let self' := import_all records self in
  let s := stats self in
  let s' := stats self' in
  let db := conn self in
  let db' := conn self' in
  links_imported s' = links_imported s + statements link_rows records self
  /\ images_imported s' = images_imported s + statements image_rows records self
  /\ categories_imported s'
     = categories_imported s + statements category_rows records self
  /\ tasks_imported s' = tasks_imported s + statements task_rows records self
  /\ ideas_imported s' = ideas_imported s + statements idea_rows records self
  /\ projects_imported s'
     = projects_imported s + statements project_rows records self
  /\ len (extracted_tasks db') - len (extracted_tasks db)
     = tasks_imported s' - tasks_imported s
  /\ len (extracted_ideas db') - len (extracted_ideas db)
     = ideas_imported s' - ideas_imported s
  /\ len (extracted_projects db') - len (extracted_projects db)
     = projects_imported s' - projects_imported s
  /\ 0 <= len (extracted_links db') - len (extracted_links db)
     <= links_imported s' - links_imported s
  /\ 0 <= len (extracted_images db') - len (extracted_images db)
     <= images_imported s' - images_imported s
  /\ 0 <= len (note_categories db') - len (note_categories db)
     <= categories_imported s' - categories_imported s.
Proof.
  induction records as [|note_data rest IH]; intro self.
  - cbn. repeat split; lia.
  - cbn zeta. cbn [import_all fold_left statements].
    specialize (IH (import_note note_data self)). cbn zeta in IH.
    unfold import_all in IH.
    pose proof (import_note_counts note_data self) as Hstep.
    cbn zeta in Hstep.
    destruct IH as (?&?&?&?&?&?&?&?&?&?&?&?).
    destruct Hstep as (?&?&?&?&?&?&?&?&?&?&?&?).
    repeat split; lia.
Qed.

(** C6, as amended: a second, identical pass over the store that a first
    pass produced, on the same connection or on a new one, changes no row
    of the store, so the Link, Image and Category counts stay as they were;
    and importing a record whose Note row is already stored changes no row
    either: the child rows that a partial import left out stay out. *)
Theorem C6_second_pass_changes_nothing (records : list note_data_t)
    (self : self_t) (note_data : note_data_t) (partial : self_t) :
  has_note (get_or (nd_note_id note_data) "") (conn partial) = true ->
  let first := import_all records self in
  conn (import_all records first) = conn first
  /\ conn (import_all records (connect (conn first))) = conn (connect (conn first))
  /\ total_links (totals (conn (import_all records first)))
     = total_links (totals (conn first))
  /\ total_images (totals (conn (import_all records first)))
     = total_images (totals (conn first))
  /\ total_categories (totals (conn (import_all records first)))
     = total_categories (totals (conn first))
  /\ conn (import_note note_data partial) = conn partial.
Proof.
  intros Hn first.
  assert (conn (import_all records first) = conn first) as E
    by (apply (second_pass records self), incl_refl).
  split; [exact E|].
  split; [apply (second_pass records self), incl_refl|].
  rewrite E. repeat split.
  apply import_note_blocked. unfold goes_in, note_inserts.
  cbn [note_row_of n_note_id]. rewrite Hn. apply andb_false_r.
Qed.

(** C2, as amended: in the statistics report the earliest and latest
    created timestamps are the least and the greatest over the notes with
    a created timestamp; the earliest and latest modified timestamps are
    the least and the greatest of the modified timestamps over the notes
    that have a created timestamp and a modified one.  A range over no
    note is NULL, and no other value is ever put in a timestamp's place. *)
Theorem C2_date_ranges (db : store) :
  let with_created :=
    filter (fun r => is_some (n_created_datetime r)) (notes db) in
  let ranges := date_ranges db in
  least (present (map n_created_datetime (notes db))) (earliest_created ranges)
  /\ greatest (present (map n_created_datetime (notes db)))
       (latest_created ranges)
  /\ least (present (map n_modified_datetime with_created))
       (earliest_modified ranges)
  /\ greatest (present (map n_modified_datetime with_created))
       (latest_modified ranges).
Proof.
  intros with_created ranges. unfold ranges, date_ranges.
  cbn [earliest_created latest_created earliest_modified latest_modified].
  rewrite <- (present_created (notes db)).
  repeat split; first [apply sql_min_least | apply sql_max_greatest].
Qed.

(** C7: [connect] turns the foreign keys on and they stay on; every child
    table (links, images, analysis, tasks, ideas, projects, categories)
    declares its note_id with ON DELETE CASCADE; so, in every store the
    connection can reach, each child row refers to a stored note, and
    deleting a Note row succeeds, takes all the child rows of that note
    with it and leaves a store in which that still holds. *)
Theorem C7_delete_cascades (db : store) (note_id : string) :
  reachable db ->
  foreign_keys db = true
  /\ (forall t, In t child_tables ->
                schema_foreign_key t = Some (mk_fk Notes Cascade))
  /\ integrity db = true
  /\ exists db',
       delete_note note_id db = inr db'
       /\ has_note note_id db' = false
       /\ childless note_id db'
       /\ integrity db' = true
       /\ foreign_keys db' = true
       /\ reachable db'.
Proof.
  intro Hr. destruct (reachable_invariant db Hr) as [Hfk Hint].
  split; [exact Hfk|]. split; [|split; [exact Hint|]].
  - intros t Ht. cbn in Ht.
    repeat (destruct Ht as [<-|Ht]; [reflexivity|]). destruct Ht.
  - destruct (delete_note_succeeds note_id db Hfk) as [db' Hd].
    destruct (delete_note_integrity note_id db db' Hfk Hint Hd)
      as [Hfk' [Hint' [Hn' Hc']]].
    exists db'. repeat (split; [assumption|]).
    eapply reach_delete; eauto.
Qed.

End Engine.

(** * Concrete records

    The records below have no [content], so [html_to_text] returns the empty
    text before the HTML parser is reached; the parser given to the engine
    plays no part in what follows. *)

Definition as_is (html : string) : string := html.

(** A record with a [note_id] and nothing else. *)
Definition bare_note (note_id : string) : note_data_t :=
  {| nd_note_id := Some note_id; nd_original_index := None; nd_title := None;
     nd_content := None; nd_content_cleaned := None; nd_folder := None;
     nd_account := None; nd_id := None; nd_created := None;
     nd_modified := None; nd_status := None; nd_processed := None;
     nd_primary_category := None; nd_categories := None;
     nd_extracted_data := None; nd_analysis := None |}.

(** A record with a [note_id] and an [original_index] of 2^63. *)
Definition oversized_note (note_id : string) : note_data_t :=
  {| nd_note_id := Some note_id; nd_original_index := Some (2 ^ 63);
     nd_title := None; nd_content := None; nd_content_cleaned := None;
     nd_folder := None; nd_account := None; nd_id := None;
     nd_created := None; nd_modified := None; nd_status := None;
     nd_processed := None; nd_primary_category := None;
     nd_categories := None; nd_extracted_data := None;
     nd_analysis := None |}.

(** One URL, in the flat list and under a category. *)
Definition note_with_both_links : note_data_t :=
  {| nd_note_id := Some "n1"; nd_original_index := None; nd_title := None;
     nd_content := None; nd_content_cleaned := None; nd_folder := None;
     nd_account := None; nd_id := None; nd_created := None;
     nd_modified := None; nd_status := None; nd_processed := None;
     nd_primary_category := None; nd_categories := None;
     nd_extracted_data :=
       Some (mk_extracted_data None (Some ["https://a.com"]));
     nd_analysis :=
       Some (mk_analysis None None None None None
               (Some [("youtube", ["https://a.com"])]) []) |}.

(** A created date that does not parse and a modified date that does. *)
Definition note_with_dates : note_data_t :=
  {| nd_note_id := Some "n1"; nd_original_index := None; nd_title := None;
     nd_content := None; nd_content_cleaned := None; nd_folder := None;
     nd_account := None; nd_id := Some "x-coredata://1";
     nd_created := Some "whenever";
     nd_modified := Some "Saturday, November 8, 2025 at 21:59:06";
     nd_status := None; nd_processed := None;
     nd_primary_category := None; nd_categories := None;
     nd_extracted_data := None; nd_analysis := None |}.

(** An analysis payload that holds a task and no text. *)
Definition note_with_task_only : note_data_t :=
  {| nd_note_id := Some "n1"; nd_original_index := None; nd_title := None;
     nd_content := None; nd_content_cleaned := None; nd_folder := None;
     nd_account := None; nd_id := None; nd_created := None;
     nd_modified := None; nd_status := None; nd_processed := None;
     nd_primary_category := None; nd_categories := None;
     nd_extracted_data := None;
     nd_analysis :=
       Some (mk_analysis None None (Some [Bare "Call Bob"]) None None None []) |}.

(** An analysis payload with a summary. *)
Definition note_with_summary : note_data_t :=
  {| nd_note_id := Some "n1"; nd_original_index := None; nd_title := None;
     nd_content := None; nd_content_cleaned := None; nd_folder := None;
     nd_account := None; nd_id := None; nd_created := None;
     nd_modified := None; nd_status := None; nd_processed := None;
     nd_primary_category := None; nd_categories := None;
     nd_extracted_data := None;
     nd_analysis :=
       Some (mk_analysis (Some "A call to make") None
               (Some [Bare "Call Bob"]) None None None []) |}.

(** The same file name twice, then another. *)
Definition note_with_images : note_data_t :=
  {| nd_note_id := Some "n1"; nd_original_index := None; nd_title := None;
     nd_content := None; nd_content_cleaned := None; nd_folder := None;
     nd_account := None; nd_id := None; nd_created := None;
     nd_modified := None; nd_status := None; nd_processed := None;
     nd_primary_category := None; nd_categories := None;
     nd_extracted_data :=
       Some (mk_extracted_data
               (Some [ImageName "photo.png"; ImageName "photo.png";
                      ImageName "scan.png"])
               None);
     nd_analysis := None |}.

(** A record with a link, an image and a category. *)
Definition full_note : note_data_t :=
  {| nd_note_id := Some "n1"; nd_original_index := None; nd_title := None;
     nd_content := None; nd_content_cleaned := None; nd_folder := None;
     nd_account := None; nd_id := None; nd_created := None;
     nd_modified := None; nd_status := None; nd_processed := None;
     nd_primary_category := None; nd_categories := Some ["work"];
     nd_extracted_data :=
       Some (mk_extracted_data (Some [ImageName "photo.png"])
               (Some ["https://a.com"]));
     nd_analysis := None |}.

(** A new database, connected. *)
Definition fresh : self_t := connect empty_store.

(** * The date parser on the formats it accepts *)

Example parse_12_hour :
  parse_macos_date "November 8, 2025 at 9:59:06 PM"
  = Some (mk_datetime 2025 11 8 21 59 6).
Proof. vm_compute. reflexivity. Qed.

Example parse_short_month_midnight :
  parse_macos_date "Sat, Nov 08, 2025 at 12:00:00 am"
  = Some (mk_datetime 2025 11 8 0 0 0).
Proof. vm_compute. reflexivity. Qed.

Example parse_iso_date :
  parse_macos_date "2025-11-08" = Some (mk_datetime 2025 11 8 0 0 0).
Proof. vm_compute. reflexivity. Qed.

Example parse_no_such_day :
  parse_macos_date "February 30, 2025 at 21:59:06" = None.
Proof. vm_compute. reflexivity. Qed.

Example parse_two_separators : parse_macos_date "a at b at c" = None.
Proof. vm_compute. reflexivity. Qed.

(** * The properties on concrete records *)

Lemma C8_witness :
  exists r,
    In r (notes (conn (import_note as_is note_with_dates fresh)))
    /\ n_created_raw r = "whenever"
    /\ n_created_datetime r = None
    /\ n_modified_raw r = "Saturday, November 8, 2025 at 21:59:06"
    /\ n_modified_datetime r = Some "2025-11-08 21:59:06".
Proof.
  destruct (C8_parsed_dates_and_raw_strings as_is note_with_dates fresh)
    as [_ [_ [_ [r [Hin [_ [Hc [Hm [_ [Hmd [_ Hw]]]]]]]]]]].
  - vm_compute. reflexivity.
  - exists r. split; [exact Hin|].
    destruct (Hw eq_refl) as [Hnone Hraw].
    split; [exact Hraw|]. split; [exact Hnone|]. split; [exact Hm|].
    rewrite Hmd. vm_compute. reflexivity.
Defined.

Lemma C5_witness :
  let stored := import_note as_is full_note fresh in
  conn (import_note as_is full_note stored) = conn stored
  /\ errors (stats (import_note as_is full_note stored))
     = ["Failed to import note n1: UNIQUE constraint failed: notes.coredata_id"].
Proof.
  intro stored.
  destruct (C5_duplicate_note_id_is_logged as_is full_note stored)
    as [Hconn _].
  - reflexivity.
  - vm_compute. reflexivity.
  - split; [exact Hconn|]. vm_compute. reflexivity.
Defined.

Lemma C10_witness :
  let self1 := import_note as_is (bare_note "n1") fresh in
  let self2 := import_note as_is (bare_note "n2") self1 in
  conn self2 = conn self1
  /\ errors (stats self2)
     = ["Failed to import note n2: UNIQUE constraint failed: notes.coredata_id"].
Proof.
  intros self1 self2.
  destruct (C10_missing_id_collides as_is (bare_note "n1") (bare_note "n2")
              fresh)
    as [_ [_ [_ [_ [Hconn Hstats]]]]].
  - reflexivity.
  - reflexivity.
  - reflexivity.
  - reflexivity.
  - reflexivity.
  - reflexivity.
  - reflexivity.
  - reflexivity.
  - split; [exact Hconn|]. unfold self2, self1. rewrite Hstats.
    vm_compute. reflexivity.
Defined.

(** C10, as stated, fails: the two records have distinct note_ids and lack
    the external id, and the first has an [original_index] of 2^63.  The
    first is rejected by the overflow of that parameter, and the second is
    imported. *)
Lemma C10_counterexample :
  let self1 := import_note as_is (oversized_note "n1") fresh in
  let self2 := import_note as_is (bare_note "n2") self1 in
  nd_id (oversized_note "n1") = None
  /\ nd_id (bare_note "n2") = None
  /\ has_note "n1" (conn self1) = false
  /\ errors (stats self1)
     = ["Failed to import note n1: Python int too large to convert to SQLite INTEGER"]
  /\ has_note "n2" (conn self2) = true
  /\ notes_imported (stats self2) = 1
  /\ errors (stats self2) = errors (stats self1).
Proof. vm_compute. repeat split; reflexivity. Qed.

Lemma C7_witness :
  let db := conn (import_note as_is full_note fresh) in
  rows_of l_note_id "n1" (extracted_links db)
  = [mk_link_row "n1" "https://a.com" None]
  /\ exists db',
       delete_note "n1" db = inr db'
       /\ has_note "n1" db' = false
       /\ childless "n1" db'
       /\ integrity db' = true.
Proof.
  intro db. split; [vm_compute; reflexivity|].
  destruct (C7_delete_cascades as_is db "n1")
    as [_ [_ [_ [db' [Hd [Hn [Hc [Hi _]]]]]]]].
  - unfold db. apply reach_import. apply reach_connect.
  - exists db'. repeat (split; [assumption|]). assumption.
Defined.

Lemma C1_witness :
  links_for "n1" "https://a.com"
    (extracted_links (conn (import_note as_is note_with_both_links fresh)))
  = [mk_link_row "n1" "https://a.com" None].
Proof.
  apply (C1_same_url_keeps_the_untyped_row as_is note_with_both_links fresh
           "https://a.com" "youtube" ["https://a.com"]).
  - reflexivity.
  - reflexivity.
  - simpl. left. reflexivity.
  - simpl. left. reflexivity.
  - simpl. left. reflexivity.
Defined.

(** C1, as stated, fails: the URL is in the flat list and under "youtube",
    and the store holds no typed row for it, only the untyped one. *)
Lemma C1_counterexample :
  let db := conn (import_note as_is note_with_both_links fresh) in
  extracted_links db = [mk_link_row "n1" "https://a.com" None]
  /\ ~ In (mk_link_row "n1" "https://a.com" (Some "youtube"))
         (extracted_links db).
Proof.
  vm_compute. split; [reflexivity|].
  intros [H|[]]. discriminate.
Qed.

(** C2, as stated, fails: the only note has no created timestamp and a
    modified one, and the modified range is NULL, not that timestamp. *)
Lemma C2_counterexample :
  let db := conn (import_note as_is note_with_dates fresh) in
  present (map n_modified_datetime (notes db)) = ["2025-11-08 21:59:06"]
  /\ earliest_modified (date_ranges db) = None
  /\ latest_modified (date_ranges db) = None
  /\ ~ least (present (map n_modified_datetime (notes db)))
         (earliest_modified (date_ranges db)).
Proof.
  vm_compute. repeat (split; [reflexivity|]). discriminate.
Qed.

(** C3, as stated, fails: two link inserts are counted, one row is
    inserted. *)
Lemma C3_counterexample :
  let run := import_all as_is [note_with_both_links] fresh in
  links_imported (stats run) - links_imported (stats fresh) = 2
  /\ total_links (totals (conn run)) - total_links (totals (conn fresh)) = 1.
Proof. vm_compute. split; reflexivity. Qed.

Lemma C4_witness :
  let db := conn (import_note as_is note_with_summary fresh) in
  rows_of a_note_id "n1" (analysis db)
  = [mk_analysis_row "n1" "A call to make" ""]
  /\ NoDup (map a_note_id (analysis db)).
Proof.
  intro db.
  destruct (C4_analysis_row_iff_text as_is note_with_summary fresh)
    as [_ [Hrows Hnodup]].
  - reflexivity.
  - reflexivity.
  - simpl. constructor.
  - split; [exact Hrows|exact Hnodup].
Defined.

(** C4, as stated, fails: the record carries an analysis payload, its Note
    row is inserted, and there is no Analysis row. *)
Lemma C4_counterexample :
  let db := conn (import_note as_is note_with_task_only fresh) in
  is_some (nd_analysis note_with_task_only) = true
  /\ analysis_truthy (get_or (nd_analysis note_with_task_only) no_analysis)
     = true
  /\ has_note "n1" db = true
  /\ extracted_tasks db = [mk_task_row "n1" "Call Bob"]
  /\ analysis db = [].
Proof. vm_compute. repeat split; reflexivity. Qed.

Lemma C6_witness :
  let first := import_all as_is [full_note; bare_note "n2"] fresh in
  let partial := import_note as_is (bare_note "n1") fresh in
  conn (import_all as_is [full_note; bare_note "n2"] first) = conn first
  /\ conn (import_note as_is full_note partial) = conn partial.
Proof.
  intros first partial.
  destruct (C6_second_pass_changes_nothing as_is
              [full_note; bare_note "n2"] fresh full_note partial)
    as [Hsame [_ [_ [_ [_ Hpartial]]]]].
  - reflexivity.
  - split; [exact Hsame|exact Hpartial].
Defined.

(** C6, as stated, fails in its second half: the Note row of "n1" is stored
    without child rows; importing the full record again adds none of them,
    where a clean import gives one link, one image and one category. *)
Lemma C6_counterexample :
  let partial := import_note as_is (bare_note "n1") fresh in
  let again := conn (import_note as_is full_note partial) in
  let clean := conn (import_note as_is full_note fresh) in
  has_note "n1" (conn partial) = true
  /\ extracted_links clean = [mk_link_row "n1" "https://a.com" None]
  /\ extracted_images clean
     = [mk_image_row "n1" "photo.png" "images/photo.png" "" 0 1]
  /\ note_categories clean = [mk_category_row "n1" "work"]
  /\ extracted_links again = []
  /\ extracted_images again = []
  /\ note_categories again = [].
Proof. vm_compute. repeat split; reflexivity. Qed.

Lemma C9_witness :
  images_for "n1" "scan.png"
    (extracted_images (conn (import_note as_is note_with_images fresh)))
  = [mk_image_row "n1" "scan.png" "images/scan.png" "" 0 3].
Proof.
  apply (C9_bare_image_entry as_is note_with_images fresh 2 "scan.png").
  - reflexivity.
  - reflexivity.
  - reflexivity.
  - intros j other Hj Hn.
    destruct j as [|[|j]]; simpl in Hn.
    + injection Hn as <-. simpl. discriminate.
    + injection Hn as <-. simpl. discriminate.
    + lia.
Defined.

(** C9, as stated, fails: the entry at position 2 is the bare string
    "photo.png", and the Image row of that file name has extraction order
    1; no row has order 2. *)
Lemma C9_counterexample :
  let db := conn (import_note as_is note_with_images fresh) in
  nth_error (get_or (ed_images (get_or (nd_extracted_data note_with_images)
                                       no_extracted_data)) [])
            1
  = Some (ImageName "photo.png")
  /\ images_for "n1" "photo.png" (extracted_images db)
     = [mk_image_row "n1" "photo.png" "images/photo.png" "" 0 1]
  /\ ~ In (mk_image_row "n1" "photo.png" "images/photo.png" "" 0 2)
         (extracted_images db).
Proof.
  vm_compute. repeat (split; [reflexivity|]).
  intros [H|[H|[]]]; discriminate.
Qed.

(** * Further properties of the import engine

    What [import_note] writes, row by row, and what the store keeps under
    every operation. *)

(** [after] is [before] with rows added at the end, all of one note. *)
Definition appended {R : Type} (note_id_of : R -> string) (note_id : string)
    (before after : list R) : Prop :=
  exists added,
    after = (before ++ added)%list
    /\ forall r, In r added -> note_id_of r = note_id.

(** The part of a store that belongs to one note. *)
Definition note_view (note_id : string) (db : store) : store :=
  mk_store (foreign_keys db)
    (rows_of n_note_id note_id (notes db))
    (rows_of l_note_id note_id (extracted_links db))
    (rows_of i_note_id note_id (extracted_images db))
    (rows_of a_note_id note_id (analysis db))
    (rows_of t_note_id note_id (extracted_tasks db))
    (rows_of d_note_id note_id (extracted_ideas db))
    (rows_of p_note_id note_id (extracted_projects db))
    (rows_of c_note_id note_id (note_categories db)).

Definition category_key (r : category_row) : string * string :=
  (c_note_id r, c_category r).

(** The uniqueness constraints of the schema, as a property of a store. *)
Definition unique_keys (db : store) : Prop :=
  NoDup (map n_note_id (notes db))
  /\ NoDup (present (map n_coredata_id (notes db)))
  /\ NoDup (map link_key (extracted_links db))
  /\ NoDup (map image_key (extracted_images db))
  /\ NoDup (map a_note_id (analysis db))
  /\ NoDup (map category_key (note_categories db)).

Lemma appended_refl {R : Type} (note_id_of : R -> string) (note_id : string)
    (rows : list R) :
  appended note_id_of note_id rows rows.
Proof. exists []. split; [now rewrite app_nil_r|intros r []]. Qed.

Lemma appended_app {R : Type} (note_id_of : R -> string) (note_id : string)
    (rows added : list R) :
  (forall r, In r added -> note_id_of r = note_id) ->
  appended note_id_of note_id rows (rows ++ added).
Proof. intro H. exists added. now split. Qed.

(** Ignore-on-duplicate adds some of the rows offered, at the end. *)
Lemma add_unique_appended {R : Type} (conflict : R -> R -> bool)
    (note_id_of : R -> string) (note_id : string) (rows : list R) :
  (forall r, In r rows -> note_id_of r = note_id) ->
  forall t, appended note_id_of note_id t (add_unique conflict rows t).
Proof.
  induction rows as [|r rows IH]; intros Hown t.
  - apply appended_refl.
  - rewrite add_unique_cons.
    destruct (IH (fun x Hx => Hown x (or_intror Hx)) (put conflict t r))
      as [added [E Ha]].
    unfold put in *. destruct (existsb (conflict r) t).
    + exists added. now split.
    + exists (r :: added). split.
      * rewrite E, <- app_assoc. reflexivity.
      * intros x [<-|Hx]; [apply Hown; now left|now apply Ha].
Qed.

Lemma rows_of_app {R : Type} (note_id_of : R -> string) (note_id : string)
    (l l' : list R) :
  rows_of note_id_of note_id (l ++ l')
  = (rows_of note_id_of note_id l ++ rows_of note_id_of note_id l')%list.
Proof. unfold rows_of. apply filter_app. Qed.

Lemma rows_of_own {R : Type} (note_id_of : R -> string) (note_id : string)
    (rows : list R) :
  (forall r, In r rows -> note_id_of r = note_id) ->
  rows_of note_id_of note_id rows = rows.
Proof.
  intro H. unfold rows_of. induction rows as [|r rows IH]; auto. cbn.
  rewrite (H r (or_introl eq_refl)), String.eqb_refl. f_equal.
  apply IH. intros x Hx. apply H. now right.
Qed.

Lemma rows_of_foreign {R : Type} (note_id_of : R -> string)
    (note_id other : string) (rows : list R) :
  other <> note_id ->
  (forall r, In r rows -> note_id_of r = note_id) ->
  rows_of note_id_of other rows = [].
Proof.
  intros Hne H. unfold rows_of. induction rows as [|r rows IH]; auto. cbn.
  rewrite (H r (or_introl eq_refl)).
  replace (String.eqb note_id other) with false
    by (symmetry; apply String.eqb_neq; congruence).
  apply IH. intros x Hx. apply H. now right.
Qed.

Lemma appended_rows_of_other {R : Type} (note_id_of : R -> string)
    (note_id other : string) (before after : list R) :
  other <> note_id ->
  appended note_id_of note_id before after ->
  rows_of note_id_of other after = rows_of note_id_of other before.
Proof.
  intros Hne [added [-> Ha]]. rewrite rows_of_app.
  rewrite (rows_of_foreign note_id_of note_id other added Hne Ha).
  apply app_nil_r.
Qed.

Lemma NoDup_snoc {A : Type} (l : list A) (x : A) :
  NoDup l -> ~ In x l -> NoDup (l ++ [x]).
Proof.
  intros Hl Hx. induction Hl as [|y l Hy Hl IH]; cbn.
  - constructor; [intros []|constructor].
  - constructor.
    + intro H. apply in_app_or in H. destruct H as [H|[H|[]]]; auto.
      subst. apply Hx. now left.
    + apply IH. intro H. apply Hx. now right.
Qed.


(** Rows left by a [DELETE] keep their keys unique. *)
Lemma kept_rows_unique {R K : Type} (key : R -> K) (keep : R -> bool)
    (rows : list R) :
  NoDup (map key rows) -> NoDup (map key (filter keep rows)).
Proof.
  induction rows as [|x l IH]; cbn; intro H; auto.
  inversion H as [|y l' Hy Hl]; subst. destruct (keep x); cbn; auto.
  constructor; auto. intro Hin. apply Hy.
  apply in_map_iff in Hin. destruct Hin as [z [Ez Hz]].
  apply filter_In in Hz. apply in_map_iff. exists z. tauto.
Qed.


Lemma present_In (col : list (option string)) (v : string) :
  In v (present col) <-> In (Some v) col.
Proof.
  induction col as [|[w|] col IH]; cbn; [tauto| |].
  - rewrite IH. split; intros [H|H]; auto; left; congruence.
  - rewrite IH. split; [auto|]. intros [H|H]; [discriminate|auto].
Qed.


Lemma NoDup_present_filter (p : note_row -> bool) (l : list note_row) :
  NoDup (present (map n_coredata_id l)) ->
  NoDup (present (map n_coredata_id (filter p l))).
Proof.
  induction l as [|x l IH]; cbn; intro H; auto.
  destruct (p x); cbn; destruct (n_coredata_id x) as [c|] eqn:E; auto.
  - inversion H as [|y l' Hy Hl]; subst. constructor; auto.
    intro Hin. apply Hy. apply present_In in Hin. apply present_In.
    apply in_map_iff in Hin. destruct Hin as [z [Ez Hz]].
    apply filter_In in Hz. apply in_map_iff. exists z. tauto.
  - inversion H; auto.
Qed.


Lemma present_app (col col' : list (option string)) :
  present (col ++ col') = (present col ++ present col')%list.
Proof.
  induction col as [|[v|] col IH]; cbn; auto. now rewrite IH.
Qed.


Lemma has_note_In (note_id : string) (db : store) :
  has_note note_id db = false -> ~ In note_id (map n_note_id (notes db)).
Proof.
  unfold has_note. intros H Hin. apply in_map_iff in Hin.
  destruct Hin as [r [Er Hr]].
  assert (existsb (fun r => String.eqb (n_note_id r) note_id) (notes db) = true)
    as Ht by (apply existsb_exists; exists r; split; auto;
              now apply String.eqb_eq).
  congruence.
Qed.


Lemma has_note_rows_of (note_id : string) (db : store) :
  has_note note_id db = false -> rows_of n_note_id note_id (notes db) = [].
Proof.
  unfold has_note, rows_of. induction (notes db) as [|r l IH]; cbn; auto.
  destruct (String.eqb (n_note_id r) note_id); [discriminate|auto].
Qed.


Lemma delete_note_unique_keys (note_id : string) (db db' : store) :
  delete_note note_id db = inr db' -> unique_keys db -> unique_keys db'.
Proof.
  unfold delete_note, delete_in_child. intros Hd H.
  destruct (has_note note_id db); [|injection Hd as <-; exact H].
  cbn [schema_foreign_key fk_on_delete] in Hd.
  destruct (foreign_keys db); injection Hd as <-;
    destruct H as (Hn & Hc & Hl & Hi & Ha & Hcat);
    unfold unique_keys;
    cbn [notes extracted_links extracted_images analysis note_categories];
    repeat split;
    first [assumption | now apply kept_rows_unique
           | now apply NoDup_present_filter].
Qed.


Section Further.

Variable text_of : string -> string.

(** What [imported] adds to each table. *)
Lemma imported_appended (note_id : string) (note_data : note_data_t)
    (self : self_t) :
  let db := conn self in
  let db' := conn (imported text_of note_id note_data self) in
  appended n_note_id note_id (notes db) (notes db')
  /\ appended l_note_id note_id (extracted_links db) (extracted_links db')
  /\ appended i_note_id note_id (extracted_images db) (extracted_images db')
  /\ appended a_note_id note_id (analysis db) (analysis db')
  /\ appended t_note_id note_id (extracted_tasks db) (extracted_tasks db')
  /\ appended d_note_id note_id (extracted_ideas db) (extracted_ideas db')
  /\ appended p_note_id note_id (extracted_projects db)
       (extracted_projects db')
  /\ appended c_note_id note_id (note_categories db) (note_categories db').
Proof.
  cbn zeta. unfold imported, with_children.
  cbn [conn notes extracted_links extracted_images analysis extracted_tasks
       extracted_ideas extracted_projects note_categories set_notes].
  split; [apply appended_app; intros r [<-|[]]; reflexivity|].
  split; [apply add_unique_appended, link_rows_own|].
  split; [apply add_unique_appended, image_rows_own|].
  split; [apply add_unique_appended, analysis_rows_own|].
  split; [apply appended_app, task_rows_own|].
  split; [apply appended_app, idea_rows_own|].
  split; [apply appended_app, project_rows_own|].
  apply add_unique_appended, category_rows_own.
Qed.

(** X1: [import_note] only adds rows, at the end of the tables, and every
    row it adds carries the record's note_id; so the rows of every other
    note, and the pragma, are as they were. *)
Theorem import_note_only_appends (note_data : note_data_t) (self : self_t) :
  let note_id := get_or (nd_note_id note_data) "" in
  let db := conn self in
  let db' := conn (import_note text_of note_data self) in
  appended n_note_id note_id (notes db) (notes db')
  /\ appended l_note_id note_id (extracted_links db) (extracted_links db')
  /\ appended i_note_id note_id (extracted_images db) (extracted_images db')
  /\ appended a_note_id note_id (analysis db) (analysis db')
  /\ appended t_note_id note_id (extracted_tasks db) (extracted_tasks db')
  /\ appended d_note_id note_id (extracted_ideas db) (extracted_ideas db')
  /\ appended p_note_id note_id (extracted_projects db)
       (extracted_projects db')
  /\ appended c_note_id note_id (note_categories db) (note_categories db')
  /\ forall other, other <> note_id -> note_view other db' = note_view other db.
Proof.
  intros note_id db db'.
  assert (appended n_note_id note_id (notes db) (notes db')
          /\ appended l_note_id note_id (extracted_links db) (extracted_links db')
          /\ appended i_note_id note_id (extracted_images db)
               (extracted_images db')
          /\ appended a_note_id note_id (analysis db) (analysis db')
          /\ appended t_note_id note_id (extracted_tasks db)
               (extracted_tasks db')
          /\ appended d_note_id note_id (extracted_ideas db)
               (extracted_ideas db')
          /\ appended p_note_id note_id (extracted_projects db)
               (extracted_projects db')
          /\ appended c_note_id note_id (note_categories db)
               (note_categories db')) as H.
  { unfold db', db.
    destruct (import_note_cases text_of note_data self)
      as [[_ E]|[_ [msg E]]]; rewrite E.
    - apply imported_appended.
    - cbn [conn add_error]. repeat split; apply appended_refl. }
  destruct H as (Hn & Hl & Hi & Ha & Ht & Hd & Hp & Hc).
  repeat (split; [assumption|]).
  intros other Hne. unfold note_view.
  rewrite (appended_rows_of_other _ _ _ _ _ Hne Hn),
    (appended_rows_of_other _ _ _ _ _ Hne Hl),
    (appended_rows_of_other _ _ _ _ _ Hne Hi),
    (appended_rows_of_other _ _ _ _ _ Hne Ha),
    (appended_rows_of_other _ _ _ _ _ Hne Ht),
    (appended_rows_of_other _ _ _ _ _ Hne Hd),
    (appended_rows_of_other _ _ _ _ _ Hne Hp),
    (appended_rows_of_other _ _ _ _ _ Hne Hc).
  unfold db', db. now rewrite import_note_foreign_keys.
Qed.

(** ** The uniqueness constraints hold in every store *)

Lemma imported_unique_keys (note_id : string) (note_data : note_data_t)
    (self : self_t) :
  note_inserts (note_row_of text_of note_id note_data) (conn self) = true ->
  unique_keys (conn self) ->
  unique_keys (conn (imported text_of note_id note_data self)).
Proof.
  intros Hins (Hn & Hc & Hl & Hi & Ha & Hcat).
  unfold unique_keys, imported, with_children.
  cbn [conn notes extracted_links extracted_images analysis note_categories
       set_notes].
  split; [|split; [|split; [|split; [|split]]]].
  - rewrite map_app. apply NoDup_snoc; auto.
    apply has_note_In. now apply note_inserts_absent in Hins.
  - rewrite map_app, present_app. cbn. apply NoDup_snoc; auto.
    intro Hin. apply present_In in Hin. apply in_map_iff in Hin.
    destruct Hin as [x [Ex Hx]].
    unfold note_inserts in Hins. apply andb_prop in Hins.
    destruct Hins as [Hins _]. apply andb_prop in Hins.
    destruct Hins as [_ Hins]. apply negb_true_iff in Hins.
    assert (existsb
              (fun x => same_non_null (n_coredata_id x)
                          (n_coredata_id (note_row_of text_of note_id note_data)))
              (notes (conn self)) = true) as Ht.
    { apply existsb_exists. exists x. split; auto. rewrite Ex. cbn.
      apply String.eqb_refl. }
    congruence.
  - apply (add_unique_nodup link_conflict link_key pair_eqb pair_eqb_spec);
      [reflexivity|assumption].
  - apply (add_unique_nodup image_conflict image_key pair_eqb pair_eqb_spec);
      [reflexivity|assumption].
  - apply (add_unique_nodup analysis_conflict a_note_id String.eqb
             String.eqb_eq); [reflexivity|assumption].
  - apply (add_unique_nodup category_conflict category_key pair_eqb
             pair_eqb_spec); [reflexivity|assumption].
Qed.

Lemma import_note_unique_keys (note_data : note_data_t) (self : self_t) :
  unique_keys (conn self) ->
  unique_keys (conn (import_note text_of note_data self)).
Proof.
  intro H.
  destruct (import_note_cases text_of note_data self)
    as [[G E]|[_ [msg E]]]; rewrite E.
  - now apply imported_unique_keys.
  - exact H.
Qed.

(** X2: in every store the connection can reach, the uniqueness
    constraints of the schema hold: one Note row per note_id and per
    non-null coredata_id, one link per (note_id, url), one image per
    (note_id, filename), one Analysis row per note, one category per
    (note_id, category). *)
Theorem reachable_stores_have_unique_keys (db : store) :
  reachable text_of db -> unique_keys db.
Proof.
  induction 1 as [|db _ IH|note_data self _ IH|note_id db db' _ IH Hd].
  - repeat split; constructor.
  - exact IH.
  - now apply import_note_unique_keys.
  - eapply delete_note_unique_keys; eauto.
Qed.

(** ** The counters and the error log of a run *)

Lemma import_note_accounting (note_data : note_data_t) (self : self_t) :
  let self' := import_note text_of note_data self in
  notes_imported (stats self') - notes_imported (stats self)
  = len (notes (conn self')) - len (notes (conn self))
  /\ ((goes_in text_of note_data self = true
       /\ notes_imported (stats self') = notes_imported (stats self) + 1)
      \/ (goes_in text_of note_data self = false
          /\ notes_imported (stats self') = notes_imported (stats self)))
  /\ len (errors (stats self')) - len (errors (stats self))
     = (1 - (notes_imported (stats self') - notes_imported (stats self)))
       + attempted text_of image_errors note_data self.
Proof.
  cbn zeta. unfold attempted.
  destruct (import_note_cases text_of note_data self)
    as [[G E]|[G [msg E]]]; rewrite E, G.
  - rewrite imported_notes. unfold imported, counts_children.
    cbn [stats log_errors add_counts count_note notes_imported errors].
    unfold len. rewrite !length_app. cbn [List.length].
    split; [lia|]. split; [left; split; [reflexivity|lia]|lia].
  - cbn [add_error conn stats notes_imported errors].
    unfold len. rewrite !length_app. cbn [List.length].
    split; [lia|]. split; [right; split; [reflexivity|lia]|lia].
Qed.

Lemma attempted_nonneg {R : Type}
    (rows : string -> note_data_t -> list R) (note_data : note_data_t)
    (self : self_t) :
  0 <= attempted text_of rows note_data self.
Proof. unfold attempted, len. destruct (goes_in _ _ _); lia. Qed.

Lemma statements_nonneg {R : Type}
    (rows : string -> note_data_t -> list R) (records : list note_data_t) :
  forall self, 0 <= statements text_of rows records self.
Proof.
  induction records as [|note_data rest IH]; intro self; cbn [statements].
  - lia.
  - pose proof (attempted_nonneg rows note_data self).
    specialize (IH (import_note text_of note_data self)). lia.
Qed.

(** Records whose images all have a size that fits log no image error. *)
Lemma statements_none (records : list note_data_t) :
  Forall (fun note_data =>
            image_errors (get_or (nd_note_id note_data) "") note_data = [])
         records ->
  forall self, statements text_of image_errors records self = 0.
Proof.
  induction 1 as [|note_data rest Hnd Hrest IH]; intro self;
    cbn [statements]; [reflexivity|].
  rewrite IH. unfold attempted. rewrite Hnd.
  now destruct (goes_in _ _ _).
Qed.

(** X3: over an import run, notes_imported grows by the number of Note
    rows inserted, and the error log grows by one line for every record
    whose Note row is not inserted and by one line for every image, of a
    record whose Note row is inserted, with a size that does not fit a
    64-bit integer.  So when every image size fits, the notes imported and
    the errors logged add up to the number of records. *)
Theorem run_accounts_for_every_record (records : list note_data_t) :
  forall self : self_t,
  let self' := import_all text_of records self in
  let imported := notes_imported (stats self') - notes_imported (stats self) in
  let logged := len (errors (stats self')) - len (errors (stats self)) in
  imported = len (notes (conn self')) - len (notes (conn self))
  /\ 0 <= imported <= len records
  /\ logged = (len records - imported)
              + statements text_of image_errors records self
  /\ (Forall (fun note_data =>
                image_errors (get_or (nd_note_id note_data) "") note_data = [])
             records ->
      imported + logged = len records).
Proof.
  assert (forall self,
             let self' := import_all text_of records self in
             let imported :=
               notes_imported (stats self') - notes_imported (stats self) in
             let logged :=
               len (errors (stats self')) - len (errors (stats self)) in
             imported = len (notes (conn self')) - len (notes (conn self))
             /\ 0 <= imported <= len records
             /\ logged = (len records - imported)
                         + statements text_of image_errors records self)
    as Hrun.
  { induction records as [|note_data rest IH]; intro self.
    - cbn. lia.
    - cbn zeta. cbn [import_all fold_left statements].
      specialize (IH (import_note text_of note_data self)). cbn zeta in IH.
      unfold import_all in IH.
      pose proof (import_note_accounting note_data self) as Hstep.
      cbn zeta in Hstep. unfold len in *. cbn [List.length].
      destruct IH as (IH1 & IH2 & IH3).
      destruct Hstep as (H1 & [[_ H2]|[_ H2]] & H3); repeat split; lia. }
  intro self. cbn zeta. destruct (Hrun self) as (H1 & H2 & H3).
  split; [exact H1|]. split; [exact H2|]. split; [exact H3|].
  intro Hfit. rewrite (statements_none records Hfit) in H3. lia.
Qed.

(** ** The rows of one record *)

Lemma task_rows_eq (note_id : string) (note_data : note_data_t) :
  task_rows note_id note_data
  = map (fun e => mk_task_row note_id (entry_text "text" e))
        (get_or (an_tasks (get_or (nd_analysis note_data) no_analysis)) []).
Proof.
  unfold task_rows. destruct (analysis_truthy _) eqn:T; auto.
  unfold analysis_truthy in T.
  destruct (an_tasks _); [|reflexivity].
  cbn in T. rewrite !orb_true_r in T. discriminate.
Qed.

Lemma idea_rows_eq (note_id : string) (note_data : note_data_t) :
  idea_rows note_id note_data
  = map (fun e => mk_idea_row note_id (entry_text "text" e))
        (get_or (an_ideas (get_or (nd_analysis note_data) no_analysis)) []).
Proof.
  unfold idea_rows. destruct (analysis_truthy _) eqn:T; auto.
  unfold analysis_truthy in T.
  destruct (an_ideas _); [|reflexivity].
  cbn in T. rewrite !orb_true_r in T. discriminate.
Qed.

Lemma project_rows_eq (note_id : string) (note_data : note_data_t) :
  project_rows note_id note_data
  = map (fun e => mk_project_row note_id (entry_text "name" e))
        (get_or (an_projects (get_or (nd_analysis note_data) no_analysis)) []).
Proof.
  unfold project_rows. destruct (analysis_truthy _) eqn:T; auto.
  unfold analysis_truthy in T.
  destruct (an_projects _); [|reflexivity].
  cbn in T. rewrite !orb_true_r in T. discriminate.
Qed.

(** X4: when the Note row of a record is inserted into a store with
    referential integrity, the task, idea and project rows of the note are
    the record's entries, one row each, in the order of the input and with
    repetitions kept: a bare string as it is, an object by its [text] field
    ([name] for a project), the empty string when the field is missing. *)
Theorem entries_are_stored_in_order (note_data : note_data_t) (self : self_t) :
  let note_id := get_or (nd_note_id note_data) "" in
  let a := get_or (nd_analysis note_data) no_analysis in
  note_inserts (note_row_of text_of note_id note_data) (conn self) = true ->
  integrity (conn self) = true ->
  let db' := conn (import_note text_of note_data self) in
  rows_of t_note_id note_id (extracted_tasks db')
  = map (fun e => mk_task_row note_id (entry_text "text" e))
        (get_or (an_tasks a) [])
  /\ rows_of d_note_id note_id (extracted_ideas db')
     = map (fun e => mk_idea_row note_id (entry_text "text" e))
           (get_or (an_ideas a) [])
  /\ rows_of p_note_id note_id (extracted_projects db')
     = map (fun e => mk_project_row note_id (entry_text "name" e))
           (get_or (an_projects a) [])
  /\ forall fields key,
       assoc key fields = None -> entry_text key (Object fields) = "".
Proof.
  intros note_id a Hins Hint db'. unfold db'.
  rewrite import_note_inserted by assumption. fold note_id.
  pose proof (note_inserts_absent _ _ Hins) as Habs.
  cbn [note_row_of n_note_id] in Habs.
  destruct (integrity_childless note_id (conn self) Hint Habs)
    as (_ & _ & _ & Ht & Hd & Hp & _).
  unfold imported, with_children.
  cbn [conn extracted_tasks extracted_ideas extracted_projects set_notes].
  rewrite !rows_of_app, Ht, Hd, Hp. cbn [app].
  rewrite (rows_of_own _ _ _ (task_rows_own note_id note_data)),
    (rows_of_own _ _ _ (idea_rows_own note_id note_data)),
    (rows_of_own _ _ _ (project_rows_own note_id note_data)).
  rewrite task_rows_eq, idea_rows_eq, project_rows_eq.
  repeat split. intros fields key E. cbn. now rewrite E.
Qed.

(** X5: after a record's Note row is inserted (the record has a note_id,
    its original_index fits a 64-bit integer and the insert meets no
    conflict), the store has exactly one Note row with the record's
    note_id, and it holds the record's values,
    or the defaults where a key is missing: title "Untitled", folder
    "Notes", account "Unknown", status "pending", original_index 0,
    processed 0, the content as the cleaned content, the empty string as
    content and as coredata_id. *)
Theorem the_note_row_is_stored (note_data : note_data_t) (self : self_t) :
  let note_id := get_or (nd_note_id note_data) "" in
  note_inserts (note_row_of text_of note_id note_data) (conn self) = true ->
  exists r,
    rows_of n_note_id note_id
      (notes (conn (import_note text_of note_data self))) = [r]
    /\ n_title r = get_or (nd_title note_data) "Untitled"
    /\ n_folder r = get_or (nd_folder note_data) "Notes"
    /\ n_account r = get_or (nd_account note_data) "Unknown"
    /\ n_status r = get_or (nd_status note_data) "pending"
    /\ n_original_index r = get_or (nd_original_index note_data) 0
    /\ n_processed r = (if get_or (nd_processed note_data) false then 1 else 0)
    /\ n_content r = get_or (nd_content note_data) ""
    /\ n_content_cleaned r
       = get_or (nd_content_cleaned note_data) (get_or (nd_content note_data) "")
    /\ n_coredata_id r = Some (get_or (nd_id note_data) "")
    /\ n_primary_category r = nd_primary_category note_data
    /\ n_plain_text r = html_to_text text_of (n_content r)
    /\ n_content_length r = len (chars (n_plain_text r)).
Proof.
  intros note_id Hins. exists (note_row_of text_of note_id note_data).
  split.
  - rewrite import_note_inserted by assumption. fold note_id.
    rewrite imported_notes, rows_of_app.
    pose proof (note_inserts_absent _ _ Hins) as Habs.
    cbn [note_row_of n_note_id] in Habs.
    rewrite (has_note_rows_of _ _ Habs). cbn [app].
    apply rows_of_own. intros r [<-|[]]. reflexivity.
  - cbn. repeat split. unfold len, chars.
    f_equal. generalize (html_to_text text_of (get_or (nd_content note_data) "")).
    intro s. induction s as [|c s IH]; cbn; congruence.
Qed.

End Further.

(** * Further properties of the date parser *)

(** A property of every integer of a range follows from its instances. *)
Lemma Z_cases (P : Z -> Prop) (lo : Z) (count : nat) :
  (forall i, (i < count)%nat -> P (lo + Z.of_nat i)) ->
  forall n, lo <= n < lo + Z.of_nat count -> P n.
Proof.
  intros H n Hn. replace n with (lo + Z.of_nat (Z.to_nat (n - lo))) by lia.
  apply H. lia.
Qed.

(** [by_cases lo k count]: a goal over [lo <= n < lo + count], by its
    [count] instances ([k] is [count], as a number of repetitions). *)
Tactic Notation "by_cases" constr(lo) integer(k) constr(count) :=
  match goal with
  | |- forall n, _ -> @?P n =>
      let Hc := fresh "Hc" in
      assert (forall n, lo <= n < lo + Z.of_nat count -> P n) as Hc;
      [ apply (Z_cases P lo count);
        let i := fresh "i" in
        intros i ?;
        do k (destruct i as [|i]; [vm_compute; try reflexivity; auto|]);
        lia
      | let n := fresh "n" in
        let H := fresh "H" in
        intros n H; apply Hc; lia ]
  end.

Lemma digit_char_facts :
  forall k, 0 <= k < 10 ->
    is_digit (Strptime.digit_char k) = true
    /\ Strptime.digit_val (Strptime.digit_char k) = k
    /\ is_alpha (Strptime.digit_char k) = false
    /\ is_space (Strptime.digit_char k) = false
    /\ code (Strptime.digit_char k) = Z.to_N (48 + k).
Proof. by_cases 0 10 10%nat. Qed.

Lemma digit_char_mod (n : Z) :
  Strptime.digit_char n = Strptime.digit_char (n mod 10).
Proof.
  unfold Strptime.digit_char. now rewrite Z.mod_mod by lia.
Qed.

Lemma digit_char_digit (n : Z) : is_digit (Strptime.digit_char n) = true.
Proof.
  rewrite digit_char_mod. apply digit_char_facts. apply Z.mod_pos_bound. lia.
Qed.

Lemma digit_char_val (n : Z) :
  Strptime.digit_val (Strptime.digit_char n) = n mod 10.
Proof.
  rewrite digit_char_mod. apply digit_char_facts. apply Z.mod_pos_bound. lia.
Qed.

Lemma digit_char_not_alpha (n : Z) : is_alpha (Strptime.digit_char n) = false.
Proof.
  rewrite digit_char_mod. apply digit_char_facts. apply Z.mod_pos_bound. lia.
Qed.

Lemma digit_char_not_space (n : Z) : is_space (Strptime.digit_char n) = false.
Proof.
  rewrite digit_char_mod. apply digit_char_facts. apply Z.mod_pos_bound. lia.
Qed.

(** ** The first match of a format *)

Lemma run_dir (k : ascii) (ts : list Strptime.token) (d d' : Strptime.found_dict)
    (s r : list ascii) (out : Strptime.found_dict * list ascii) :
  hd_error (Strptime.directive k d s) = Some (d', r) ->
  hd_error (Strptime.run ts d' r) = Some out ->
  hd_error (Strptime.run (Strptime.Dir k :: ts) d s) = Some out.
Proof.
  cbn [Strptime.run]. destruct (Strptime.directive k d s) as [|m ms]; cbn.
  - discriminate.
  - intro E. injection E as ->. cbn [fst snd].
    destruct (Strptime.run ts d' r); cbn; [discriminate|auto].
Qed.

Lemma run_lit (c : ascii) (ts : list Strptime.token) (d : Strptime.found_dict)
    (s : list ascii) (out : Strptime.found_dict * list ascii) :
  hd_error (Strptime.run ts d s) = Some out ->
  hd_error (Strptime.run (Strptime.Lit c :: ts) d (c :: s)) = Some out.
Proof. cbn [Strptime.run]. now rewrite Ascii.eqb_refl. Qed.

(** One blank, then something that is not a blank. *)
Lemma run_ws (c : ascii) (ts : list Strptime.token) (d : Strptime.found_dict)
    (s : list ascii) (out : Strptime.found_dict * list ascii) :
  is_space c = true ->
  hd_error (map is_space s) <> Some true ->
  hd_error (Strptime.run ts d s) = Some out ->
  hd_error (Strptime.run (Strptime.Ws :: ts) d (c :: s)) = Some out.
Proof.
  intros Hc Hs H. cbn [Strptime.run Strptime.spaces]. rewrite Hc.
  replace (Strptime.spaces (Strptime.run ts d) s) with
    (@nil (Strptime.found_dict * list ascii)); [exact H|].
  destruct s as [|x s]; [reflexivity|]. cbn in *.
  destruct (is_space x); [congruence|reflexivity].
Qed.

Lemma strptime_first (data format : string) (d : Strptime.found_dict) :
  hd_error (Strptime.run (Strptime.tokens (chars format)) [] (chars data))
  = Some (d, []) ->
  Strptime.valid_datetime (Strptime.of_found d) = true ->
  strptime data format = Some (Strptime.of_found d).
Proof.
  unfold strptime. intros H Hv.
  destruct (Strptime.run _ _ _) as [|[d' r] l]; [discriminate|].
  cbn in H. injection H as -> ->. now rewrite Hv.
Qed.

(** ** The numeric groups on zero-padded fields *)

Lemma month_pad2 :
  forall n, 1 <= n <= 12 ->
    forall d r,
      hd_error (Strptime.directive "m" d (Strptime.pad2 n ++ r)%list)
      = Some (("m"%char, n) :: d, r).
Proof. by_cases 1 12 12%nat. Qed.

Lemma day_pad2 :
  forall n, 1 <= n <= 31 ->
    forall d r,
      hd_error (Strptime.directive "d" d (Strptime.pad2 n ++ r)%list)
      = Some (("d"%char, n) :: d, r).
Proof. by_cases 1 31 31%nat. Qed.

Lemma hour_pad2 :
  forall n, 0 <= n <= 23 ->
    forall d r,
      hd_error (Strptime.directive "H" d (Strptime.pad2 n ++ r)%list)
      = Some (("H"%char, n) :: d, r).
Proof. by_cases 0 24 24%nat. Qed.

Lemma minute_pad2 :
  forall n, 0 <= n <= 59 ->
    forall d r,
      hd_error (Strptime.directive "M" d (Strptime.pad2 n ++ r)%list)
      = Some (("M"%char, n) :: d, r).
Proof. by_cases 0 60 60%nat. Qed.

Lemma second_pad2 :
  forall n, 0 <= n <= 59 ->
    forall d r,
      hd_error (Strptime.directive "S" d (Strptime.pad2 n ++ r)%list)
      = Some (("S"%char, n) :: d, r).
Proof. by_cases 0 60 60%nat. Qed.

Lemma four_digits (y : Z) :
  0 <= y <= 9999 ->
  Strptime.int_of (Strptime.pad4 y) = y.
Proof.
  intro Hy. unfold Strptime.int_of, Strptime.pad4. cbn [fold_left].
  rewrite !digit_char_digit, !digit_char_val.
  pose proof (Z.div_mod y 10). pose proof (Z.div_mod (y / 10) 10).
  pose proof (Z.div_mod (y / 100) 10). pose proof (Z.div_mod (y / 1000) 10).
  assert (y / 10 / 10 = y / 100) by (rewrite Z.div_div by lia; reflexivity).
  assert (y / 100 / 10 = y / 1000) by (rewrite Z.div_div by lia; reflexivity).
  assert (y / 1000 / 10 = 0) by (rewrite Z.div_div by lia; apply Z.div_small; lia).
  lia.
Qed.

Lemma year_pad4 (y : Z) (d : Strptime.found_dict) (r : list ascii) :
  0 <= y <= 9999 ->
  hd_error (Strptime.directive "Y" d (Strptime.pad4 y ++ r)%list)
  = Some (("Y"%char, y) :: d, r).
Proof.
  intro Hy.
  change (Strptime.directive "Y" d) with
    (Strptime.number "Y"
       [[Strptime.d09; Strptime.d09; Strptime.d09; Strptime.d09]] d).
  unfold Strptime.number.
  cbn [flat_map Strptime.pad4 app Strptime.classes].
  unfold Strptime.d09. fold is_digit. rewrite !digit_char_digit.
  cbn [app hd_error]. fold (Strptime.pad4 y). now rewrite four_digits.
Qed.

(** ** What the parser returns is a date of the calendar *)

(** [valid_datetime], spelt out. *)
Definition in_calendar (t : datetime) : Prop :=
  1 <= Strptime.year t <= 9999
  /\ 1 <= Strptime.month t <= 12
  /\ 1 <= Strptime.day t
     <= Strptime.days_in_month (Strptime.year t) (Strptime.month t)
  /\ 0 <= Strptime.hour t <= 23
  /\ 0 <= Strptime.minute t <= 59
  /\ 0 <= Strptime.second t <= 59.

Lemma valid_in_calendar (t : datetime) :
  Strptime.valid_datetime t = true <-> in_calendar t.
Proof.
  unfold Strptime.valid_datetime, in_calendar.
  rewrite !andb_true_iff, !Z.leb_le. tauto.
Qed.

Lemma days_in_month_bound (y m : Z) : 28 <= Strptime.days_in_month y m <= 31.
Proof.
  unfold Strptime.days_in_month.
  destruct (m =? 2); [destruct (Strptime.is_leap y); lia|].
  destruct ((m =? 4) || (m =? 6) || (m =? 9) || (m =? 11)); lia.
Qed.

Lemma strptime_valid (data format : string) (t : datetime) :
  strptime data format = Some t -> Strptime.valid_datetime t = true.
Proof.
  unfold strptime.
  destruct (Strptime.run _ _ _) as [|[d [|c r]] l]; try discriminate.
  destruct (Strptime.valid_datetime (Strptime.of_found d)) eqn:V;
    [|discriminate].
  intro E. injection E as <-. exact V.
Qed.

Lemma first_format_valid (data : string) (formats : list string) (t : datetime) :
  first_format data formats = Some t -> Strptime.valid_datetime t = true.
Proof.
  induction formats as [|f formats IH]; cbn; [discriminate|].
  destruct (strptime data f) eqn:E; [|exact IH].
  intro H. injection H as <-. eapply strptime_valid; eauto.
Qed.

Lemma combine_valid (d t : datetime) :
  Strptime.valid_datetime d = true ->
  Strptime.valid_datetime t = true ->
  Strptime.valid_datetime (Strptime.combine d t) = true.
Proof.
  rewrite !valid_in_calendar. unfold in_calendar. cbn. tauto.
Qed.

Lemma parse_macos_date_valid (date_str : string) (t : datetime) :
  parse_macos_date date_str = Some t -> Strptime.valid_datetime t = true.
Proof.
  unfold parse_macos_date. destruct date_str as [|c s]; [discriminate|].
  unfold parse_at_block.
  destruct (contains _ _).
  - destruct (split _ _) as [|date_part [|time_part [|x l]]];
      try discriminate.
    destruct (first_format (str date_part) date_formats) as [parsed_date|]
      eqn:Ed; [|discriminate].
    destruct (first_format (str time_part) time_formats) as [time_obj|] eqn:Et.
    + intro E. injection E as <-.
      apply combine_valid; eapply first_format_valid; eauto.
    + apply first_format_valid.
  - apply first_format_valid.
Qed.

(** ** The stored text parses back *)

Lemma parse_non_empty (date_str : string) :
  date_str <> "" ->
  parse_macos_date date_str
  = match parse_at_block (strip_weekday (chars date_str)) with
    | Return r => r
    | FallThrough => first_format date_str fallback_formats
    end.
Proof. destruct date_str; [congruence|reflexivity]. Qed.

Lemma starts_with_incl (p s : list ascii) :
  starts_with p s = true -> incl p s.
Proof.
  revert s. induction p as [|x p IH]; intros s H; [intros c []|].
  destruct s as [|c s]; [discriminate|]. cbn in H.
  apply andb_prop in H. destruct H as [E H]. apply Ascii.eqb_eq in E. subst.
  intros a [<-|Ha]; [now left|right; now apply (IH s)].
Qed.

Lemma contains_incl (sep s : list ascii) :
  contains sep s = true -> incl sep s.
Proof.
  induction s as [|c s IH]; cbn; intro H.
  - now apply starts_with_incl.
  - apply orb_prop in H. destruct H as [H|H].
    + now apply starts_with_incl.
    + intros a Ha. right. now apply IH.
Qed.

Lemma digit_char_is_no_letter (n : Z) (c : ascii) :
  is_digit c = false -> Strptime.digit_char n <> c.
Proof.
  intros Hc E. pose proof (digit_char_digit n) as D. congruence.
Qed.

(** The characters of the text that is stored for a timestamp. *)
Definition iso_chars (t : datetime) : list ascii :=
  Strptime.pad4 (Strptime.year t) ++ "-"%char
  :: Strptime.pad2 (Strptime.month t) ++ "-"%char
  :: Strptime.pad2 (Strptime.day t) ++ " "%char
  :: Strptime.pad2 (Strptime.hour t) ++ ":"%char
  :: Strptime.pad2 (Strptime.minute t) ++ ":"%char
  :: Strptime.pad2 (Strptime.second t).

Lemma chars_isoformat (t : datetime) : chars (isoformat t) = iso_chars t.
Proof.
  unfold isoformat, chars, str. now rewrite list_ascii_of_string_of_list_ascii.
Qed.

Lemma iso_chars_no_a (t : datetime) : ~ In "a"%char (iso_chars t).
Proof.
  unfold iso_chars, Strptime.pad4, Strptime.pad2. cbn [app In].
  intro H.
  repeat (destruct H as [H|H];
          [first [discriminate H
                 | now apply (digit_char_is_no_letter _ "a"%char) in H]|]).
  exact H.
Qed.

Lemma iso_first_match (t : datetime) :
  in_calendar t ->
  hd_error
    (Strptime.run (Strptime.tokens (chars "%Y-%m-%d %H:%M:%S")) []
       (iso_chars t))
  = Some ([("S"%char, Strptime.second t); ("M"%char, Strptime.minute t);
           ("H"%char, Strptime.hour t); ("d"%char, Strptime.day t);
           ("m"%char, Strptime.month t); ("Y"%char, Strptime.year t)], []).
Proof.
  intros (Hy & Hm & Hd & HH & HM & HS).
  pose proof (days_in_month_bound (Strptime.year t) (Strptime.month t)).
  change (Strptime.tokens (chars "%Y-%m-%d %H:%M:%S")) with
    [Strptime.Dir "Y"; Strptime.Lit "-"; Strptime.Dir "m"; Strptime.Lit "-";
     Strptime.Dir "d"; Strptime.Ws; Strptime.Dir "H"; Strptime.Lit ":";
     Strptime.Dir "M"; Strptime.Lit ":"; Strptime.Dir "S"].
  unfold iso_chars.
  eapply run_dir; [apply year_pad4; lia|]. apply run_lit.
  eapply run_dir; [apply month_pad2; lia|]. apply run_lit.
  eapply run_dir; [apply day_pad2; lia|].
  apply run_ws; [reflexivity| |].
  { cbn. rewrite digit_char_not_space. discriminate. }
  eapply run_dir; [apply hour_pad2; lia|]. apply run_lit.
  eapply run_dir; [apply minute_pad2; lia|]. apply run_lit.
  rewrite <- (app_nil_r (Strptime.pad2 (Strptime.second t))).
  eapply run_dir; [apply second_pad2; lia|]. reflexivity.
Qed.

(** X7: the text stored for a timestamp parses back to it: for every date
    of the calendar, [parse_macos_date] maps the ISO text
    YYYY-MM-DD HH:MM:SS that the store holds to that same timestamp. *)
Theorem stored_text_parses_back (t : datetime) :
  in_calendar t -> parse_macos_date (isoformat t) = Some t.
Proof.
  intro Hc.
  assert (isoformat t <> "") as Hne.
  { intro E. pose proof (chars_isoformat t) as C. rewrite E in C.
    discriminate C. }
  rewrite (parse_non_empty _ Hne), chars_isoformat.
  assert (strip_weekday (iso_chars t) = iso_chars t) as ->.
  { unfold iso_chars, Strptime.pad4. cbn [app strip_weekday].
    now rewrite digit_char_not_alpha. }
  unfold parse_at_block.
  destruct (contains (chars " at ") (iso_chars t)) eqn:C.
  { exfalso. apply (iso_chars_no_a t). apply (contains_incl _ _ C).
    cbn. auto. }
  cbn [fallback_formats first_format].
  rewrite (strptime_first (isoformat t) "%Y-%m-%d %H:%M:%S"
             [("S"%char, Strptime.second t); ("M"%char, Strptime.minute t);
              ("H"%char, Strptime.hour t); ("d"%char, Strptime.day t);
              ("m"%char, Strptime.month t); ("Y"%char, Strptime.year t)]).
  - destruct t. reflexivity.
  - rewrite chars_isoformat. now apply iso_first_match.
  - apply valid_in_calendar. destruct t. exact Hc.
Qed.

(** ** The order of the stored texts is the order of time *)

(** Comparison by a first key, then by the rest. *)
Definition and_then (c rest : comparison) : comparison :=
  match c with
  | Eq => rest
  | _ => c
  end.

(** The comparison of two timestamps, field by field. *)
Definition dt_compare (a b : datetime) : comparison :=
  and_then (Strptime.year a ?= Strptime.year b)
    (and_then (Strptime.month a ?= Strptime.month b)
       (and_then (Strptime.day a ?= Strptime.day b)
          (and_then (Strptime.hour a ?= Strptime.hour b)
             (and_then (Strptime.minute a ?= Strptime.minute b)
                (Strptime.second a ?= Strptime.second b))))).

Definition text_compare (l l' : list ascii) : comparison :=
  String.compare (str l) (str l').

Lemma text_compare_cons (c c' : ascii) (l l' : list ascii) :
  text_compare (c :: l) (c' :: l')
  = and_then (Ascii.compare c c') (text_compare l l').
Proof.
  unfold text_compare, and_then. cbn. now destruct (Ascii.compare c c').
Qed.

Lemma text_compare_same (c : ascii) (l l' : list ascii) :
  text_compare (c :: l) (c :: l') = text_compare l l'.
Proof.
  rewrite text_compare_cons.
  replace (Ascii.compare c c) with Eq; [reflexivity|].
  symmetry. unfold Ascii.compare. apply N.compare_refl.
Qed.

Lemma compare_digit_chars (a b : Z) :
  Ascii.compare (Strptime.digit_char a) (Strptime.digit_char b)
  = (a mod 10 ?= b mod 10).
Proof.
  rewrite (digit_char_mod a), (digit_char_mod b).
  pose proof (Z.mod_pos_bound a 10 ltac:(lia)) as Ha.
  pose proof (Z.mod_pos_bound b 10 ltac:(lia)) as Hb.
  unfold Ascii.compare.
  destruct (digit_char_facts _ Ha) as (_ & _ & _ & _ & Ea).
  destruct (digit_char_facts _ Hb) as (_ & _ & _ & _ & Eb).
  unfold code in Ea, Eb. rewrite Ea, Eb.
  rewrite Z2N.inj_compare by lia. apply Z.add_compare_mono_l.
Qed.

Ltac compare_cases :=
  repeat match goal with
         | |- context [?x ?= ?y] => destruct (Z.compare_spec x y)
         end;
  cbn [and_then]; first [reflexivity | exfalso; lia].

Lemma two_digits_compare (a b : Z) (c : comparison) :
  0 <= a <= 99 -> 0 <= b <= 99 ->
  and_then ((a / 10) mod 10 ?= (b / 10) mod 10)
    (and_then (a mod 10 ?= b mod 10) c)
  = and_then (a ?= b) c.
Proof.
  intros Ha Hb.
  rewrite (Z.mod_small (a / 10)) by (split; [apply Z.div_pos; lia|apply Z.div_lt_upper_bound; lia]).
  rewrite (Z.mod_small (b / 10)) by (split; [apply Z.div_pos; lia|apply Z.div_lt_upper_bound; lia]).
  pose proof (Z.div_mod a 10 ltac:(lia)).
  pose proof (Z.div_mod b 10 ltac:(lia)).
  pose proof (Z.mod_pos_bound a 10 ltac:(lia)).
  pose proof (Z.mod_pos_bound b 10 ltac:(lia)).
  generalize dependent (a / 10). generalize dependent (b / 10).
  generalize dependent (a mod 10). generalize dependent (b mod 10).
  intros. compare_cases.
Qed.

Lemma pad2_compare (a b : Z) (r r' : list ascii) :
  0 <= a <= 99 -> 0 <= b <= 99 ->
  text_compare (Strptime.pad2 a ++ r) (Strptime.pad2 b ++ r')
  = and_then (a ?= b) (text_compare r r').
Proof.
  intros Ha Hb. unfold Strptime.pad2. cbn [app].
  rewrite !text_compare_cons, !compare_digit_chars.
  now apply two_digits_compare.
Qed.

Lemma pad4_compare (a b : Z) (r r' : list ascii) :
  0 <= a <= 9999 -> 0 <= b <= 9999 ->
  text_compare (Strptime.pad4 a ++ r) (Strptime.pad4 b ++ r')
  = and_then (a ?= b) (text_compare r r').
Proof.
  intros Ha Hb. unfold Strptime.pad4. cbn [app].
  rewrite !text_compare_cons, !compare_digit_chars.
  assert (forall x, 0 <= x <= 9999 ->
            exists h l, x = 100 * h + l /\ 0 <= h <= 99 /\ 0 <= l <= 99
                        /\ (x / 1000) mod 10 = (h / 10) mod 10
                        /\ (x / 100) mod 10 = h mod 10
                        /\ (x / 10) mod 10 = (l / 10) mod 10
                        /\ x mod 10 = l mod 10) as Hsplit.
  { intros x Hx. exists (x / 100), (x mod 100).
    pose proof (Z.div_mod x 100 ltac:(lia)).
    pose proof (Z.mod_pos_bound x 100 ltac:(lia)).
    assert (0 <= x / 100 <= 99)
      by (split; [apply Z.div_pos; lia|apply Z.lt_succ_r, Z.div_lt_upper_bound; lia]).
    repeat split; try lia.
    - rewrite (Z.div_div x 100 10) by lia. reflexivity.
    - replace x with (x mod 100 + (x / 100) * 10 * 10) at 1 by lia.
      rewrite Z.div_add by lia.
      replace (x mod 100 / 10 + x / 100 * 10) with
        (x mod 100 / 10 + (x / 100) * 10) by lia.
      now rewrite Z.mod_add by lia.
    - replace x with (x mod 100 + (x / 100 * 10) * 10) at 1 by lia.
      now rewrite Z.mod_add by lia. }
  destruct (Hsplit a Ha) as (ha & la & -> & Hha & Hla & E1 & E2 & E3 & E4).
  destruct (Hsplit b Hb) as (hb & lb & -> & Hhb & Hlb & F1 & F2 & F3 & F4).
  rewrite E1, E2, E3, E4, F1, F2, F3, F4.
  rewrite (two_digits_compare ha hb) by assumption.
  rewrite (two_digits_compare la lb) by assumption.
  compare_cases.
Qed.

Lemma isoformat_compare (a b : datetime) :
  in_calendar a -> in_calendar b ->
  String.compare (isoformat a) (isoformat b) = dt_compare a b.
Proof.
  intros (Hy & Hm & Hd & HH & HM & HS) (Hy' & Hm' & Hd' & HH' & HM' & HS').
  pose proof (days_in_month_bound (Strptime.year a) (Strptime.month a)).
  pose proof (days_in_month_bound (Strptime.year b) (Strptime.month b)).
  unfold isoformat. fold (text_compare
    (Strptime.pad4 (Strptime.year a) ++ chars "-" ++
     Strptime.pad2 (Strptime.month a) ++ chars "-" ++
     Strptime.pad2 (Strptime.day a) ++ chars " " ++
     Strptime.pad2 (Strptime.hour a) ++ chars ":" ++
     Strptime.pad2 (Strptime.minute a) ++ chars ":" ++
     Strptime.pad2 (Strptime.second a))
    (Strptime.pad4 (Strptime.year b) ++ chars "-" ++
     Strptime.pad2 (Strptime.month b) ++ chars "-" ++
     Strptime.pad2 (Strptime.day b) ++ chars " " ++
     Strptime.pad2 (Strptime.hour b) ++ chars ":" ++
     Strptime.pad2 (Strptime.minute b) ++ chars ":" ++
     Strptime.pad2 (Strptime.second b))).
  cbn [chars list_ascii_of_string app].
  rewrite pad4_compare by lia. rewrite text_compare_same.
  rewrite pad2_compare by lia. rewrite text_compare_same.
  rewrite pad2_compare by lia. rewrite text_compare_same.
  rewrite pad2_compare by lia. rewrite text_compare_same.
  rewrite pad2_compare by lia. rewrite text_compare_same.
  rewrite <- (app_nil_r (Strptime.pad2 (Strptime.second a))).
  rewrite <- (app_nil_r (Strptime.pad2 (Strptime.second b))).
  rewrite pad2_compare by lia.
  unfold dt_compare. cbn. compare_cases.
Qed.

(** X8: the texts that the store holds for two timestamps compare as the
    timestamps do: the text order that MIN, MAX and ORDER BY use on the
    timestamp columns is the order of time, and two timestamps with the
    same text are the same. *)
Theorem stored_texts_order_as_time (a b : datetime) :
  in_calendar a -> in_calendar b ->
  String.compare (isoformat a) (isoformat b) = dt_compare a b
  /\ (isoformat a = isoformat b -> a = b).
Proof.
  intros Ha Hb.
  pose proof (isoformat_compare a b Ha Hb) as E.
  split; [exact E|].
  intro Same. rewrite Same in E.
  assert (String.compare (isoformat b) (isoformat b) = Eq) as R.
  { apply String_as_OT.cmp_eq. reflexivity. }
  rewrite R in E. symmetry in E. unfold dt_compare in E.
  destruct a as [y m d h mi s], b as [y' m' d' h' mi' s']. cbn in E.
  destruct (Z.compare_spec y y'); try discriminate.
  destruct (Z.compare_spec m m'); try discriminate.
  destruct (Z.compare_spec d d'); try discriminate.
  destruct (Z.compare_spec h h'); try discriminate.
  destruct (Z.compare_spec mi mi'); try discriminate.
  destruct (Z.compare_spec s s'); try discriminate.
  subst. reflexivity.
Qed.

(** ** The timeline of a store *)

(** The parsed columns agree with the raw ones. *)
Definition dates_parsed (db : store) : Prop :=
  forall r, In r (notes db) ->
    n_created_datetime r
    = option_map isoformat (parse_macos_date (n_created_raw r))
    /\ n_modified_datetime r
       = option_map isoformat (parse_macos_date (n_modified_raw r)).

(** The aggregates skip NULL, so the filter of the query changes nothing
    for the created column. *)
Lemma aggregate_created (pick : string -> string -> string)
    (rows : list note_row) :
  aggregate pick
    (map n_created_datetime
       (filter (fun r => is_some (n_created_datetime r)) rows))
  = aggregate pick (map n_created_datetime rows).
Proof.
  induction rows as [|r rows IH]; auto. cbn.
  destruct (n_created_datetime r) eqn:E; cbn; rewrite ?E; now rewrite IH.
Qed.

Section Timeline.

Variable text_of : string -> string.

Lemma import_note_dates_parsed (note_data : note_data_t) (self : self_t) :
  dates_parsed (conn self) ->
  dates_parsed (conn (import_note text_of note_data self)).
Proof.
  intro H.
  destruct (import_note_cases text_of note_data self)
    as [[_ E]|[_ [msg E]]]; rewrite E; [|exact H].
  intros r Hr. rewrite imported_notes in Hr. apply in_app_or in Hr.
  destruct Hr as [Hr|[<-|[]]]; [now apply H|]. split; reflexivity.
Qed.

Lemma delete_note_dates_parsed (note_id : string) (db db' : store) :
  delete_note note_id db = inr db' -> dates_parsed db -> dates_parsed db'.
Proof.
  unfold delete_note, delete_in_child. intros Hd H.
  destruct (has_note note_id db); [|injection Hd as <-; exact H].
  cbn [schema_foreign_key fk_on_delete] in Hd.
  destruct (foreign_keys db); injection Hd as <-;
    intros r Hr; cbn [notes] in Hr; apply filter_In in Hr; now apply H.
Qed.

(** X9: in every store the connection can reach, each Note row's parsed
    timestamps are the parse of its raw date strings: the ISO text of the
    parsed date, or NULL when the raw string does not parse. *)
Theorem parsed_columns_agree_with_raw (db : store) :
  reachable text_of db -> dates_parsed db.
Proof.
  induction 1 as [|db _ IH|note_data self _ IH|note_id db db' _ IH Hd].
  - intros r [].
  - exact IH.
  - now apply import_note_dates_parsed.
  - eapply delete_note_dates_parsed; eauto.
Qed.

Lemma present_column {A : Type} (col : A -> option string) (rows : list A)
    (v : string) :
  In v (present (map col rows)) <-> exists r, In r rows /\ col r = Some v.
Proof.
  split; intro H.
  - apply present_In in H. apply in_map_iff in H. destruct H as [r [E Hr]].
    exists r. split; assumption.
  - destruct H as [r [Hr E]]. apply present_In. apply in_map_iff.
    exists r. split; assumption.
Qed.

Lemma leb_not_gt (a b : datetime) :
  in_calendar a -> in_calendar b ->
  String.leb (isoformat a) (isoformat b) = true -> dt_compare a b <> Gt.
Proof.
  intros Ha Hb. unfold String.leb. rewrite (isoformat_compare a b Ha Hb).
  destruct (dt_compare a b); congruence.
Qed.

(** X10: in a store whose parsed columns agree with the raw ones (every
    reachable store), the earliest created timestamp of the statistics
    report is the stored text of the earliest creation date, in the order
    of time, among the notes whose creation date parses, and the latest is
    that of the latest; both are NULL exactly when no creation date
    parses. *)
Theorem created_range_is_chronological (db : store) :
  dates_parsed db ->
  let parsed r := parse_macos_date (n_created_raw r) in
  match earliest_created (date_ranges db) with
  | Some v =>
      exists r t, In r (notes db) /\ parsed r = Some t /\ v = isoformat t
        /\ forall r' t', In r' (notes db) -> parsed r' = Some t' ->
                         dt_compare t t' <> Gt
  | None => forall r, In r (notes db) -> parsed r = None
  end
  /\ match latest_created (date_ranges db) with
     | Some v =>
         exists r t, In r (notes db) /\ parsed r = Some t /\ v = isoformat t
           /\ forall r' t', In r' (notes db) -> parsed r' = Some t' ->
                            dt_compare t' t <> Gt
     | None => forall r, In r (notes db) -> parsed r = None
     end.
Proof.
  intros Hd parsed.
  assert (forall r v, In r (notes db) -> n_created_datetime r = Some v ->
            exists t, parsed r = Some t /\ v = isoformat t /\ in_calendar t)
    as Hsome.
  { intros r v Hr E. destruct (Hd r Hr) as [Ec _]. rewrite Ec in E.
    unfold parsed. destruct (parse_macos_date (n_created_raw r)) eqn:P;
      [|discriminate].
    injection E as <-. eexists. split; [reflexivity|]. split; [reflexivity|].
    apply valid_in_calendar. eapply parse_macos_date_valid; eauto. }
  assert (forall r t, In r (notes db) -> parsed r = Some t ->
            In (isoformat t) (present (map n_created_datetime (notes db)))
            /\ in_calendar t) as Hin.
  { intros r t Hr P. split.
    - apply present_column. exists r. split; [exact Hr|].
      destruct (Hd r Hr) as [Ec _]. rewrite Ec. unfold parsed in P.
      now rewrite P.
    - apply valid_in_calendar. eapply parse_macos_date_valid; eauto. }
  assert (present (map n_created_datetime (notes db)) = [] ->
          forall r, In r (notes db) -> parsed r = None) as Hnone.
  { intros E r Hr. destruct (parsed r) as [t|] eqn:P; [|reflexivity].
    destruct (Hin r t Hr P) as [Hi _]. rewrite E in Hi. destruct Hi. }
  unfold date_ranges. cbn [earliest_created latest_created].
  unfold sql_min, sql_max. rewrite !aggregate_created.
  fold sql_min sql_max.
  pose proof (sql_min_least (map n_created_datetime (notes db))) as Hmin.
  pose proof (sql_max_greatest (map n_created_datetime (notes db))) as Hmax.
  split.
  - destruct (sql_min _) as [v|]; cbn in Hmin; [|now apply Hnone].
    destruct Hmin as [Hv Hle]. apply present_column in Hv.
    destruct Hv as [r [Hr Ev]].
    destruct (Hsome r v Hr Ev) as [t [P [-> Hc]]].
    exists r, t. repeat split; auto. intros r' t' Hr' P'.
    destruct (Hin r' t' Hr' P') as [Hi Hc'].
    apply leb_not_gt; auto.
  - destruct (sql_max _) as [v|]; cbn in Hmax; [|now apply Hnone].
    destruct Hmax as [Hv Hle]. apply present_column in Hv.
    destruct Hv as [r [Hr Ev]].
    destruct (Hsome r v Hr Ev) as [t [P [-> Hc]]].
    exists r, t. repeat split; auto. intros r' t' Hr' P'.
    destruct (Hin r' t' Hr' P') as [Hi Hc'].
    apply leb_not_gt; auto.
Qed.

End Timeline.

(** * The documented date format

    The dates of the export read "Saturday, November 8, 2025 at 21:59:06":
    an optional weekday and comma, the month by name, the day without
    padding, the year, and the time of day on 24 hours. *)

Definition month_names : list string :=
  ["January"; "February"; "March"; "April"; "May"; "June"; "July";
   "August"; "September"; "October"; "November"; "December"].

Definition month_name (m : Z) : list ascii :=
  chars (nth (Z.to_nat (m - 1)) month_names "").

(** A day of the month, without padding. *)
Definition day_digits (d : Z) : list ascii :=
  if d <? 10 then [Strptime.digit_char d] else Strptime.pad2 d.

Definition macos_date_part (t : datetime) : list ascii :=
  month_name (Strptime.month t) ++ " "%char
  :: day_digits (Strptime.day t) ++ ","%char :: " "%char
  :: Strptime.pad4 (Strptime.year t).

Definition macos_time_part (t : datetime) : list ascii :=
  Strptime.pad2 (Strptime.hour t) ++ ":"%char
  :: Strptime.pad2 (Strptime.minute t) ++ ":"%char
  :: Strptime.pad2 (Strptime.second t).

(** "November 8, 2025 at 21:59:06" *)
Definition macos_text (t : datetime) : list ascii :=
  macos_date_part t ++ chars " at " ++ macos_time_part t.

(** "Saturday, November 8, 2025 at 21:59:06", for any word as weekday. *)
Definition macos_text_with_weekday (weekday : list ascii) (t : datetime)
    : list ascii :=
  weekday ++ ","%char :: " "%char :: macos_text t.

(** ** Splitting at the separator *)

(** No blank that is followed by an "a" or by the end. *)
Fixpoint quiet (s : list ascii) : bool :=
  match s with
  | [] => true
  | c :: s' =>
      negb (is_char " " c
            && match s' with
               | x :: _ => is_char "a" x
               | [] => true
               end)
      && quiet s'
  end.

Definition no_blank (s : list ascii) : bool :=
  forallb (fun c => negb (is_char " " c)) s.

Lemma starts_with_app (p s : list ascii) : starts_with p (p ++ s) = true.
Proof.
  induction p as [|c p IH]; [reflexivity|]. cbn.
  now rewrite Ascii.eqb_refl, IH.
Qed.

Lemma contains_app (p sep q : list ascii) :
  contains sep (p ++ sep ++ q) = true.
Proof.
  induction p as [|c p IH].
  - cbn [app]. destruct (sep ++ q)%list as [|c s] eqn:E.
    + destruct sep; [reflexivity|discriminate].
    + cbn [contains]. rewrite <- E. now rewrite starts_with_app.
  - cbn [app contains]. rewrite IH. apply orb_true_r.
Qed.

Lemma split_go_no_blank (q : list ascii) :
  no_blank q = true ->
  forall cur, split_go (chars " at ") 0 cur q = [(rev cur ++ q)%list].
Proof.
  induction q as [|c q IH]; intros H cur.
  - cbn. now rewrite app_nil_r.
  - unfold no_blank in *. cbn [forallb] in H.
    apply andb_prop in H. destruct H as [Hc H].
    cbn [split_go]. cbn [chars list_ascii_of_string starts_with].
    unfold is_char in Hc. apply negb_true_iff in Hc. rewrite Hc. cbn [andb].
    rewrite (IH H). cbn [rev]. now rewrite <- app_assoc.
Qed.

Lemma split_go_once (p q : list ascii) :
  quiet p = true -> no_blank q = true ->
  forall cur,
    split_go (chars " at ") 0 cur (p ++ chars " at " ++ q)
    = [(rev cur ++ p)%list; q].
Proof.
  intros Hp Hq. induction p as [|c p IH]; intro cur.
  - cbn [app chars list_ascii_of_string split_go starts_with].
    rewrite !Ascii.eqb_refl. cbn [andb List.length pred].
    rewrite (split_go_no_blank q Hq). now rewrite app_nil_r.
  - cbn [quiet] in Hp. apply andb_prop in Hp. destruct Hp as [Hc Hp].
    cbn [app split_go].
    replace (starts_with (chars " at ") (c :: p ++ chars " at " ++ q))
      with false.
    + rewrite (IH Hp). cbn [rev]. now rewrite <- app_assoc.
    + symmetry. cbn [chars list_ascii_of_string starts_with].
      unfold is_char in Hc.
      destruct (Ascii.eqb " " c); [|reflexivity]. cbn [andb negb] in *.
      destruct p as [|x p]; [discriminate|].
      cbn [app starts_with]. apply negb_true_iff in Hc. now rewrite Hc.
Qed.

Lemma split_once (p q : list ascii) :
  quiet p = true -> no_blank q = true ->
  split (chars " at ") (p ++ chars " at " ++ q) = [p; q].
Proof. intros Hp Hq. unfold split. now rewrite split_go_once. Qed.

(** ** The groups of the date part *)

Lemma month_name_facts :
  forall m, 1 <= m <= 12 ->
    hd_error (map is_alpha (month_name m)) = Some true
    /\ hd_error (map is_space (month_name m)) = Some false
    /\ no_blank (month_name m) = true
    /\ (forall r, drop_while is_alpha (month_name m ++ " "%char :: r)
                  = " "%char :: r)
    /\ forall d r,
         hd_error (Strptime.directive "B" d (month_name m ++ r)%list)
         = Some (("B"%char, m) :: d, r).
Proof. by_cases 1 12 12%nat. Qed.

Lemma day_digits_facts :
  forall n, 1 <= n <= 31 ->
    no_blank (day_digits n) = true
    /\ hd_error (map (is_char "a") (day_digits n)) = Some false
    /\ hd_error (map is_space (day_digits n)) = Some false
    /\ forall d r,
         hd_error
           (Strptime.directive "d" d (day_digits n ++ ","%char :: r)%list)
         = Some (("d"%char, n) :: d, ","%char :: r).
Proof. by_cases 1 31 31%nat. Qed.

Lemma digit_char_not_blank (n : Z) :
  is_char " " (Strptime.digit_char n) = false.
Proof.
  unfold is_char. apply Ascii.eqb_neq. intro E. symmetry in E.
  now apply (digit_char_is_no_letter n " "%char) in E.
Qed.

Lemma digit_char_not_a (n : Z) :
  is_char "a" (Strptime.digit_char n) = false.
Proof.
  unfold is_char. apply Ascii.eqb_neq. intro E. symmetry in E.
  now apply (digit_char_is_no_letter n "a"%char) in E.
Qed.

Lemma quiet_app (l s : list ascii) :
  no_blank l = true -> quiet (l ++ s) = quiet s.
Proof.
  induction l as [|c l IH]; intro H; [reflexivity|].
  unfold no_blank in *. cbn [forallb] in H. apply andb_prop in H.
  destruct H as [Hc H]. apply negb_true_iff in Hc.
  cbn [app quiet]. rewrite Hc. cbn [andb negb]. now apply IH.
Qed.

Lemma no_blank_pad2 (n : Z) : no_blank (Strptime.pad2 n) = true.
Proof.
  unfold no_blank, Strptime.pad2. cbn [forallb].
  now rewrite !digit_char_not_blank.
Qed.

Lemma no_blank_pad4 (n : Z) : no_blank (Strptime.pad4 n) = true.
Proof.
  unfold no_blank, Strptime.pad4. cbn [forallb].
  now rewrite !digit_char_not_blank.
Qed.

Lemma no_blank_app (l l' : list ascii) :
  no_blank l = true -> no_blank l' = true -> no_blank (l ++ l') = true.
Proof. unfold no_blank. intros H H'. now rewrite forallb_app, H, H'. Qed.

Lemma hd_map_app {A B : Type} (f : A -> B) (l r : list A) (b : B) :
  hd_error (map f l) = Some b -> hd_error (map f (l ++ r)) = Some b.
Proof. destruct l; [discriminate|auto]. Qed.

Lemma quiet_blank (s : list ascii) :
  hd_error (map (is_char "a") s) = Some false ->
  quiet (" "%char :: s) = quiet s.
Proof.
  destruct s as [|x s]; [discriminate|]. cbn [map hd_error]. intro H.
  assert (is_char "a" x = false) as Ha by now injection H.
  cbn [quiet]. now rewrite Ha.
Qed.

Lemma quiet_date_part (t : datetime) :
  in_calendar t -> quiet (macos_date_part t) = true.
Proof.
  intros (Hy & Hm & Hd & _).
  pose proof (days_in_month_bound (Strptime.year t) (Strptime.month t)).
  destruct (month_name_facts _ Hm) as (_ & _ & Hb & _).
  destruct (day_digits_facts (Strptime.day t) ltac:(lia)) as (Hdb & Hda & _).
  unfold macos_date_part. rewrite (quiet_app _ _ Hb).
  rewrite quiet_blank by (now apply hd_map_app).
  rewrite (quiet_app _ _ Hdb).
  change (","%char :: " "%char :: Strptime.pad4 (Strptime.year t))
    with ([","%char] ++ " "%char :: Strptime.pad4 (Strptime.year t))%list.
  rewrite (quiet_app [","%char]) by reflexivity.
  rewrite quiet_blank
    by (unfold Strptime.pad4; cbn [map hd_error];
        now rewrite digit_char_not_a).
  rewrite <- (app_nil_r (Strptime.pad4 _)).
  now rewrite (quiet_app _ _ (no_blank_pad4 _)).
Qed.

Lemma no_blank_time_part (t : datetime) : no_blank (macos_time_part t) = true.
Proof.
  unfold macos_time_part, no_blank, Strptime.pad2. cbn [app forallb].
  now rewrite !digit_char_not_blank.
Qed.

(** ** The weekday *)

Lemma chars_str (l : list ascii) : chars (str l) = l.
Proof. apply list_ascii_of_string_of_list_ascii. Qed.

Lemma drop_while_head (p : ascii -> bool) (s : list ascii) :
  hd_error (map p s) = Some false -> drop_while p s = s.
Proof.
  destruct s as [|c s]; [discriminate|]. cbn [map hd_error drop_while].
  intro H. assert (p c = false) as -> by now injection H. reflexivity.
Qed.

Lemma drop_while_word (w r : list ascii) :
  forallb is_alpha w = true ->
  drop_while is_alpha (w ++ ","%char :: r) = ","%char :: r.
Proof.
  induction w as [|c w IH]; intro H; [reflexivity|].
  cbn [forallb] in H. apply andb_prop in H. destruct H as [Hc H].
  cbn [app drop_while]. rewrite Hc. now apply IH.
Qed.

(** Without a comma after the first word, nothing is dropped. *)
Lemma strip_weekday_no_comma (w r : list ascii) :
  hd_error (map is_alpha w) = Some true ->
  drop_while is_alpha (w ++ " "%char :: r) = " "%char :: r ->
  strip_weekday (w ++ " "%char :: r) = (w ++ " "%char :: r)%list.
Proof.
  destruct w as [|c w]; [discriminate|]. cbn [map hd_error]. intros Hc Hd.
  assert (is_alpha c = true) as Ha by now injection Hc.
  unfold strip_weekday. cbn [app] in *. rewrite Ha, Hd.
  destruct r as [|x r]; reflexivity.
Qed.

(** A word, a comma and a blank are dropped. *)
Lemma strip_weekday_word (w r : list ascii) :
  w <> [] ->
  forallb is_alpha w = true ->
  hd_error (map is_space r) = Some false ->
  strip_weekday (w ++ ","%char :: " "%char :: r) = r.
Proof.
  intros Hw Ha Hr. destruct w as [|c w]; [congruence|].
  unfold strip_weekday. cbn [app].
  assert (is_alpha c = true) as Hc
    by (cbn [forallb] in Ha; now apply andb_prop in Ha).
  rewrite Hc.
  change (c :: w ++ ","%char :: " "%char :: r)
    with ((c :: w) ++ ","%char :: " "%char :: r)%list.
  rewrite (drop_while_word _ _ Ha).
  replace (is_char "," "," && is_space " ") with true by reflexivity.
  now apply drop_while_head.
Qed.

(** ** The two parts, parsed *)

Lemma date_part_parses (t : datetime) :
  in_calendar t ->
  strptime (str (macos_date_part t)) "%B %d, %Y"
  = Some (mk_datetime (Strptime.year t) (Strptime.month t) (Strptime.day t)
            0 0 0).
Proof.
  intros (Hy & Hm & Hd & _).
  pose proof (days_in_month_bound (Strptime.year t) (Strptime.month t)) as Hb.
  destruct (month_name_facts _ Hm) as (_ & _ & _ & _ & HB).
  destruct (day_digits_facts (Strptime.day t) ltac:(lia))
    as (_ & _ & Hds & HD).
  rewrite (strptime_first _ _
             [("Y"%char, Strptime.year t); ("d"%char, Strptime.day t);
              ("B"%char, Strptime.month t)]).
  - reflexivity.
  - rewrite chars_str.
    change (Strptime.tokens (chars "%B %d, %Y")) with
      [Strptime.Dir "B"; Strptime.Ws; Strptime.Dir "d"; Strptime.Lit ",";
       Strptime.Ws; Strptime.Dir "Y"].
    unfold macos_date_part.
    eapply run_dir; [apply HB|].
    apply run_ws; [reflexivity| |].
    { rewrite (hd_map_app _ _ _ _ Hds). discriminate. }
    eapply run_dir; [apply HD|]. apply run_lit.
    apply run_ws; [reflexivity| |].
    { unfold Strptime.pad4. cbn [map hd_error].
      rewrite digit_char_not_space. discriminate. }
    rewrite <- (app_nil_r (Strptime.pad4 (Strptime.year t))).
    eapply run_dir; [apply year_pad4; lia|]. reflexivity.
  - apply valid_in_calendar. unfold in_calendar. cbn. lia.
Qed.

Lemma time_part_parses (t : datetime) :
  in_calendar t ->
  strptime (str (macos_time_part t)) "%H:%M:%S"
  = Some (mk_datetime 1900 1 1 (Strptime.hour t) (Strptime.minute t)
            (Strptime.second t)).
Proof.
  intros (_ & _ & _ & HH & HM & HS).
  rewrite (strptime_first _ _
             [("S"%char, Strptime.second t); ("M"%char, Strptime.minute t);
              ("H"%char, Strptime.hour t)]).
  - reflexivity.
  - rewrite chars_str.
    change (Strptime.tokens (chars "%H:%M:%S")) with
      [Strptime.Dir "H"; Strptime.Lit ":"; Strptime.Dir "M"; Strptime.Lit ":";
       Strptime.Dir "S"].
    unfold macos_time_part.
    eapply run_dir; [apply hour_pad2; lia|]. apply run_lit.
    eapply run_dir; [apply minute_pad2; lia|]. apply run_lit.
    rewrite <- (app_nil_r (Strptime.pad2 (Strptime.second t))).
    eapply run_dir; [apply second_pad2; lia|]. reflexivity.
  - apply valid_in_calendar. unfold in_calendar. cbn. lia.
Qed.

Lemma at_block_parses (t : datetime) :
  in_calendar t -> parse_at_block (macos_text t) = Return (Some t).
Proof.
  intro Hc. unfold parse_at_block, macos_text.
  rewrite contains_app.
  rewrite split_once
    by (first [now apply quiet_date_part | apply no_blank_time_part]).
  cbn [date_formats time_formats first_format].
  rewrite (date_part_parses t Hc), (time_part_parses t Hc).
  destruct t. reflexivity.
Qed.

Lemma macos_text_shape (t : datetime) :
  in_calendar t ->
  macos_text t
  = (month_name (Strptime.month t) ++ " "%char
     :: (day_digits (Strptime.day t) ++ ","%char :: " "%char
         :: Strptime.pad4 (Strptime.year t))
        ++ chars " at " ++ macos_time_part t)%list.
Proof.
  intros _. unfold macos_text, macos_date_part.
  now rewrite <- app_assoc.
Qed.

Lemma str_not_empty (l : list ascii) : l <> [] -> str l <> "".
Proof.
  intros H E. apply H. rewrite <- (chars_str l), E. reflexivity.
Qed.

(** X11: every date in the format of the export parses to the timestamp
    it denotes: for a date of the calendar, the text "<Month> <day>, <year>
    at HH:MM:SS", with the month by its English name, the day without
    padding and the time on 24 hours, is parsed to that date and time, and
    so is the same text after a weekday (any word of letters) and a
    comma. *)
Theorem documented_format_parses (t : datetime) (weekday : list ascii) :
  in_calendar t ->
  weekday <> [] ->
  forallb is_alpha weekday = true ->
  parse_macos_date (str (macos_text t)) = Some t
  /\ parse_macos_date (str (macos_text_with_weekday weekday t)) = Some t.
Proof.
  intros Hc Hw Ha.
  assert (1 <= Strptime.month t <= 12) as Hm by apply Hc.
  destruct (month_name_facts _ Hm) as (Hma & Hms & _ & Hmd & _).
  assert (macos_text t <> []) as Hne.
  { rewrite macos_text_shape by assumption.
    destruct (month_name (Strptime.month t)); discriminate. }
  assert (hd_error (map is_space (macos_text t)) = Some false) as Hhead.
  { rewrite macos_text_shape by assumption. now apply hd_map_app. }
  split.
  - rewrite parse_non_empty by now apply str_not_empty.
    rewrite chars_str.
    assert (strip_weekday (macos_text t) = macos_text t) as ->.
    { rewrite macos_text_shape by assumption.
      now apply strip_weekday_no_comma. }
    now rewrite at_block_parses.
  - rewrite parse_non_empty.
    + rewrite chars_str. unfold macos_text_with_weekday.
      rewrite strip_weekday_word by assumption.
      now rewrite at_block_parses.
    + apply str_not_empty. unfold macos_text_with_weekday.
      destruct weekday; [congruence|discriminate].
Qed.

(** * The records of the earlier stages, imported

    [analyze_note.py] and [ai_analyze_note.py] write the [analysis] of a
    record, with [links_categorized] computed by their [categorize_links]
    from [extracted_data.links]; [split_individual.py] writes the entries of
    [extracted_data.images].  What [import_note] makes of such records. *)

(** [site in link] *)
Definition mentions (site link : string) : bool :=
  contains (chars site) (chars link).

(** [any(site in link for site in sites)] *)
Definition any_site (sites : list string) (link : string) : bool :=
  existsb (fun site => mentions site link) sites.

(** [categorized[key].append(link)], on a dict of lists in the order of its
    keys. *)
Definition append_to (key link : string)
    (categorized : list (string * list string)) : list (string * list string) :=
  map (fun item =>
         if String.eqb (fst item) key then (fst item, (snd item ++ [link])%list)
         else item)
      categorized.

Module AnalyzeNote.

Definition categorized : list (string * list string) :=
  [("youtube", []); ("social_media", []); ("documentation", []);
   ("other", [])].

(** The list that the [if] chain of the loop picks for a link. *)
Definition category (link : string) : string :=
  if mentions "youtube.com" link || mentions "youtu.be" link then "youtube"
  else if any_site ["instagram.com"; "facebook.com"; "twitter.com";
                    "tiktok.com"] link
  then "social_media"
  else if any_site ["github.com"; "docs."; "documentation"] link
  then "documentation"
  else "other".

Definition categorize_links (links : list string)
    : list (string * list string) :=
  fold_left (fun categorized link => append_to (category link) link categorized)
            links categorized.

End AnalyzeNote.

Module AiAnalyzeNote.

Definition categorized : list (string * list string) :=
  [("youtube", []); ("github", []); ("social_media", []);
   ("documentation", []); ("other", [])].

Definition category (link : string) : string :=
  if mentions "youtube.com" link || mentions "youtu.be" link then "youtube"
  else if mentions "github.com" link then "github"
  else if any_site ["instagram.com"; "facebook.com"; "twitter.com";
                    "tiktok.com"; "linkedin.com"] link
  then "social_media"
  else if any_site ["docs."; "documentation"; "wiki"; "readme"] link
  then "documentation"
  else "other".

Definition categorize_links (links : list string)
    : list (string * list string) :=
  fold_left (fun categorized link => append_to (category link) link categorized)
            links categorized.

End AiAnalyzeNote.

Module SplitIndividual.

(** An entry of the [images] list of [extract_images]. *)
Record image_info : Type := mk_image_info
  { filename : string;
    format : string;
    size_bytes : Z;
    relative_path : string }.

(** [images.append({...})] *)
Definition image_info_of (img_filename image_format : string)
    (img_bytes_len : Z) : image_info :=
  {| filename := img_filename;
     format := image_format;
     size_bytes := img_bytes_len;
     relative_path := "images/" ++ img_filename |}.

(** The entry as [import_note] reads it: it asks for the keys [filename],
    [path], [format] and [size], and the entry has the first and the third. *)
Definition as_entry (info : image_info) : image_entry :=
  ImageObject (Some (filename info)) None (Some (format info)) None.

End SplitIndividual.

(** The links with a given category, in their order. *)
Definition links_in (category : string -> string) (links : list string)
    (key : string) : list string :=
  filter (fun link => String.eqb (category link) key) links.

Lemma categorize_fold (category : string -> string) (keys : list string)
    (links : list string) :
  forall f : string -> list string,
    fold_left
      (fun categorized link => append_to (category link) link categorized)
      links (map (fun k => (k, f k)) keys)
    = map (fun k => (k, (f k ++ links_in category links k)%list)) keys.
Proof.
  induction links as [|link links IH]; intro f.
  - cbn [fold_left]. apply map_ext. intro k. unfold links_in. cbn.
    now rewrite app_nil_r.
  - cbn [fold_left]. unfold append_to at 2. rewrite map_map. cbn [fst snd].
    rewrite (map_ext _
               (fun k => (k, (f k ++ if String.eqb k (category link)
                                     then [link] else [])%list))).
    + rewrite (IH (fun k => (f k ++ if String.eqb k (category link)
                                    then [link] else [])%list)).
      apply map_ext. intro k. unfold links_in. cbn [filter].
      rewrite (String.eqb_sym (category link) k).
      destruct (String.eqb k (category link)).
      * now rewrite <- app_assoc.
      * now rewrite app_nil_r.
    + intro k. destruct (String.eqb k (category link)); [reflexivity|].
      now rewrite app_nil_r.
Qed.

Lemma flat_map_split {A B : Type} (g h : A -> list B) (l : list A) :
  Permutation (flat_map (fun k => g k ++ h k) l)%list
              (flat_map g l ++ flat_map h l)%list.
Proof.
  induction l as [|k l IH]; [constructor|]. cbn [flat_map].
  rewrite IH, <- !app_assoc. apply Permutation_app_head.
  rewrite !app_assoc. apply Permutation_app_tail. apply Permutation_app_comm.
Qed.

Section Grouping.

Context {K : Type} (eqb : K -> K -> bool).
Hypothesis eqb_spec : forall a b, eqb a b = true <-> a = b.

Lemma flat_map_none {B : Type} (c : K) (x : B) (keys : list K) :
  ~ In c keys ->
  flat_map (fun k => if eqb c k then [x] else []) keys = [].
Proof.
  induction keys as [|k keys IH]; intro H; [reflexivity|]. cbn [flat_map].
  destruct (eqb c k) eqn:E.
  - apply eqb_spec in E. subst k. destruct H. now left.
  - apply IH. intro Hin. apply H. now right.
Qed.

Lemma flat_map_once {B : Type} (c : K) (x : B) (keys : list K) :
  NoDup keys -> In c keys ->
  flat_map (fun k => if eqb c k then [x] else []) keys = [x].
Proof.
  induction 1 as [|k keys Hk Hnd IH]; intros Hin; [destruct Hin|].
  cbn [flat_map]. destruct (eqb c k) eqn:E.
  - apply eqb_spec in E. subst k. now rewrite flat_map_none.
  - destruct Hin as [->|Hin].
    + assert (eqb c c = true) by now apply eqb_spec. congruence.
    + now apply IH.
Qed.

(** Rows sorted by a key: the groups of distinct keys that cover the rows
    are a rearrangement of the rows. *)
Lemma partition_by {A : Type} (key : A -> K) (keys : list K) :
  NoDup keys ->
  forall l,
    (forall x, In x l -> In (key x) keys) ->
    Permutation (flat_map (fun k => filter (fun x => eqb (key x) k) l) keys) l.
Proof.
  intros Hnd. induction l as [|x l IH]; intro Hin.
  - cbn [filter].
    replace (flat_map (fun _ : K => @nil A) keys) with (@nil A);
      [constructor|].
    clear. induction keys; auto.
  - rewrite (flat_map_ext _
               (fun k => (if eqb (key x) k then [x] else [])
                         ++ filter (fun x => eqb (key x) k) l)%list).
    + rewrite flat_map_split, flat_map_once.
      * constructor. apply IH. intros y Hy. apply Hin. now right.
      * exact Hnd.
      * apply Hin. now left.
    + intro k. cbn [filter]. now destruct (eqb (key x) k).
Qed.

End Grouping.

Lemma links_in_partition (category : string -> string) (keys : list string) :
  NoDup keys -> (forall link, In (category link) keys) ->
  forall links,
    Permutation (flat_map (links_in category links) keys) links.
Proof.
  intros Hnd Hin links.
  apply (partition_by String.eqb String.eqb_eq category keys Hnd).
  intros link _. apply Hin.
Qed.

Lemma analyze_note_closed (links : list string) :
  AnalyzeNote.categorize_links links
  = map (fun k => (k, links_in AnalyzeNote.category links k))
        ["youtube"; "social_media"; "documentation"; "other"].
Proof.
  unfold AnalyzeNote.categorize_links.
  change AnalyzeNote.categorized
    with (map (fun k : string => (k, (fun _ : string => @nil string) k))
              ["youtube"; "social_media"; "documentation"; "other"]).
  now rewrite categorize_fold.
Qed.

Lemma ai_analyze_note_closed (links : list string) :
  AiAnalyzeNote.categorize_links links
  = map (fun k => (k, links_in AiAnalyzeNote.category links k))
        ["youtube"; "github"; "social_media"; "documentation"; "other"].
Proof.
  unfold AiAnalyzeNote.categorize_links.
  change AiAnalyzeNote.categorized
    with (map (fun k : string => (k, (fun _ : string => @nil string) k))
              ["youtube"; "github"; "social_media"; "documentation"; "other"]).
  now rewrite categorize_fold.
Qed.

Lemma flat_map_snd_map (f : string -> list string) (keys : list string) :
  flat_map snd (map (fun k => (k, f k)) keys) = flat_map f keys.
Proof. induction keys as [|k keys IH]; cbn; [reflexivity|now rewrite IH]. Qed.

Ltac distinct_keys :=
  repeat (constructor;
          [let H := fresh in intro H; cbn in H; intuition discriminate|]);
  constructor.

(** X12: [categorize_links], in either analyser, sorts every link into
    exactly one list: the list of a category holds the links that the chain
    of tests gives that category, in the order of the input, so the lists
    together are a rearrangement of the input (nothing is lost, nothing is
    listed twice). *)
Theorem categorize_links_sorts_every_link (links : list string) :
  AnalyzeNote.categorize_links links
  = map (fun k => (k, links_in AnalyzeNote.category links k))
        ["youtube"; "social_media"; "documentation"; "other"]
  /\ AiAnalyzeNote.categorize_links links
     = map (fun k => (k, links_in AiAnalyzeNote.category links k))
           ["youtube"; "github"; "social_media"; "documentation"; "other"]
  /\ Permutation (flat_map snd (AnalyzeNote.categorize_links links)) links
  /\ Permutation (flat_map snd (AiAnalyzeNote.categorize_links links)) links.
Proof.
  split; [apply analyze_note_closed|].
  split; [apply ai_analyze_note_closed|].
  rewrite analyze_note_closed, ai_analyze_note_closed, !flat_map_snd_map.
  split; apply links_in_partition.
  - distinct_keys.
  - intro link. unfold AnalyzeNote.category.
    repeat match goal with |- context [if ?b then _ else _] => destruct b end;
      cbn; auto 6.
  - distinct_keys.
  - intro link. unfold AiAnalyzeNote.category.
    repeat match goal with |- context [if ?b then _ else _] => destruct b end;
      cbn; auto 7.
Qed.

(** ** Rows that an insert finds in place *)

Lemma add_unique_absorbed {R : Type} (conflict : R -> R -> bool)
    (rows t : list R) :
  (forall r, In r rows -> existsb (conflict r) t = true) ->
  add_unique conflict rows t = t.
Proof.
  induction rows as [|r rows IH]; intro H; [reflexivity|].
  rewrite add_unique_cons. unfold put.
  rewrite (H r (or_introl eq_refl)). apply IH.
  intros x Hx. apply H. now right.
Qed.

Lemma existsb_add_unique {R : Type} (conflict : R -> R -> bool)
    (p : R -> bool) (rows : list R) :
  forall t, existsb p t = true ->
            existsb p (add_unique conflict rows t) = true.
Proof.
  induction rows as [|r rows IH]; intros t H; [exact H|].
  rewrite add_unique_cons. apply IH. unfold put.
  destruct (existsb (conflict r) t); [exact H|].
  rewrite existsb_app, H. reflexivity.
Qed.

(** After the untyped inserts every URL of the list has a row, which a
    typed insert of the same URL runs into. *)
Lemma untyped_links_cover (note_id : string) (link_type : option string)
    (links : list string) :
  forall t url,
    In url links ->
    existsb (link_conflict (mk_link_row note_id url link_type))
      (add_unique link_conflict
         (map (fun link => mk_link_row note_id link None) links) t)
    = true.
Proof.
  induction links as [|link links IH]; intros t url H; [destruct H|].
  cbn [map]. rewrite add_unique_cons. destruct H as [->|H].
  - apply existsb_add_unique. unfold put.
    destruct (existsb (link_conflict (mk_link_row note_id url None)) t) eqn:E.
    + exact E.
    + rewrite existsb_app. unfold link_conflict at 2.
      cbn [existsb l_note_id l_url]. rewrite !String.eqb_refl.
      now rewrite orb_true_r.
  - now apply IH.
Qed.

Lemma len_app {A : Type} (l l' : list A) : len (l ++ l') = len l + len l'.
Proof. unfold len. rewrite length_app. lia. Qed.

Lemma len_map {A B : Type} (f : A -> B) (l : list A) : len (map f l) = len l.
Proof. unfold len. now rewrite length_map. Qed.

Lemma len_flat_typed (note_id : string) (items : list (string * list string)) :
  len (flat_map (typed_link_rows note_id) items) = len (flat_map snd items).
Proof.
  induction items as [|item items IH]; [reflexivity|]. cbn [flat_map].
  rewrite !len_app, IH. unfold typed_link_rows. now rewrite len_map.
Qed.

Lemma len_permutation {A : Type} (l l' : list A) :
  Permutation l l' -> len l = len l'.
Proof. intro H. unfold len. now rewrite (Permutation_length H). Qed.

Section Pipeline.

Variable text_of : string -> string.

(** The link rows of a record whose categories only list links of its flat
    list: the typed inserts add nothing. *)
Lemma sorted_links_absorbed (note_id : string) (note_data : note_data_t)
    (links : list string) (categorized : list (string * list string))
    (t : list link_row) :
  ed_links (get_or (nd_extracted_data note_data) no_extracted_data)
  = Some links ->
  an_links_categorized (get_or (nd_analysis note_data) no_analysis)
  = Some categorized ->
  Permutation (flat_map snd categorized) links ->
  add_unique link_conflict (link_rows note_id note_data) t
  = add_unique link_conflict
      (map (fun link => mk_link_row note_id link None) links) t
  /\ len (link_rows note_id note_data) = 2 * len links.
Proof.
  intros El Ec Hp. unfold link_rows. rewrite El, Ec. cbn [get_or]. split.
  - rewrite add_unique_app. apply add_unique_absorbed.
    intros r Hr. apply in_flat_map in Hr. destruct Hr as [item [Hi Hr]].
    unfold typed_link_rows in Hr. apply in_map_iff in Hr.
    destruct Hr as [url [<- Hu]]. apply untyped_links_cover.
    apply (Permutation_in _ Hp). apply in_flat_map. now exists item.
  - rewrite len_app, len_map, len_flat_typed, (len_permutation _ _ Hp). lia.
Qed.

(** X13: a record as [analyze_note.py] leaves it never gets a typed link
    row.  When [analysis.links_categorized] is what the [categorize_links]
    of [analyze_note.py] made of [extracted_data.links], every typed insert
    of [import_note] meets the untyped row of the same URL and is ignored:
    the link rows of the store are those the flat list alone gives, every
    row added has a null [link_type], and [links_imported] still counts
    every URL twice. *)
Theorem analysed_links_stay_untyped (note_data : note_data_t) (self : self_t)
    (links : list string) :
  let note_id := get_or (nd_note_id note_data) "" in
  let a := get_or (nd_analysis note_data) no_analysis in
  let self' := import_note text_of note_data self in
  let untyped := map (fun link => mk_link_row note_id link None) links in
  ed_links (get_or (nd_extracted_data note_data) no_extracted_data)
  = Some links ->
  an_links_categorized a = Some (AnalyzeNote.categorize_links links) ->
  extracted_links (conn self')
  = (if goes_in text_of note_data self
     then add_unique link_conflict untyped (extracted_links (conn self))
     else extracted_links (conn self))
  /\ (forall r, In r (extracted_links (conn self')) ->
                In r (extracted_links (conn self)) \/ l_link_type r = None)
  /\ links_imported (stats self')
     = links_imported (stats self)
       + (if goes_in text_of note_data self then 2 * len links else 0).
Proof.
  intros note_id a self' untyped El Ea.
  assert (Permutation (flat_map snd (AnalyzeNote.categorize_links links))
                      links) as Hp.
  { rewrite analyze_note_closed, flat_map_snd_map.
    apply links_in_partition.
    - distinct_keys.
    - intro link. unfold AnalyzeNote.category.
      repeat match goal with
             | |- context [if ?b then _ else _] => destruct b
             end; cbn; auto 6. }
  destruct (sorted_links_absorbed note_id note_data links _
              (extracted_links (conn self)) El Ea Hp) as [Hrows Hlen].
  subst self'.
  destruct (import_note_cases text_of note_data self)
    as [[G E]|[G [msg E]]]; rewrite E, G.
  - unfold imported, with_children, counts_children.
    cbn [conn stats extracted_links set_notes add_counts log_errors
         count_note links_imported].
    fold note_id. rewrite Hrows, Hlen. split; [reflexivity|].
    split; [|reflexivity].
    intros r Hr. apply add_unique_from in Hr. destruct Hr as [Hr|Hr].
    + now left.
    + right. apply in_map_iff in Hr. now destruct Hr as [url [<- _]].
  - cbn [conn stats add_error links_imported]. split; [reflexivity|].
    split; [now left|lia].
Qed.

(** X14: the images of [split_individual.py] lose their size on import.
    An entry that [extract_images] wrote has the keys [filename], [format],
    [size_bytes] and [relative_path]; [import_note] reads [size] and
    [path], so every image row it adds for such a record has size 0,
    whatever size the entry carries, and the path ["images/<filename>"],
    which is the path of the entry. *)
Theorem split_images_lose_their_size (note_data : note_data_t) (self : self_t)
    (infos : list SplitIndividual.image_info) :
  ed_images (get_or (nd_extracted_data note_data) no_extracted_data)
  = Some (map SplitIndividual.as_entry infos) ->
  (forall info, In info infos ->
     exists name fmt size, info = SplitIndividual.image_info_of name fmt size) ->
  forall r,
    In r (extracted_images (conn (import_note text_of note_data self))) ->
    In r (extracted_images (conn self))
    \/ exists info,
         In info infos
         /\ i_filename r = SplitIndividual.filename info
         /\ i_image_format r = SplitIndividual.format info
         /\ i_relative_path r = SplitIndividual.relative_path info
         /\ i_size_bytes r = 0.
Proof.
  intros Ei Hmade r Hr.
  destruct (import_note_cases text_of note_data self)
    as [[G E]|[G [msg E]]]; rewrite E in Hr.
  - unfold imported, with_children in Hr.
    cbn [conn extracted_images set_notes] in Hr.
    apply add_unique_from in Hr. destruct Hr as [Hr|Hr]; [now left|].
    right. unfold image_rows, image_statements in Hr.
    apply filter_In in Hr. destruct Hr as [Hr _].
    rewrite Ei in Hr. cbn [get_or] in Hr.
    apply in_map_iff in Hr. destruct Hr as [[idx image] [<- Hin]].
    assert (In image (map SplitIndividual.as_entry infos)) as Him.
    { clear - Hin. revert Hin. generalize 1.
      induction (map SplitIndividual.as_entry infos) as [|x l IH];
        intros start H; [destruct H|].
      cbn [enumerate] in H. destruct H as [H|H].
      - left. congruence.
      - right. now apply (IH (start + 1)). }
    apply in_map_iff in Him. destruct Him as [info [<- Hinfo]].
    exists info. split; [exact Hinfo|].
    destruct (Hmade info Hinfo) as (name & fmt & size & ->).
    cbn. auto.
  - left. exact Hr.
Qed.

End Pipeline.

(** * The lookup tables and the breakdowns of the report

    [populate_lookup_tables] fills the tables [accounts] and [folders] from
    [notes], and [generate_statistics] reads them back, next to two
    breakdowns by category.  No table of the store refers to the two lookup
    tables, so they are kept beside it. *)

Record account_row : Type := mk_account_row
  { ac_account_name : string; ac_note_count : Z }.

Record folder_row : Type := mk_folder_row
  { fo_folder_name : string; fo_account_name : string; fo_note_count : Z }.

Record lookup_tables : Type := mk_lookup_tables
  { accounts : list account_row; folders : list folder_row }.

(** The lookup tables of a database that [create_schema] has just
    created. *)
Definition no_lookup_rows : lookup_tables := mk_lookup_tables [] [].

(** [SELECT key, COUNT ... GROUP BY key]: a row for each value of the key,
    with the number of rows that have it.  The groups are listed by first
    occurrence; the engine is free to list them in another order, and
    nothing below depends on it. *)
Definition distinct {K : Type} (eqb : K -> K -> bool) (keys : list K)
    : list K :=
  add_unique (fun k x => eqb x k) keys [].

Definition occurrences {K : Type} (eqb : K -> K -> bool) (k : K)
    (keys : list K) : Z :=
  len (filter (fun x => eqb x k) keys).

Definition group_count {K : Type} (eqb : K -> K -> bool) (keys : list K)
    : list (K * Z) :=
  map (fun k => (k, occurrences eqb k keys)) (distinct eqb keys).

(** [UNIQUE] on [account_name]; [UNIQUE(folder_name, account_name)]. *)
Definition account_conflict (r x : account_row) : bool :=
  String.eqb (ac_account_name x) (ac_account_name r).

Definition folder_key (r : folder_row) : string * string :=
  (fo_folder_name r, fo_account_name r).

Definition folder_conflict (r x : folder_row) : bool :=
  pair_eqb (folder_key x) (folder_key r).

(** The two [INSERT OR IGNORE ... SELECT ... GROUP BY] statements. *)
Definition populate_lookup_tables (db : store) (lk : lookup_tables)
    : lookup_tables :=
  mk_lookup_tables
    (add_unique account_conflict
       (map (fun g => mk_account_row (fst g) (snd g))
            (group_count String.eqb (map n_account (notes db))))
       (accounts lk))
    (add_unique folder_conflict
       (map (fun g => mk_folder_row (fst (fst g)) (snd (fst g)) (snd g))
            (group_count pair_eqb
               (map (fun r => (n_folder r, n_account r)) (notes db))))
       (folders lk)).

(** [ORDER BY count DESC]: a row goes after the rows that count at least as
    much.  How rows of equal count are ordered is the engine's choice, and
    nothing below depends on it. *)
Fixpoint insert_desc {R : Type} (count : R -> Z) (r : R) (sorted : list R)
    : list R :=
  match sorted with
  | [] => [r]
  | x :: rest =>
      if count x <? count r then r :: sorted
      else x :: insert_desc count r rest
  end.

Definition order_by_desc {R : Type} (count : R -> Z) (rows : list R)
    : list R :=
  fold_left (fun sorted r => insert_desc count r sorted) rows [].

(** [d[k] = v] and [dict(pairs)], on a dict in the order of its keys. *)
Fixpoint dict_set (d : list (string * Z)) (k : string) (v : Z)
    : list (string * Z) :=
  match d with
  | [] => [(k, v)]
  | item :: d' =>
      if String.eqb (fst item) k then (fst item, v) :: d'
      else item :: dict_set d' k v
  end.

Definition dict (pairs : list (string * Z)) : list (string * Z) :=
  fold_left (fun d item => dict_set d (fst item) (snd item)) pairs [].

(** [d.get(k)] *)
Fixpoint dict_get (k : string) (d : list (string * Z)) : option Z :=
  match d with
  | [] => None
  | item :: d' => if String.eqb (fst item) k then Some (snd item)
                  else dict_get k d'
  end.

(** The breakdowns of [generate_statistics]. *)
Record breakdowns_t : Type := mk_breakdowns
  { accounts_report : list (string * Z);
    top_folders : list (string * Z);
    top_categories : list (string * Z);
    primary_categories : list (string * Z) }.

Definition breakdowns (db : store) (lk : lookup_tables) : breakdowns_t :=
  {| accounts_report :=
       dict (map (fun r => (ac_account_name r, ac_note_count r))
                 (order_by_desc ac_note_count (accounts lk)));
     top_folders :=
       dict (map (fun r => (fo_folder_name r, fo_note_count r))
                 (firstn 20 (order_by_desc fo_note_count (folders lk))));
     top_categories :=
       dict (firstn 20
               (order_by_desc snd
                  (group_count String.eqb
                     (map c_category (note_categories db)))));
     primary_categories :=
       dict (order_by_desc snd
               (group_count String.eqb
                  (present (map n_primary_category (notes db))))) |}.

Definition sum_of (l : list Z) : Z := fold_right Z.add 0 l.

(** The last value that a list of pairs gives a key. *)
Definition last_value (k : string) (pairs : list (string * Z)) : option Z :=
  fold_left (fun o item => if String.eqb (fst item) k then Some (snd item)
                           else o)
            pairs None.

(** No row counts more than a row before it. *)
Fixpoint descending {R : Type} (count : R -> Z) (l : list R) : Prop :=
  match l with
  | [] => True
  | x :: l' => (forall y, In y l' -> count y <= count x) /\ descending count l'
  end.

(** ** Grouping *)

Lemma add_unique_covers {R : Type} (conflict : R -> R -> bool)
    (rows : list R) :
  (forall r, conflict r r = true) ->
  forall t r, In r rows ->
              existsb (conflict r) (add_unique conflict rows t) = true.
Proof.
  intro Hrefl. induction rows as [|x rows IH]; intros t r H; [destruct H|].
  rewrite add_unique_cons. destruct H as [->|H]; [|now apply IH].
  apply existsb_add_unique. unfold put.
  destruct (existsb (conflict r) t) eqn:E; [exact E|].
  rewrite existsb_app, E. cbn [existsb]. now rewrite Hrefl.
Qed.

Lemma len_flat_map {A B : Type} (f : A -> list B) (l : list A) :
  len (flat_map f l) = sum_of (map (fun x => len (f x)) l).
Proof.
  induction l as [|x l IH]; [reflexivity|]. cbn [flat_map map sum_of fold_right].
  rewrite len_app, IH. reflexivity.
Qed.

Section Keyed.

Context {R K : Type} (conflict : R -> R -> bool) (key : R -> K)
        (eqb : K -> K -> bool).
Hypothesis eqb_spec : forall a b, eqb a b = true <-> a = b.
Hypothesis conflict_key : forall r x, conflict r x = eqb (key x) (key r).

(** Rows with keys of their own all go in. *)
Lemma add_unique_all_new (rows : list R) :
  forall t, NoDup (map key (t ++ rows)) ->
            add_unique conflict rows t = (t ++ rows)%list.
Proof.
  induction rows as [|r rows IH]; intros t H.
  - now rewrite app_nil_r.
  - rewrite add_unique_cons. unfold put.
    destruct (existsb (conflict r) t) eqn:E.
    + exfalso. apply existsb_exists in E. destruct E as [x [Hx Hc]].
      rewrite conflict_key in Hc. apply eqb_spec in Hc.
      rewrite map_app in H. cbn [map] in H.
      apply NoDup_remove_2 in H. apply H. apply in_or_app. left.
      rewrite <- Hc. now apply in_map.
    + rewrite IH; rewrite <- app_assoc; [reflexivity|exact H].
Qed.

(** Offering the same rows again adds nothing. *)
Lemma add_unique_again (rows t : list R) :
  add_unique conflict rows (add_unique conflict rows t)
  = add_unique conflict rows t.
Proof.
  apply add_unique_absorbed. intros r Hr. apply add_unique_covers; auto.
  intro x. rewrite conflict_key. now apply eqb_spec.
Qed.

End Keyed.

Section GroupCount.

Context {K : Type} (eqb : K -> K -> bool).
Hypothesis eqb_spec : forall a b, eqb a b = true <-> a = b.

Lemma distinct_nodup (keys : list K) : NoDup (distinct eqb keys).
Proof.
  unfold distinct.
  pose proof (add_unique_nodup (fun k x => eqb x k) (fun k : K => k) eqb
                eqb_spec (fun _ _ => eq_refl) keys []) as H.
  specialize (H (NoDup_nil K)). now rewrite map_id in H.
Qed.

Lemma distinct_in (keys : list K) (k : K) :
  In k (distinct eqb keys) <-> In k keys.
Proof.
  unfold distinct. split; intro H.
  - apply add_unique_from in H. now destruct H.
  - assert (existsb (fun x => eqb x k)
              (add_unique (fun k x => eqb x k) keys []) = true) as E.
    { apply (add_unique_covers (fun k x => eqb x k)); auto.
      intro r. now apply eqb_spec. }
    apply existsb_exists in E. destruct E as [x [Hx E]].
    apply eqb_spec in E. now subst x.
Qed.

Lemma occurrences_pos (keys : list K) (k : K) :
  In k keys <-> 0 < occurrences eqb k keys.
Proof.
  unfold occurrences. split; intro H.
  - assert (In k (filter (fun x => eqb x k) keys)) as Hin.
    { apply filter_In. split; [exact H|now apply eqb_spec]. }
    destruct (filter (fun x => eqb x k) keys); [destruct Hin|].
    unfold len. cbn [List.length]. lia.
  - destruct (filter (fun x => eqb x k) keys) as [|x l] eqn:E.
    + unfold len in H. cbn in H. lia.
    + assert (In x (filter (fun x => eqb x k) keys)) as Hin
        by (rewrite E; now left).
      apply filter_In in Hin. destruct Hin as [Hin Hk].
      apply eqb_spec in Hk. now subst x.
Qed.

Lemma group_count_in (keys : list K) (k : K) (n : Z) :
  In (k, n) (group_count eqb keys)
  <-> 0 < n /\ n = occurrences eqb k keys.
Proof.
  unfold group_count. rewrite in_map_iff. split.
  - intros [x [E H]]. injection E as <- <-.
    apply (proj1 (distinct_in keys x)) in H.
    split; [exact (proj1 (occurrences_pos keys x) H)|reflexivity].
  - intros [Hn ->]. exists k. split; [reflexivity|].
    apply (proj2 (distinct_in keys k)).
    exact (proj2 (occurrences_pos keys k) Hn).
Qed.

Lemma group_count_keys (keys : list K) :
  map fst (group_count eqb keys) = distinct eqb keys.
Proof.
  unfold group_count. rewrite map_map. cbn [fst]. apply map_id.
Qed.

Lemma group_count_sum (keys : list K) :
  sum_of (map snd (group_count eqb keys)) = len keys.
Proof.
  unfold group_count, occurrences. rewrite map_map. cbn [snd].
  rewrite <- (len_flat_map (fun k => filter (fun x => eqb x k) keys)).
  apply len_permutation.
  apply (partition_by eqb eqb_spec (fun x : K => x)).
  - apply distinct_nodup.
  - intros x Hx. exact (proj2 (distinct_in keys x) Hx).
Qed.

End GroupCount.

(** ** Ordering *)

Lemma insert_desc_perm {R : Type} (count : R -> Z) (r : R) (l : list R) :
  Permutation (insert_desc count r l) (r :: l).
Proof.
  induction l as [|x l IH]; [reflexivity|]. cbn [insert_desc].
  destruct (count x <? count r); [reflexivity|].
  rewrite IH. apply perm_swap.
Qed.

Lemma insert_desc_descending {R : Type} (count : R -> Z) (r : R)
    (l : list R) :
  descending count l -> descending count (insert_desc count r l).
Proof.
  induction l as [|x l IH]; intro H.
  - cbn. split; [intros y []|exact I].
  - cbn [insert_desc]. destruct H as [Hx Hl].
    destruct (count x <? count r) eqn:E.
    + apply Z.ltb_lt in E. split; [|now split].
      intros y [<-|Hy]; [lia|]. specialize (Hx y Hy). lia.
    + apply Z.ltb_ge in E. split; [|now apply IH].
      intros y Hy. apply (Permutation_in _ (insert_desc_perm count r l)) in Hy.
      destruct Hy as [<-|Hy]; [exact E|now apply Hx].
Qed.

Lemma order_by_desc_from {R : Type} (count : R -> Z) (rows : list R) :
  forall sorted,
    descending count sorted ->
    let result := fold_left (fun sorted r => insert_desc count r sorted)
                            rows sorted in
    descending count result /\ Permutation result (sorted ++ rows).
Proof.
  induction rows as [|r rows IH]; intros sorted H.
  - cbn. rewrite app_nil_r. now split.
  - cbn [fold_left].
    destruct (IH (insert_desc count r sorted)
                 (insert_desc_descending count r sorted H)) as [Hd Hp].
    split; [exact Hd|]. rewrite Hp, insert_desc_perm.
    apply Permutation_middle.
Qed.

Lemma order_by_desc_descending {R : Type} (count : R -> Z) (rows : list R) :
  descending count (order_by_desc count rows).
Proof. now apply (order_by_desc_from count rows []). Qed.

Lemma order_by_desc_perm {R : Type} (count : R -> Z) (rows : list R) :
  Permutation (order_by_desc count rows) rows.
Proof. now apply (order_by_desc_from count rows []). Qed.

Lemma descending_map {R : Type} (name : R -> string) (count : R -> Z)
    (l : list R) :
  descending count l ->
  descending snd (map (fun r => (name r, count r)) l).
Proof.
  induction l as [|x l IH]; [auto|]. intros [Hx Hl]. cbn [map descending].
  split; [|now apply IH].
  intros y Hy. apply in_map_iff in Hy. destruct Hy as [z [<- Hz]].
  cbn [snd]. now apply Hx.
Qed.

Lemma descending_snoc {R : Type} (count : R -> Z) (l : list R) (x : R) :
  descending count (l ++ [x]) ->
  descending count l /\ forall y, In y l -> count x <= count y.
Proof.
  induction l as [|a l IH]; cbn [app descending].
  - intros _. split; [exact I|intros y []].
  - intros [Ha Hl]. destruct (IH Hl) as [Hd Hx]. split.
    + split; [|exact Hd]. intros y Hy. apply Ha. apply in_or_app. now left.
    + intros y [<-|Hy]; [|now apply Hx].
      apply Ha. apply in_or_app. right. now left.
Qed.

Lemma firstn_incl {A : Type} (n : nat) (l : list A) (x : A) :
  In x (firstn n l) -> In x l.
Proof.
  revert l. induction n as [|n IH]; intros [|a l] H; cbn in H; auto.
  - destruct H.
  - destruct H as [H|H]; [now left|right; now apply IH].
Qed.

Lemma firstn_short {A : Type} (n : nat) (l : list A) :
  len l <= Z.of_nat n -> firstn n l = l.
Proof. intro H. apply firstn_all2. unfold len in H. lia. Qed.

(** ** Dicts *)

Lemma dict_get_set (k k' : string) (v : Z) (d : list (string * Z)) :
  dict_get k (dict_set d k' v)
  = if String.eqb k' k then Some v else dict_get k d.
Proof.
  induction d as [|item d IH]; cbn [dict_set dict_get fst snd].
  - reflexivity.
  - destruct (String.eqb (fst item) k') eqn:E; cbn [dict_get fst snd].
    + apply String.eqb_eq in E. rewrite E.
      now destruct (String.eqb k' k).
    + rewrite IH. destruct (String.eqb (fst item) k) eqn:E'; [|reflexivity].
      apply String.eqb_eq in E'. subst k.
      now rewrite String.eqb_sym, E.
Qed.

Lemma dict_get_fold (k : string) (pairs : list (string * Z)) :
  forall d,
    dict_get k (fold_left (fun d item => dict_set d (fst item) (snd item))
                          pairs d)
    = fold_left (fun o item => if String.eqb (fst item) k
                               then Some (snd item) else o)
                pairs (dict_get k d).
Proof.
  induction pairs as [|item pairs IH]; intro d; [reflexivity|].
  cbn [fold_left]. now rewrite IH, dict_get_set.
Qed.

Lemma dict_get_dict (k : string) (pairs : list (string * Z)) :
  dict_get k (dict pairs) = last_value k pairs.
Proof. unfold dict, last_value. now rewrite dict_get_fold. Qed.

Lemma last_value_snoc (k : string) (pairs : list (string * Z))
    (item : string * Z) :
  last_value k (pairs ++ [item])
  = if String.eqb (fst item) k then Some (snd item) else last_value k pairs.
Proof. unfold last_value. now rewrite fold_left_app. Qed.

Lemma last_value_in (k : string) (n : Z) (pairs : list (string * Z)) :
  last_value k pairs = Some n -> In (k, n) pairs.
Proof.
  induction pairs as [|item pairs IH] using rev_ind; [discriminate|].
  rewrite last_value_snoc. destruct (String.eqb (fst item) k) eqn:E; intro H.
  - apply String.eqb_eq in E. injection H as <-. subst k.
    apply in_or_app. right. left. now destruct item.
  - apply in_or_app. left. now apply IH.
Qed.

Lemma last_value_none (k : string) (pairs : list (string * Z)) :
  last_value k pairs = None -> ~ In k (map fst pairs).
Proof.
  induction pairs as [|item pairs IH] using rev_ind; [intros _ []|].
  rewrite last_value_snoc. destruct (String.eqb (fst item) k) eqn:E; intro H.
  - discriminate.
  - rewrite map_app. intro Hin. apply in_app_or in Hin.
    destruct Hin as [Hin|[Hin|[]]].
    + now apply IH.
    + apply String.eqb_neq in E. now apply E.
Qed.

Lemma last_value_unique (k : string) (n : Z) (pairs : list (string * Z)) :
  NoDup (map fst pairs) -> In (k, n) pairs -> last_value k pairs = Some n.
Proof.
  induction pairs as [|item pairs IH] using rev_ind; [intros _ []|].
  rewrite map_app, last_value_snoc. cbn [map]. intros Hnd Hin.
  apply NoDup_remove in Hnd. rewrite app_nil_r in Hnd.
  destruct Hnd as [Hnd Hnew].
  apply in_app_or in Hin. destruct Hin as [Hin|[->|[]]].
  - destruct (String.eqb (fst item) k) eqn:E; [|now apply IH].
    apply String.eqb_eq in E. exfalso. apply Hnew. rewrite E.
    change k with (fst (k, n)). now apply in_map.
  - cbn [fst snd]. now rewrite String.eqb_refl.
Qed.

(** In pairs of descending values, the last value of a key is its
    least. *)
Lemma last_value_least (k : string) (n : Z) (pairs : list (string * Z)) :
  descending snd pairs ->
  last_value k pairs = Some n ->
  forall m, In (k, m) pairs -> n <= m.
Proof.
  induction pairs as [|item pairs IH] using rev_ind; [discriminate|].
  intros Hd. apply descending_snoc in Hd. destruct Hd as [Hd Hlast].
  rewrite last_value_snoc. destruct (String.eqb (fst item) k) eqn:E;
    intros H m Hin; apply in_app_or in Hin.
  - injection H as <-. destruct Hin as [Hin|[->|[]]].
    + now apply (Hlast (k, m)).
    + cbn [snd]. lia.
  - destruct Hin as [Hin|[->|[]]].
    + now apply (IH Hd H).
    + cbn [fst] in E. now rewrite String.eqb_refl in E.
Qed.

(** ** The lookup tables of a new database *)

Lemma occurrences_map {A K : Type} (eqb : K -> K -> bool) (f : A -> K)
    (k : K) (l : list A) :
  occurrences eqb k (map f l) = len (filter (fun r => eqb (f r) k) l).
Proof.
  unfold occurrences, len. f_equal.
  induction l as [|x l IH]; [reflexivity|]. cbn [map filter].
  destruct (eqb (f x) k); cbn [List.length]; now rewrite IH.
Qed.

Lemma occurrences_present (f : note_row -> option string) (k : string)
    (l : list note_row) :
  occurrences String.eqb k (present (map f l))
  = len (filter (fun r => match f r with
                          | Some v => String.eqb v k
                          | None => false
                          end) l).
Proof.
  unfold occurrences, len. f_equal.
  induction l as [|x l IH]; [reflexivity|]. cbn [map present filter].
  destruct (f x) as [v|]; [|exact IH]. cbn [filter].
  destruct (String.eqb v k); cbn [List.length]; now rewrite IH.
Qed.

Lemma accounts_from_empty (db : store) :
  accounts (populate_lookup_tables db no_lookup_rows)
  = map (fun g => mk_account_row (fst g) (snd g))
        (group_count String.eqb (map n_account (notes db))).
Proof.
  unfold populate_lookup_tables. cbn [accounts no_lookup_rows].
  rewrite (add_unique_all_new account_conflict ac_account_name String.eqb
             String.eqb_eq (fun _ _ => eq_refl)); [reflexivity|].
  cbn [app]. rewrite map_map. cbn [ac_account_name].
  rewrite (group_count_keys String.eqb).
  apply (distinct_nodup String.eqb String.eqb_eq).
Qed.

Lemma folders_from_empty (db : store) :
  folders (populate_lookup_tables db no_lookup_rows)
  = map (fun g => mk_folder_row (fst (fst g)) (snd (fst g)) (snd g))
        (group_count pair_eqb
           (map (fun r => (n_folder r, n_account r)) (notes db))).
Proof.
  unfold populate_lookup_tables. cbn [folders no_lookup_rows].
  rewrite (add_unique_all_new folder_conflict folder_key pair_eqb
             pair_eqb_spec (fun _ _ => eq_refl)); [reflexivity|].
  cbn [app]. rewrite map_map. unfold folder_key.
  cbn [fo_folder_name fo_account_name].
  rewrite (map_ext _ fst) by (now intros [[f a] n]).
  rewrite (group_count_keys pair_eqb).
  apply (distinct_nodup pair_eqb pair_eqb_spec).
Qed.

(** What a dict of the rows of a table with unique names holds. *)
Lemma report_of_unique {R : Type} (name : R -> string) (count : R -> Z)
    (rows : list R) (k : string) (n : Z) :
  NoDup (map name rows) ->
  dict_get k (dict (map (fun r => (name r, count r))
                        (order_by_desc count rows))) = Some n
  <-> exists r, In r rows /\ name r = k /\ count r = n.
Proof.
  intro Hnd. rewrite dict_get_dict.
  pose proof (order_by_desc_perm count rows) as Hp. split.
  - intro H. apply last_value_in in H. apply in_map_iff in H.
    destruct H as [r [E Hr]]. injection E as E1 E2. exists r.
    split; [now apply (Permutation_in _ Hp)|now split].
  - intros [r [Hr [<- <-]]]. apply last_value_unique.
    + rewrite map_map. cbn [fst].
      apply (Permutation_NoDup (Permutation_map name (Permutation_sym Hp))).
      exact Hnd.
    + apply in_map_iff. exists r. split; [reflexivity|].
      now apply (Permutation_in _ (Permutation_sym Hp)).
Qed.

(** X15: on a new database the lookup tables count the notes.  After
    [populate_lookup_tables] the table [accounts] has one row for each
    account that a stored note names, with the number of those notes, and
    [folders] one row for each pair of a folder and an account; the counts
    of either table add up to the number of notes, and the [accounts] entry
    of the report gives every account its number of notes. *)
Theorem new_lookup_tables_count_the_notes (db : store) :
  let lk := populate_lookup_tables db no_lookup_rows in
  let in_account a := filter (fun r => String.eqb (n_account r) a) (notes db) in
  let in_folder f a :=
    filter (fun r => pair_eqb (n_folder r, n_account r) (f, a)) (notes db) in
  (forall a n, In (mk_account_row a n) (accounts lk)
               <-> 0 < n /\ n = len (in_account a))
  /\ (forall f a n, In (mk_folder_row f a n) (folders lk)
                    <-> 0 < n /\ n = len (in_folder f a))
  /\ NoDup (map ac_account_name (accounts lk))
  /\ NoDup (map folder_key (folders lk))
  /\ sum_of (map ac_note_count (accounts lk)) = len (notes db)
  /\ sum_of (map fo_note_count (folders lk)) = len (notes db)
  /\ (forall a n, dict_get a (accounts_report (breakdowns db lk)) = Some n
                  <-> 0 < n /\ n = len (in_account a)).
Proof.
  intros lk in_account in_folder. subst lk in_account in_folder.
  assert (forall a n,
             In (mk_account_row a n)
                (accounts (populate_lookup_tables db no_lookup_rows))
             <-> 0 < n
                 /\ n = len (filter (fun r => String.eqb (n_account r) a)
                                    (notes db))) as Hacc.
  { intros a n. rewrite accounts_from_empty, in_map_iff.
    rewrite <- occurrences_map.
    rewrite <- (group_count_in String.eqb String.eqb_eq). split.
    - intros [[a' n'] [E H]]. cbn [fst snd] in E. now injection E as -> ->.
    - intro H. now exists (a, n). }
  assert (NoDup (map ac_account_name
                     (accounts (populate_lookup_tables db no_lookup_rows))))
    as Hnd.
  { rewrite accounts_from_empty, map_map. cbn [ac_account_name].
    rewrite (group_count_keys String.eqb).
    apply (distinct_nodup String.eqb String.eqb_eq). }
  split; [exact Hacc|].
  split.
  { intros f a n. rewrite folders_from_empty, in_map_iff.
    rewrite <- (occurrences_map pair_eqb
                  (fun r => (n_folder r, n_account r)) (f, a)).
    rewrite <- (group_count_in pair_eqb pair_eqb_spec). split.
    - intros [[[f' a'] n'] [E H]]. cbn [fst snd] in E.
      now injection E as -> -> ->.
    - intro H. now exists (f, a, n). }
  split; [exact Hnd|].
  split.
  { rewrite folders_from_empty, map_map. unfold folder_key.
    cbn [fo_folder_name fo_account_name].
    rewrite (map_ext _ fst) by (now intros [[f a] n]).
    rewrite (group_count_keys pair_eqb).
    apply (distinct_nodup pair_eqb pair_eqb_spec). }
  split.
  { rewrite accounts_from_empty, map_map. cbn [ac_note_count].
    rewrite (group_count_sum String.eqb String.eqb_eq).
    apply len_map. }
  split.
  { rewrite folders_from_empty, map_map. cbn [fo_note_count].
    rewrite (group_count_sum pair_eqb pair_eqb_spec).
    apply len_map. }
  intros a n. unfold breakdowns. cbn [accounts_report].
  rewrite (report_of_unique ac_account_name ac_note_count _ a n Hnd).
  rewrite <- Hacc. split.
  - intros [[a' n'] [Hr [E1 E2]]]. cbn in E1, E2. now subst.
  - intro H. now exists (mk_account_row a n).
Qed.

(** X16: the lookup tables are never refreshed.  [populate_lookup_tables]
    only adds rows: an account or a folder that has a row keeps it, with the
    count it had, whatever the notes are by now; and a second call on the
    same notes changes nothing. *)
Theorem lookup_tables_are_never_refreshed (db : store) (lk : lookup_tables) :
  let lk' := populate_lookup_tables db lk in
  (forall a,
      existsb (fun r => String.eqb (ac_account_name r) a) (accounts lk) = true ->
      filter (fun r => String.eqb (ac_account_name r) a) (accounts lk')
      = filter (fun r => String.eqb (ac_account_name r) a) (accounts lk))
  /\ (forall k,
         existsb (fun r => pair_eqb (folder_key r) k) (folders lk) = true ->
         filter (fun r => pair_eqb (folder_key r) k) (folders lk')
         = filter (fun r => pair_eqb (folder_key r) k) (folders lk))
  /\ (exists added, accounts lk' = (accounts lk ++ added)%list)
  /\ (exists added, folders lk' = (folders lk ++ added)%list)
  /\ populate_lookup_tables db lk' = lk'.
Proof.
  intro lk'. subst lk'. unfold populate_lookup_tables.
  cbn [accounts folders].
  split.
  { intros a H.
    rewrite (add_unique_key account_conflict ac_account_name String.eqb
               String.eqb_eq (fun _ _ => eq_refl)).
    rewrite H. apply app_nil_r. }
  split.
  { intros k H.
    rewrite (add_unique_key folder_conflict folder_key pair_eqb
               pair_eqb_spec (fun _ _ => eq_refl)).
    rewrite H. apply app_nil_r. }
  split.
  { destruct (add_unique_appended account_conflict (fun _ => "") ""
                (map (fun g => mk_account_row (fst g) (snd g))
                     (group_count String.eqb (map n_account (notes db))))
                (fun _ _ => eq_refl) (accounts lk)) as [added [E _]].
    now exists added. }
  split.
  { destruct (add_unique_appended folder_conflict (fun _ => "") ""
                (map (fun g => mk_folder_row (fst (fst g)) (snd (fst g))
                                             (snd g))
                     (group_count pair_eqb
                        (map (fun r => (n_folder r, n_account r)) (notes db))))
                (fun _ _ => eq_refl) (folders lk)) as [added [E _]].
    now exists added. }
  f_equal.
  - apply (add_unique_again account_conflict ac_account_name String.eqb
             String.eqb_eq (fun _ _ => eq_refl)).
  - apply (add_unique_again folder_conflict folder_key pair_eqb
             pair_eqb_spec (fun _ _ => eq_refl)).
Qed.

(** X17: the report merges folders of one name.  [top_folders] is a dict
    by folder name, filled from the rows of [folders] by descending count:
    with at most 20 rows in [folders], a folder name that two accounts have
    is reported once, with the least of the counts of its rows (not their
    sum), and a name is missing only when no row has it. *)
Theorem top_folders_keeps_the_least_count (db : store) (lk : lookup_tables)
    (name : string) :
  len (folders lk) <= 20 ->
  match dict_get name (top_folders (breakdowns db lk)) with
  | Some n =>
      (exists r, In r (folders lk) /\ fo_folder_name r = name
                 /\ fo_note_count r = n)
      /\ forall r, In r (folders lk) -> fo_folder_name r = name ->
                   n <= fo_note_count r
  | None => forall r, In r (folders lk) -> fo_folder_name r <> name
  end.
Proof.
  intro Hlen. unfold breakdowns. cbn [top_folders].
  pose proof (order_by_desc_perm fo_note_count (folders lk)) as Hp.
  pose proof (order_by_desc_descending fo_note_count (folders lk)) as Hd.
  rewrite (firstn_short 20)
    by (rewrite (len_permutation _ _ Hp); exact Hlen).
  rewrite dict_get_dict.
  destruct (last_value name _) as [n|] eqn:E.
  - split.
    + apply last_value_in in E. apply in_map_iff in E.
      destruct E as [r [E Hr]]. injection E as E1 E2. exists r.
      split; [now apply (Permutation_in _ Hp)|now split].
    + intros r Hr Hname.
      apply (last_value_least name n _
               (descending_map fo_folder_name fo_note_count _ Hd) E).
      apply in_map_iff. exists r. split; [now rewrite Hname|].
      now apply (Permutation_in _ (Permutation_sym Hp)).
  - intros r Hr Hname. apply last_value_none in E. apply E.
    rewrite map_map. cbn [fst]. rewrite <- Hname. apply in_map.
    now apply (Permutation_in _ (Permutation_sym Hp)).
Qed.

(** X18: the category breakdowns report true counts.  [primary_categories]
    gives a category the number of notes that have it as primary category,
    and lists every category that a note has; a count that [top_categories]
    gives a category is the number of rows of [note_categories] with it,
    and with at most 20 categories in the table none is left out. *)
Theorem category_breakdowns_report_true_counts (db : store)
    (lk : lookup_tables) (c : string) (n : Z) :
  let report := breakdowns db lk in
  let primary :=
    len (filter (fun r => match n_primary_category r with
                          | Some v => String.eqb v c
                          | None => false
                          end) (notes db)) in
  let tagged :=
    len (filter (fun r => String.eqb (c_category r) c) (note_categories db)) in
  (dict_get c (primary_categories report) = Some n
   <-> 0 < n /\ n = primary)
  /\ (dict_get c (top_categories report) = Some n -> 0 < n /\ n = tagged)
  /\ (len (distinct String.eqb (map c_category (note_categories db))) <= 20 ->
      0 < n -> n = tagged ->
      dict_get c (top_categories report) = Some n).
Proof.
  intros report primary tagged. subst report primary tagged.
  unfold breakdowns. cbn [primary_categories top_categories].
  rewrite <- occurrences_present, <- occurrences_map.
  rewrite !dict_get_dict.
  set (firsts := present (map n_primary_category (notes db))).
  set (tags := map c_category (note_categories db)).
  assert (forall keys : list string,
             NoDup (map fst (order_by_desc snd (group_count String.eqb keys))))
    as Hnd.
  { intro keys.
    apply (Permutation_NoDup
             (Permutation_map fst
                (Permutation_sym (order_by_desc_perm snd _)))).
    rewrite (group_count_keys String.eqb).
    apply (distinct_nodup String.eqb String.eqb_eq). }
  split; [|split].
  - rewrite <- (group_count_in String.eqb String.eqb_eq). split.
    + intro H. apply last_value_in in H.
      now apply (Permutation_in _ (order_by_desc_perm snd _)).
    + intro H. apply last_value_unique; [apply Hnd|].
      now apply (Permutation_in _ (Permutation_sym (order_by_desc_perm snd _))).
  - intro H. apply last_value_in in H. apply firstn_incl in H.
    apply (Permutation_in _ (order_by_desc_perm snd _)) in H.
    now apply (group_count_in String.eqb String.eqb_eq).
  - intros Hlen Hn E. rewrite firstn_short.
    + apply last_value_unique; [apply Hnd|].
      apply (Permutation_in _ (Permutation_sym (order_by_desc_perm snd _))).
      now apply (group_count_in String.eqb String.eqb_eq).
    + rewrite (len_permutation _ _ (order_by_desc_perm snd _)).
      unfold group_count. now rewrite len_map.
Qed.

(** * [main]: a run of the export

    [main] lists the files [note_*.json] of the directory, leaves when there
    is none, opens the database, imports the files one by one, fills the
    lookup tables and writes the report.  A file that cannot be read or
    parsed is an entry of the error log. *)

(** A file of the directory: its path, and what [json.load] makes of it,
    a record or the text of the exception. *)
Record json_file_t : Type := mk_json_file
  { jf_path : string; jf_loaded : string + note_data_t }.

(** The database file: the tables of the store and the lookup tables. *)
Record database : Type := mk_database
  { tables : store; lookups : lookup_tables }.

Definition new_database : database := mk_database empty_store no_lookup_rows.

(** [database_stats.json] *)
Record report_t : Type := mk_report
  { rp_totals : totals_t;
    rp_date_ranges : date_ranges_t;
    rp_breakdowns : breakdowns_t;
    rp_import_stats : stats_t }.

Section Main.

Variable text_of : string -> string.

(** The body of the loop of [main]. *)
Definition import_file (self : self_t) (json_file : json_file_t) : self_t :=
  match jf_loaded json_file with
  | inr note_data => import_note text_of note_data self
  | inl e =>
      add_error ("Failed to read " ++ jf_path json_file ++ ": " ++ e) self
  end.

Definition main (json_files : list json_file_t) (file : database)
    : option (database * report_t) :=
  match json_files with
  | [] => None
  | _ :: _ =>
      let db := connect (tables file) in
      let db := fold_left import_file json_files db in
      let lk := populate_lookup_tables (conn db) (lookups file) in
      Some (mk_database (conn db) lk,
            mk_report (totals (conn db)) (date_ranges (conn db))
              (breakdowns (conn db) lk) (stats db))
  end.

(** The record of a file does not go in. *)
Definition blocked (self : self_t) (json_file : json_file_t) : Prop :=
  forall note_data,
    jf_loaded json_file = inr note_data ->
    goes_in text_of note_data self = false.

Lemma import_file_notes (self : self_t) (json_file : json_file_t) :
  incl (notes (conn self)) (notes (conn (import_file self json_file))).
Proof.
  unfold import_file. destruct (jf_loaded json_file) as [e|note_data].
  - apply incl_refl.
  - apply import_note_notes.
Qed.

Lemma import_files_notes (json_files : list json_file_t) :
  forall self,
    incl (notes (conn self))
         (notes (conn (fold_left import_file json_files self))).
Proof.
  induction json_files as [|f rest IH]; intro self.
  - apply incl_refl.
  - cbn [fold_left]. eapply incl_tran; [apply import_file_notes|apply IH].
Qed.

Lemma import_file_foreign_keys (self : self_t) (json_file : json_file_t) :
  foreign_keys (conn (import_file self json_file)) = foreign_keys (conn self).
Proof.
  unfold import_file. destruct (jf_loaded json_file) as [e|note_data].
  - reflexivity.
  - apply import_note_foreign_keys.
Qed.

Lemma import_files_foreign_keys (json_files : list json_file_t) :
  forall self,
    foreign_keys (conn (fold_left import_file json_files self))
    = foreign_keys (conn self).
Proof.
  induction json_files as [|f rest IH]; intro self; [reflexivity|].
  cbn [fold_left]. now rewrite IH, import_file_foreign_keys.
Qed.

(** After a run, every one of its files is blocked. *)
Lemma import_files_block (json_files : list json_file_t) :
  forall self,
    Forall (blocked (fold_left import_file json_files self)) json_files.
Proof.
  induction json_files as [|f rest IH]; intro self; constructor.
  - intros note_data E. cbn [fold_left].
    eapply note_inserts_blocked; [apply (import_files_notes rest)|].
    unfold import_file. rewrite E. apply goes_in_after.
  - apply IH.
Qed.

(** A blocked file adds a line to the error log, and nothing else. *)
Lemma import_file_blocked (self : self_t) (json_file : json_file_t) :
  blocked self json_file ->
  exists msg, import_file self json_file = add_error msg self.
Proof.
  intro H. unfold import_file.
  destruct (jf_loaded json_file) as [e|note_data] eqn:E; [eauto|].
  destruct (import_note_cases text_of note_data self)
    as [[G _]|[_ [msg Hm]]]; [|eauto].
  rewrite (H note_data E) in G. discriminate.
Qed.

Lemma import_files_blocked (json_files : list json_file_t) :
  forall self,
    Forall (blocked self) json_files ->
    let self' := fold_left import_file json_files self in
    conn self' = conn self
    /\ exists msgs,
         len msgs = len json_files
         /\ stats self'
            = mk_stats (notes_imported (stats self))
                (links_imported (stats self)) (images_imported (stats self))
                (categories_imported (stats self))
                (tasks_imported (stats self)) (ideas_imported (stats self))
                (projects_imported (stats self))
                (errors (stats self) ++ msgs).
Proof.
  induction json_files as [|f rest IH]; intros self H.
  - cbn. split; [reflexivity|]. exists []. split; [reflexivity|].
    rewrite app_nil_r. now destruct (stats self).
  - inversion H as [|x l Hf Hrest]; subst. cbn zeta. cbn [fold_left].
    destruct (import_file_blocked self f Hf) as [msg E]. rewrite E.
    destruct (IH (add_error msg self)) as [Hconn [msgs [Hlen Hstats]]].
    { eapply Forall_impl; [|exact Hrest]. intros g Hg. exact Hg. }
    cbn zeta in Hconn, Hstats. split; [exact Hconn|].
    exists (msg :: msgs). split.
    + unfold len in *. cbn [List.length]. lia.
    + rewrite Hstats. cbn [add_error stats notes_imported links_imported
                           images_imported categories_imported tasks_imported
                           ideas_imported projects_imported errors].
      now rewrite <- app_assoc.
Qed.

(** The lines that the images of a run leave in the error log: one for
    every image, of a record whose Note row is inserted, with a size that
    does not fit a 64-bit integer. *)
Fixpoint image_overflows (json_files : list json_file_t) (self : self_t) : Z :=
  match json_files with
  | [] => 0
  | json_file :: rest =>
      match jf_loaded json_file with
      | inr note_data => attempted text_of image_errors note_data self
      | inl _ => 0
      end
      + image_overflows rest (import_file self json_file)
  end.

(** Every image size of the record of a file fits. *)
Definition sizes_fit (json_file : json_file_t) : Prop :=
  forall note_data,
    jf_loaded json_file = inr note_data ->
    image_errors (get_or (nd_note_id note_data) "") note_data = [].

Lemma image_overflows_none (json_files : list json_file_t) :
  Forall sizes_fit json_files ->
  forall self, image_overflows json_files self = 0.
Proof.
  induction 1 as [|f rest Hf Hrest IH]; intro self;
    cbn [image_overflows]; [reflexivity|].
  rewrite IH. destruct (jf_loaded f) as [e|note_data] eqn:E; [reflexivity|].
  unfold attempted. rewrite (Hf note_data E).
  now destruct (goes_in _ _ _).
Qed.

Lemma import_files_accounting (json_files : list json_file_t) :
  forall self,
    let self' := fold_left import_file json_files self in
    let imported :=
      notes_imported (stats self') - notes_imported (stats self) in
    let logged := len (errors (stats self')) - len (errors (stats self)) in
    imported = len (notes (conn self')) - len (notes (conn self))
    /\ 0 <= imported <= len json_files
    /\ logged = (len json_files - imported) + image_overflows json_files self.
Proof.
  induction json_files as [|f rest IH]; intro self.
  - cbn. lia.
  - cbn zeta. cbn [fold_left image_overflows].
    specialize (IH (import_file self f)). cbn zeta in IH.
    assert (notes_imported (stats (import_file self f))
            - notes_imported (stats self)
            = len (notes (conn (import_file self f)))
              - len (notes (conn self))
            /\ 0 <= notes_imported (stats (import_file self f))
                    - notes_imported (stats self) <= 1
            /\ len (errors (stats (import_file self f)))
               - len (errors (stats self))
               = (1 - (notes_imported (stats (import_file self f))
                       - notes_imported (stats self)))
                 + match jf_loaded f with
                   | inr note_data =>
                       attempted text_of image_errors note_data self
                   | inl _ => 0
                   end) as Hstep.
    { unfold import_file. destruct (jf_loaded f) as [e|note_data].
      - cbn [add_error stats conn notes_imported errors].
        rewrite len_app. unfold len. cbn [List.length]. lia.
      - pose proof (import_note_accounting text_of note_data self) as H.
        cbn zeta in H. destruct H as (H1 & [[_ H2]|[_ H2]] & H3);
          repeat split; lia. }
    unfold len in *. cbn [List.length].
    destruct IH as (IH1 & IH2 & IH3). destruct Hstep as (H1 & H2 & H3).
    repeat split; lia.
Qed.

Lemma main_runs (json_files : list json_file_t) (file : database) :
  json_files <> [] ->
  let db := fold_left import_file json_files (connect (tables file)) in
  let lk := populate_lookup_tables (conn db) (lookups file) in
  main json_files file
  = Some (mk_database (conn db) lk,
          mk_report (totals (conn db)) (date_ranges (conn db))
            (breakdowns (conn db) lk) (stats db)).
Proof. destruct json_files; [congruence|reflexivity]. Qed.

Lemma main_some (json_files : list json_file_t) (file db : database)
    (report : report_t) :
  main json_files file = Some (db, report) -> json_files <> [].
Proof. intros H ->. discriminate H. Qed.

Lemma connect_again (self : self_t) :
  foreign_keys (conn self) = true -> conn (connect (conn self)) = conn self.
Proof.
  intro H. unfold connect. cbn [conn]. rewrite <- H. apply store_eta.
Qed.

(** X19: a second run of the export over the same files changes nothing.
    After a run of [main], running it again on the database it left, with
    the same files, leaves the same database and reports the same totals,
    date ranges and breakdowns; the second run imports nothing and logs one
    error for every file. *)
Theorem a_second_export_changes_nothing (json_files : list json_file_t)
    (file first : database) (report : report_t) :
  main json_files file = Some (first, report) ->
  exists again msgs,
    main json_files first = Some (first, again)
    /\ rp_totals again = rp_totals report
    /\ rp_date_ranges again = rp_date_ranges report
    /\ rp_breakdowns again = rp_breakdowns report
    /\ rp_import_stats again = mk_stats 0 0 0 0 0 0 0 msgs
    /\ len msgs = len json_files.
Proof.
  intro H. pose proof (main_some _ _ _ _ H) as Hne.
  rewrite (main_runs json_files file Hne) in H.
  rewrite (main_runs json_files first Hne).
  cbv zeta in H |- *. injection H as <- <-. cbn [tables lookups].
  set (self := fold_left import_file json_files (connect (tables file))).
  assert (conn (connect (conn self)) = conn self) as Hc.
  { apply connect_again. unfold self.
    now rewrite import_files_foreign_keys. }
  destruct (import_files_blocked json_files (connect (conn self)))
    as [Hconn [msgs [Hlen Hstats]]].
  { eapply Forall_impl; [|apply (import_files_block json_files
                                   (connect (tables file)))].
    intros g Hg note_data E. fold self in Hg.
    eapply note_inserts_blocked; [|apply (Hg note_data E)].
    rewrite Hc. apply incl_refl. }
  cbn zeta in Hconn, Hstats. rewrite Hc in Hconn.
  exists (mk_report (totals (conn self)) (date_ranges (conn self))
            (breakdowns (conn self)
               (populate_lookup_tables (conn self) (lookups file)))
            (mk_stats 0 0 0 0 0 0 0 msgs)), msgs.
  rewrite Hconn, Hstats.
  assert (populate_lookup_tables (conn self)
            (populate_lookup_tables (conn self) (lookups file))
          = populate_lookup_tables (conn self) (lookups file)) as ->.
  { unfold populate_lookup_tables. cbn [accounts folders]. f_equal.
    - apply (add_unique_again account_conflict ac_account_name String.eqb
               String.eqb_eq (fun _ _ => eq_refl)).
    - apply (add_unique_again folder_conflict folder_key pair_eqb
               pair_eqb_spec (fun _ _ => eq_refl)). }
  cbn [rp_totals rp_date_ranges rp_breakdowns rp_import_stats].
  repeat (split; [reflexivity|]). exact Hlen.
Qed.

(** X20: the report of a first run adds up.  For a run of [main] that
    creates the database, the number of notes in the store, the counter
    [notes_imported] and the sum of the note counts of the accounts (and of
    the folders) are the same number; the error log has one line for every
    file that is not imported and one for every image, of an imported
    record, with a size that does not fit a 64-bit integer.  So when every
    image size fits, the notes imported and the errors logged add up to the
    number of files. *)
Theorem a_first_export_adds_up (json_files : list json_file_t)
    (db : database) (report : report_t) :
  main json_files new_database = Some (db, report) ->
  let imported := notes_imported (rp_import_stats report) in
  let logged := len (errors (rp_import_stats report)) in
  total_notes (rp_totals report) = imported
  /\ len (notes (tables db)) = imported
  /\ sum_of (map ac_note_count (accounts (lookups db))) = imported
  /\ sum_of (map fo_note_count (folders (lookups db))) = imported
  /\ imported + logged
     = len json_files + image_overflows json_files (connect empty_store)
  /\ (Forall sizes_fit json_files -> imported + logged = len json_files).
Proof.
  intro H. pose proof (main_some _ _ _ _ H) as Hne.
  rewrite (main_runs json_files new_database Hne) in H.
  cbv zeta in H. injection H as <- <-.
  cbn [tables lookups new_database rp_totals rp_import_stats totals
       total_notes].
  set (self := fold_left import_file json_files (connect empty_store)).
  destruct (import_files_accounting json_files (connect empty_store))
    as (Hn & _ & He).
  fold self in Hn, He. cbn in Hn, He.
  assert (len (notes (conn self)) = notes_imported (stats self)) as E
    by (unfold len in *; lia).
  cbn zeta. split; [exact E|]. split; [exact E|].
  split; [|split; [|split]].
  - rewrite accounts_from_empty, map_map. cbn [ac_note_count].
    rewrite (group_count_sum String.eqb String.eqb_eq), len_map. exact E.
  - rewrite folders_from_empty, map_map. cbn [fo_note_count].
    rewrite (group_count_sum pair_eqb pair_eqb_spec), len_map. exact E.
  - unfold len in *. lia.
  - intro Hfit. rewrite (image_overflows_none json_files Hfit) in He.
    unfold len in *. lia.
Qed.

End Main.

(** * The further properties, on concrete records *)

(** A record with a created date. *)
Definition dated_note (note_id coredata_id created : string) : note_data_t :=
  {| nd_note_id := Some note_id; nd_original_index := None; nd_title := None;
     nd_content := None; nd_content_cleaned := None; nd_folder := None;
     nd_account := None; nd_id := Some coredata_id;
     nd_created := Some created; nd_modified := None;
     nd_status := None; nd_processed := None;
     nd_primary_category := None; nd_categories := None;
     nd_extracted_data := None; nd_analysis := None |}.

(** A record as [analyze_note.py] leaves it. *)
Definition analysed_note : note_data_t :=
  {| nd_note_id := Some "n1"; nd_original_index := None; nd_title := None;
     nd_content := None; nd_content_cleaned := None; nd_folder := None;
     nd_account := None; nd_id := None; nd_created := None;
     nd_modified := None; nd_status := None; nd_processed := None;
     nd_primary_category := Some "note"; nd_categories := None;
     nd_extracted_data :=
       Some (mk_extracted_data None
               (Some ["https://youtu.be/x"; "https://a.com"]));
     nd_analysis :=
       Some (mk_analysis None None None None None
               (Some (AnalyzeNote.categorize_links
                        ["https://youtu.be/x"; "https://a.com"])) []) |}.

(** A record as [split_individual.py] leaves it, with one image. *)
Definition split_note : note_data_t :=
  {| nd_note_id := Some "note_0001"; nd_original_index := Some 0;
     nd_title := None; nd_content := None; nd_content_cleaned := None;
     nd_folder := None; nd_account := None; nd_id := None;
     nd_created := None; nd_modified := None; nd_status := None;
     nd_processed := None; nd_primary_category := None;
     nd_categories := None;
     nd_extracted_data :=
       Some (mk_extracted_data
               (Some [SplitIndividual.as_entry
                        (SplitIndividual.image_info_of
                           "note_0001_img_1.png" "png" 2048)])
               None);
     nd_analysis := None |}.

(** A folder name that two accounts have. *)
Definition one_name_two_accounts : lookup_tables :=
  mk_lookup_tables
    [mk_account_row "iCloud" 5; mk_account_row "Gmail" 2]
    [mk_folder_row "Notes" "iCloud" 5; mk_folder_row "Notes" "Gmail" 2].

(** A file with a record and a file that does not parse. *)
Definition two_files : list json_file_t :=
  [mk_json_file "individual_notes/note_0001.json" (inr full_note);
   mk_json_file "individual_notes/note_0002.json" (inl "Expecting value")].

(** A record with an image whose size is 2^63. *)
Definition note_with_huge_image : note_data_t :=
  {| nd_note_id := Some "n3"; nd_original_index := Some 2; nd_title := None;
     nd_content := None; nd_content_cleaned := None; nd_folder := None;
     nd_account := None; nd_id := Some "x-coredata://3"; nd_created := None;
     nd_modified := None; nd_status := None; nd_processed := None;
     nd_primary_category := None; nd_categories := None;
     nd_extracted_data :=
       Some (mk_extracted_data
               (Some [ImageObject (Some "scan.png") None (Some "png")
                        (Some (2 ^ 63))])
               None);
     nd_analysis := None |}.

Definition three_files : list json_file_t :=
  two_files
  ++ [mk_json_file "individual_notes/note_0003.json"
        (inr note_with_huge_image)].

Definition evening : datetime := mk_datetime 2025 11 8 21 59 6.
Definition morning : datetime := mk_datetime 2025 11 10 9 0 0.

Lemma unique_keys_witness :
  unique_keys (conn (import_note as_is full_note fresh)).
Proof.
  apply (reachable_stores_have_unique_keys as_is).
  apply reach_import. apply reach_connect.
Defined.

Lemma entries_in_order_witness :
  rows_of t_note_id "n1"
    (extracted_tasks (conn (import_note as_is note_with_summary fresh)))
  = [mk_task_row "n1" "Call Bob"].
Proof.
  destruct (entries_are_stored_in_order as_is note_with_summary fresh)
    as [H _].
  - reflexivity.
  - reflexivity.
  - exact H.
Defined.

Lemma note_row_witness :
  exists r,
    rows_of n_note_id "n1" (notes (conn (import_note as_is full_note fresh)))
    = [r]
    /\ n_title r = "Untitled" /\ n_account r = "Unknown".
Proof.
  destruct (the_note_row_is_stored as_is full_note fresh)
    as [r (H1 & H2 & _ & H4 & _)].
  - reflexivity.
  - exists r. split; [exact H1|]. split; [exact H2|exact H4].
Defined.

Lemma stored_text_witness :
  isoformat evening = "2025-11-08 21:59:06"
  /\ parse_macos_date (isoformat evening) = Some evening.
Proof.
  split; [reflexivity|].
  apply stored_text_parses_back. unfold in_calendar. cbn. lia.
Defined.

Lemma text_order_witness :
  (isoformat evening ?= isoformat morning)%string = Lt.
Proof.
  destruct (stored_texts_order_as_time evening morning) as [H _].
  - unfold in_calendar. cbn. lia.
  - unfold in_calendar. cbn. lia.
  - rewrite H. reflexivity.
Defined.

Lemma parsed_columns_witness :
  dates_parsed (conn (import_note as_is note_with_dates fresh)).
Proof.
  apply (parsed_columns_agree_with_raw as_is).
  apply reach_import. apply reach_connect.
Defined.

Lemma documented_format_witness :
  str (macos_text evening) = "November 8, 2025 at 21:59:06"
  /\ parse_macos_date (str (macos_text evening)) = Some evening
  /\ parse_macos_date
       (str (macos_text_with_weekday (chars "Saturday") evening))
     = Some evening.
Proof.
  split; [reflexivity|].
  apply (documented_format_parses evening (chars "Saturday")).
  - unfold in_calendar. cbn. lia.
  - discriminate.
  - reflexivity.
Defined.

Lemma analysed_links_witness :
  let self' := import_note as_is analysed_note fresh in
  links_imported (stats self') = 4
  /\ extracted_links (conn self')
     = [mk_link_row "n1" "https://youtu.be/x" None;
        mk_link_row "n1" "https://a.com" None].
Proof.
  intro self'. subst self'.
  destruct (analysed_links_stay_untyped as_is analysed_note fresh
              ["https://youtu.be/x"; "https://a.com"])
    as [Hrows [_ Hcount]].
  - reflexivity.
  - reflexivity.
  - split.
    + rewrite Hcount. reflexivity.
    + rewrite Hrows. reflexivity.
Defined.

Lemma split_images_witness :
  Forall (fun r => i_size_bytes r = 0
                   /\ i_relative_path r = "images/note_0001_img_1.png")
         (extracted_images (conn (import_note as_is split_note fresh))).
Proof.
  apply Forall_forall. intros r Hr.
  destruct (split_images_lose_their_size as_is split_note fresh
              [SplitIndividual.image_info_of "note_0001_img_1.png" "png" 2048]
              eq_refl) with (r := r)
    as [H|[info [Hin [_ [_ [Hp Hs]]]]]].
  - intros info [<-|[]]. now exists "note_0001_img_1.png", "png", 2048.
  - exact Hr.
  - destruct H.
  - destruct Hin as [<-|[]]. split; [exact Hs|exact Hp].
Defined.

Lemma top_folders_witness :
  dict_get "Notes" (top_folders (breakdowns empty_store one_name_two_accounts))
  = Some 2.
Proof.
  pose proof (top_folders_keeps_the_least_count empty_store
                one_name_two_accounts "Notes") as H.
  destruct (dict_get "Notes" _) as [n|].
  - destruct H as [[r [Hr [_ Hn]]] Hleast].
    + unfold len. cbn. lia.
    + pose proof (Hleast (mk_folder_row "Notes" "Gmail" 2)
                    (or_intror (or_introl eq_refl)) eq_refl) as Hle.
      cbn in Hle. f_equal.
      destruct Hr as [<-|[<-|[]]]; cbn in Hn; lia.
  - exfalso.
    apply (H ltac:(unfold len; cbn; lia) (mk_folder_row "Notes" "iCloud" 5)).
    + left. reflexivity.
    + reflexivity.
Defined.

Lemma second_export_witness :
  match main as_is two_files new_database with
  | Some (first, report) =>
      exists again msgs,
        main as_is two_files first = Some (first, again)
        /\ rp_import_stats again = mk_stats 0 0 0 0 0 0 0 msgs
        /\ len msgs = 2
  | None => False
  end.
Proof.
  destruct (main as_is two_files new_database) as [[first report]|] eqn:E.
  - destruct (a_second_export_changes_nothing as_is two_files new_database
                first report E)
      as [again [msgs (H1 & _ & _ & _ & H5 & H6)]].
    exists again, msgs. split; [exact H1|]. split; [exact H5|exact H6].
  - discriminate E.
Defined.

Lemma first_export_witness :
  match main as_is three_files new_database with
  | Some (db, report) =>
      total_notes (rp_totals report) = notes_imported (rp_import_stats report)
      /\ notes_imported (rp_import_stats report)
         + len (errors (rp_import_stats report)) = 4
  | None => False
  end.
Proof.
  destruct (main as_is three_files new_database) as [[db report]|] eqn:E.
  - destruct (a_first_export_adds_up as_is three_files db report E)
      as (H1 & _ & _ & _ & H5 & _).
    split; [exact H1|]. rewrite H5. vm_compute. reflexivity.
  - discriminate E.
Defined.

(** Two notes, the later one imported first. *)
Definition two_dated_notes : store :=
  conn (import_all as_is
          [dated_note "n1" "x1" "November 8, 2025 at 21:59:06";
           dated_note "n2" "x2" "March 1, 2024 at 08:00:00"]
          fresh).

Lemma created_range_witness :
  earliest_created (date_ranges two_dated_notes) = Some "2024-03-01 08:00:00"
  /\ exists r t,
       In r (notes two_dated_notes)
       /\ parse_macos_date (n_created_raw r) = Some t
       /\ isoformat t = "2024-03-01 08:00:00"
       /\ forall r' t',
            In r' (notes two_dated_notes) ->
            parse_macos_date (n_created_raw r') = Some t' ->
            dt_compare t t' <> Gt.
Proof.
  split; [reflexivity|].
  assert (dates_parsed two_dated_notes) as Hd.
  { intros r [<-|[<-|[]]]; split; reflexivity. }
  destruct (created_range_is_chronological two_dated_notes Hd) as [H _].
  change (earliest_created (date_ranges two_dated_notes))
    with (Some "2024-03-01 08:00:00") in H.
  destruct H as [r [t (Hr & Ht & Hv & Hleast)]].
  exists r, t. split; [exact Hr|]. split; [exact Ht|].
  split; [now injection Hv|exact Hleast].
Defined.
